(** * lbfgs_lite: the L-BFGS driver and its backtracking line search

    A shallow embedding of [lbfgs_lite.hpp].

    Numbers.  A C [double] is an IEEE 754 binary64 value, modelled by Rocq's
    primitive [float] (same format, round to nearest even, comparisons false
    on NaN); expressions are evaluated operation by operation, without
    contraction into fused multiply-add.  A C [int] is modelled by [Z] in the
    range where the C arithmetic is defined (signed overflow is undefined
    behaviour in C; the counters of this code stay far from it); [%] is
    [Z.rem].

    Memory.  A [double *] buffer of [n] cells is a [list float]; the vector
    primitives run over the first [n] cells as the C loops do and leave the
    length of their destination unchanged.  [vecalloc] returns zeroed memory
    and is assumed to succeed.

    Callbacks.  The three client callbacks are functions that receive the
    user data ([void *instance]) and return its new value together with their
    result; the evaluator also receives the gradient buffer and returns what
    it writes there.  Every call is appended to a log, which is what the
    statements about "calls made" talk about.

    Loops.  The [for (;;)] of the line search and the [while (loop == 1)] of
    the driver take fuel.  The search is shown to return within its trial
    budget ([ls_trials_spec], [lbfgs_search_total]); the driver returns
    [None] only when its fuel runs out before the loop is left. *)

From Stdlib Require Import String.
From Stdlib Require Import ZArith List Bool Lia Floats.
From stdpp Require Import base list.
Import ListNotations.

#[local] Set Warnings "-inexact-float".
#[local] Open Scope Z_scope.

(** ** Data Type Part *)

Record lbfgs_parameter_t := {
  mem_size : Z;
  g_epsilon : float;
  past : Z;
  delta : float;
  max_iterations : Z;
  max_linesearch : Z;
  min_step : float;
  max_step : float;
  f_dec_coeff : float;
  s_curv_coeff : float;
  xtol : float
}.

Definition _default_param : lbfgs_parameter_t := {|
  mem_size := 8;
  g_epsilon := 1e-5;
  past := 0;
  delta := 1e-5;
  max_iterations := 0;
  max_linesearch := 40;
  min_step := 1e-20;
  max_step := 1e20;
  f_dec_coeff := 1e-4;
  s_curv_coeff := 0.9;
  xtol := 1.0e-16
|}.

(** Return values of [lbfgs_optimize]: the anonymous enum, as the [int]s it
    denotes. *)
Definition LBFGS_CONVERGENCE : Z := 0.
Definition LBFGS_STOP : Z := 1.
Definition LBFGS_ALREADY_MINIMIZED : Z := 2.
Definition LBFGSERR_UNKNOWNERROR : Z := -1024.
Definition LBFGSERR_LOGICERROR : Z := -1023.
Definition LBFGSERR_CANCELED : Z := -1022.
Definition LBFGSERR_INVALID_N : Z := -1021.
Definition LBFGSERR_INVALID_MEMSIZE : Z := -1020.
Definition LBFGSERR_INVALID_GEPSILON : Z := -1019.
Definition LBFGSERR_INVALID_TESTPERIOD : Z := -1018.
Definition LBFGSERR_INVALID_DELTA : Z := -1017.
Definition LBFGSERR_INVALID_MINSTEP : Z := -1016.
Definition LBFGSERR_INVALID_MAXSTEP : Z := -1015.
Definition LBFGSERR_INVALID_FDECCOEFF : Z := -1014.
Definition LBFGSERR_INVALID_SCURVCOEFF : Z := -1013.
Definition LBFGSERR_INVALID_XTOL : Z := -1012.
Definition LBFGSERR_INVALID_MAXLINESEARCH : Z := -1011.
Definition LBFGSERR_OUTOFINTERVAL : Z := -1010.
Definition LBFGSERR_INCORRECT_TMINMAX : Z := -1009.
Definition LBFGSERR_ROUNDING_ERROR : Z := -1008.
Definition LBFGSERR_MINIMUMSTEP : Z := -1007.
Definition LBFGSERR_MAXIMUMSTEP : Z := -1006.
Definition LBFGSERR_MAXIMUMLINESEARCH : Z := -1005.
Definition LBFGSERR_MAXIMUMITERATION : Z := -1004.
Definition LBFGSERR_WIDTHTOOSMALL : Z := -1003.
Definition LBFGSERR_INVALIDPARAMETERS : Z := -1002.
Definition LBFGSERR_INCREASEGRADIENT : Z := -1001.

(** The statuses [LBFGSERR_INVALID_N] .. [LBFGSERR_INVALID_MAXLINESEARCH]
    that report a rejected argument. *)
Definition is_invalid_status (ret : Z) : bool :=
  (LBFGSERR_INVALID_N <=? ret) && (ret <=? LBFGSERR_INVALID_MAXLINESEARCH).

(** Iteration data struct: one slot of the limited memory. *)
Record iteration_data_t := {
  it_alpha : float;
  it_s : list float;
  it_y : list float;
  it_ys : float
}.

#[global] Instance float_inhabited : Inhabited float := populate 0%float.
#[global] Instance iteration_data_inhabited : Inhabited iteration_data_t :=
  populate {| it_alpha := 0; it_s := []; it_y := []; it_ys := 0 |}.

(** ** Arithmetic Part *)

(** The loop [for (i = 0; i < n; ++i) y[i] = f(y[i], x[i])]. *)
Fixpoint vec_loop2 (f : float -> float -> float) (y x : list float) (n : nat)
  : list float :=
  match n, y, x with
  | S n', yi :: y', xi :: x' => f yi xi :: vec_loop2 f y' x' n'
  | _, _, _ => y
  end.

Definition veccpy (y x : list float) (n : Z) : list float :=
  vec_loop2 (fun _ xi => xi) y x (Z.to_nat n).

Definition vecncpy (y x : list float) (n : Z) : list float :=
  vec_loop2 (fun _ xi => (- xi)%float) y x (Z.to_nat n).

Definition vecadd (y x : list float) (c : float) (n : Z) : list float :=
  vec_loop2 (fun yi xi => (yi + c * xi)%float) y x (Z.to_nat n).

(** [z[i] = x[i] - y[i]] for [i < n]. *)
Fixpoint vecdiff_loop (z x y : list float) (n : nat) : list float :=
  match n, z, x, y with
  | S n', _ :: z', xi :: x', yi :: y' =>
      (xi - yi)%float :: vecdiff_loop z' x' y' n'
  | _, _, _, _ => z
  end.

Definition vecdiff (z x y : list float) (n : Z) : list float :=
  vecdiff_loop z x y (Z.to_nat n).

Fixpoint vecscale_loop (y : list float) (c : float) (n : nat) : list float :=
  match n, y with
  | S n', yi :: y' => (yi * c)%float :: vecscale_loop y' c n'
  | _, _ => y
  end.

Definition vecscale (y : list float) (c : float) (n : Z) : list float :=
  vecscale_loop y c (Z.to_nat n).

(** [*s = 0.; for (i = 0; i < n; ++i) *s += x[i] * y[i];] with the
    accumulator made explicit. *)
Fixpoint vecdot_loop (acc : float) (x y : list float) (n : nat) : float :=
  match n, x, y with
  | S n', xi :: x', yi :: y' => vecdot_loop (acc + xi * yi)%float x' y' n'
  | _, _, _ => acc
  end.

Definition vecdot (x y : list float) (n : Z) : float :=
  vecdot_loop 0%float x y (Z.to_nat n).

Definition vec2norm (x : list float) (n : Z) : float :=
  PrimFloat.sqrt (vecdot x x n).

Definition vec2norminv (x : list float) (n : Z) : float :=
  (1.0 / vec2norm x n)%float.

(** [vecalloc(n * sizeof(double))]: [n] cells of zeroed memory. *)
Definition vecalloc (n : Z) : list float := replicate (Z.to_nat n) 0%float.

(** ** Callbacks and the log of their calls *)

Inductive event :=
| EvEvaluate (x : list float) (fx : float) (g : list float)
| EvStepbound (xp d : list float) (bound : float)
| EvProgress (x g : list float) (fx xnorm gnorm step : float) (n k ls : Z)
    (answer : Z).

Definition is_evaluate (e : event) : bool :=
  match e with EvEvaluate _ _ _ => true | _ => false end.

Definition is_progress (e : event) : bool :=
  match e with EvProgress _ _ _ _ _ _ _ _ _ _ => true | _ => false end.

(** Number of evaluator calls, resp. progress calls, recorded in a log. *)
Definition evaluations (log : list event) : Z :=
  Z.of_nat (length (List.filter is_evaluate log)).

Definition progress_reports (log : list event) : Z :=
  Z.of_nat (length (List.filter is_progress log)).

Section WithInstance.

(** The type of the client's user data. *)
Context {I : Type}.

Definition lbfgs_evaluate_t : Type :=
  I -> list float -> list float -> Z -> I * float * list float.

Definition lbfgs_stepbound_t : Type :=
  I -> list float -> list float -> Z -> I * float.

Definition lbfgs_progress_t : Type :=
  I -> list float -> list float -> float -> float -> float -> float ->
  Z -> Z -> Z -> I * Z.

(** Callback data struct.  A null function pointer is [None]; the user data
    the struct points to lives in [world]. *)
Record callback_data_t := {
  cd_n : Z;
  proc_evaluate : lbfgs_evaluate_t;
  proc_stepbound : option lbfgs_stepbound_t;
  proc_progress : option lbfgs_progress_t
}.

(** What lies outside the optimizer: the user data and the log of calls. *)
Record world := {
  instance : I;
  calls : list event
}.

(** [fx = cd->proc_evaluate(cd->instance, x, g, cd->n)]: the callback fills
    the gradient buffer [g] (its first [n] cells) and returns the value. *)
Definition call_evaluate (cd : callback_data_t) (w : world)
    (x g : list float) : world * float * list float :=
  let '(i1, fx, gout) := proc_evaluate cd (instance w) x g (cd_n cd) in
  let g1 := veccpy g gout (cd_n cd) in
  ({| instance := i1; calls := calls w ++ [EvEvaluate x fx g1] |}, fx, g1).

Definition call_stepbound (sb : lbfgs_stepbound_t) (cd : callback_data_t)
    (w : world) (xp d : list float) : world * float :=
  let '(i1, b) := sb (instance w) xp d (cd_n cd) in
  ({| instance := i1; calls := calls w ++ [EvStepbound xp d b] |}, b).

Definition call_progress (pp : lbfgs_progress_t) (cd : callback_data_t)
    (w : world) (x g : list float) (fx xnorm gnorm step : float) (k ls : Z)
  : world * Z :=
  let '(i1, a) :=
    pp (instance w) x g fx xnorm gnorm step (cd_n cd) k ls in
  ({| instance := i1;
      calls := calls w ++ [EvProgress x g fx xnorm gnorm step (cd_n cd) k ls a] |},
   a).

(** ** L-BFGS Part: the backtracking line search *)

(** What [line_search_backtracking] leaves behind: its return value and the
    cells it writes through its pointer arguments [x], [f], [g], [stp]. *)
Record ls_result := {
  ls_ret : Z;
  ls_x : list float;
  ls_f : float;
  ls_g : list float;
  ls_stp : float;
  ls_w : world
}.

Definition dec : float := 0.5.

(** The [for (;;)] loop of the search; [fuel] bounds the number of trials
    ([ls_trials_total] shows that [max_linesearch] trials always suffice). *)
Fixpoint ls_trials (fuel : nat) (n : Z) (s xp : list float)
    (stpmin stpmax finit dgtest : float)
    (cd : callback_data_t) (param : lbfgs_parameter_t)
    (count : Z) (x g : list float) (stp : float) (w : world)
  : option ls_result :=
  match fuel with
  | O => None
  | S fuel' =>
      let x1 := vecadd (veccpy x xp n) s stp n in
      let '(w1, f1, g1) := call_evaluate cd w x1 g in
      let count1 := count + 1 in
      if (finit + stp * dgtest <? f1)%float then
        if (stp <? stpmin)%float then
          Some {| ls_ret := LBFGSERR_MINIMUMSTEP; ls_x := x1; ls_f := f1;
                  ls_g := g1; ls_stp := stp; ls_w := w1 |}
        else if (stpmax <? stp)%float then
          Some {| ls_ret := LBFGSERR_MAXIMUMSTEP; ls_x := x1; ls_f := f1;
                  ls_g := g1; ls_stp := stp; ls_w := w1 |}
        else if max_linesearch param <=? count1 then
          Some {| ls_ret := LBFGSERR_MAXIMUMLINESEARCH; ls_x := x1;
                  ls_f := f1; ls_g := g1; ls_stp := stp; ls_w := w1 |}
        else
          ls_trials fuel' n s xp stpmin stpmax finit dgtest cd param
            count1 x1 g1 (stp * dec)%float w1
      else
        Some {| ls_ret := count1; ls_x := x1; ls_f := f1; ls_g := g1;
                ls_stp := stp; ls_w := w1 |}
  end.

Definition line_search_backtracking (n : Z) (x : list float) (f : float)
    (g : list float) (stp : float) (s xp gp : list float)
    (stpmin stpmax : float) (cd : callback_data_t)
    (param : lbfgs_parameter_t) (w : world) : option ls_result :=
  if (stp <=? 0)%float then
    Some {| ls_ret := LBFGSERR_INVALIDPARAMETERS; ls_x := x; ls_f := f;
            ls_g := g; ls_stp := stp; ls_w := w |}
  else
    let dginit := vecdot gp s n in
    if (0 <? dginit)%float then
      Some {| ls_ret := LBFGSERR_INCREASEGRADIENT; ls_x := x; ls_f := f;
              ls_g := g; ls_stp := stp; ls_w := w |}
    else
      let finit := f in
      let dgtest := (f_dec_coeff param * dginit)%float in
      ls_trials (Z.to_nat (Z.max 1 (max_linesearch param)))
        n s xp stpmin stpmax finit dgtest cd param 0 x g stp w.

(** ** L-BFGS Part: the driver *)

(** The variables of [lbfgs_optimize] that live across iterations of its
    [while] loop.  [st_x] is the caller's array. *)
Record lbfgs_state := {
  st_x : list float;
  st_xp : list float;
  st_g : list float;
  st_gp : list float;
  st_d : list float;
  st_lm : list iteration_data_t;
  st_pf : option (list float);
  st_fx : float;
  st_step : float;
  st_k : Z;
  st_end : Z;
  st_w : world
}.

(** How one pass through the loop body ends: back to the loop test with
    [loop == 1], or out of the loop with [ret] set. *)
Inductive outcome :=
| Continue (st : lbfgs_state)
| Break (ret : Z) (st : lbfgs_state).

(** "Check the input parameters for errors." *)
Definition check_parameters (n : Z) (param : lbfgs_parameter_t) : option Z :=
  if n <=? 0 then Some LBFGSERR_INVALID_N
  else if mem_size param <=? 0 then Some LBFGSERR_INVALID_MEMSIZE
  else if (g_epsilon param <? 0)%float then Some LBFGSERR_INVALID_GEPSILON
  else if past param <? 0 then Some LBFGSERR_INVALID_TESTPERIOD
  else if (delta param <? 0)%float then Some LBFGSERR_INVALID_DELTA
  else if (min_step param <? 0)%float then Some LBFGSERR_INVALID_MINSTEP
  else if (max_step param <? min_step param)%float
  then Some LBFGSERR_INVALID_MAXSTEP
  else if (f_dec_coeff param <? 0)%float then Some LBFGSERR_INVALID_FDECCOEFF
  else if (s_curv_coeff param <=? f_dec_coeff param)%float
          || (1 <=? s_curv_coeff param)%float
  then Some LBFGSERR_INVALID_SCURVCOEFF
  else if (xtol param <? 0)%float then Some LBFGSERR_INVALID_XTOL
  else if max_linesearch param <=? 0 then Some LBFGSERR_INVALID_MAXLINESEARCH
  else None.

(** "If the step bound can be provided dynamically, then apply it."
    Returns the world after the call, [step_max] and [step]. *)
Definition step_bounds (param : lbfgs_parameter_t) (cd : callback_data_t)
    (st : lbfgs_state) : world * float * float :=
  match proc_stepbound cd with
  | Some sb =>
      let '(w1, b) := call_stepbound sb cd (st_w st) (st_xp st) (st_d st) in
      let step_max := if (b <? max_step param)%float then b
                      else max_step param in
      (w1, step_max,
       if (step_max <=? st_step st)%float then (step_max / 2.0)%float
       else st_step st)
  | None => (st_w st, max_step param, st_step st)
  end.

(** [if (xnorm < 1.0) xnorm = 1.0; if (gnorm / xnorm <= param.g_epsilon)]. *)
Definition gradient_test (param : lbfgs_parameter_t) (xnorm gnorm : float)
  : bool :=
  let xnorm1 := if (xnorm <? 1.0)%float then 1.0%float else xnorm in
  (gnorm / xnorm1 <=? g_epsilon param)%float.

(** [rate = (pf[k % param.past] - fx) / fx]. *)
Definition decrease_rate (param : lbfgs_parameter_t) (pf : list float)
    (k : Z) (fx : float) : float :=
  ((pf !!! Z.to_nat (Z.rem k (past param)) - fx) / fx)%float.

(** The stopping criterion, tested only when [pf != NULL] and
    [param.past <= k]. *)
Definition stopping_test (param : lbfgs_parameter_t)
    (pf : option (list float)) (k : Z) (fx : float) : bool :=
  match pf with
  | Some buf =>
      (past param <=? k)
      && (PrimFloat.abs (decrease_rate param buf k fx) <? delta param)%float
  | None => false
  end.

(** [pf[k % param.past] = fx], when [pf != NULL]. *)
Definition store_past (param : lbfgs_parameter_t)
    (pf : option (list float)) (k : Z) (fx : float) : option (list float) :=
  match pf with
  | Some buf => Some (<[Z.to_nat (Z.rem k (past param)) := fx]> buf)
  | None => None
  end.

(** "Update vectors s and y" and "compute scalars ys and yy": writes slot
    [lm[end]] and returns the memory with [ys] and [yy]. *)
Definition store_pair (n : Z) (lm : list iteration_data_t) (end_ : Z)
    (x xp g gp : list float) : list iteration_data_t * float * float :=
  let it := lm !!! Z.to_nat end_ in
  let s1 := vecdiff (it_s it) x xp n in
  let y1 := vecdiff (it_y it) g gp n in
  let ys := vecdot y1 s1 n in
  let yy := vecdot y1 y1 n in
  (<[Z.to_nat end_ := {| it_alpha := it_alpha it; it_s := s1; it_y := y1;
                          it_ys := ys |}]> lm, ys, yy).

(** The first [for (i = 0; i < bound; ++i)] loop of the recursion; [i]
    counts the remaining passes.  Returns [j], the memory and [d]. *)
Fixpoint first_loop (i : nat) (n m j : Z) (lm : list iteration_data_t)
    (d : list float) : Z * list iteration_data_t * list float :=
  match i with
  | O => (j, lm, d)
  | S i' =>
      let j1 := Z.rem (j + m - 1) m in
      let it := lm !!! Z.to_nat j1 in
      let a := (vecdot (it_s it) d n / it_ys it)%float in
      let lm1 := <[Z.to_nat j1 := {| it_alpha := a; it_s := it_s it;
                                      it_y := it_y it; it_ys := it_ys it |}]> lm in
      first_loop i' n m j1 lm1 (vecadd d (it_y it) (- a)%float n)
  end.

(** The second [for (i = 0; i < bound; ++i)] loop. *)
Fixpoint second_loop (i : nat) (n m j : Z) (lm : list iteration_data_t)
    (d : list float) : list float :=
  match i with
  | O => d
  | S i' =>
      let it := lm !!! Z.to_nat j in
      let beta := (vecdot (it_y it) d n / it_ys it)%float in
      second_loop i' n m (Z.rem (j + 1) m) lm
        (vecadd d (it_s it) (it_alpha it - beta)%float n)
  end.

(** From "Update vectors s and y" to "We try step = 1 first": the state
    the next pass through the loop starts from.  [x], [g], [fx], [w] are
    those left by the line search, [xp], [gp] the snapshot, [pf] the past
    values after this pass. *)
Definition update_direction (n m : Z) (st : lbfgs_state)
    (x xp g gp : list float) (pf : option (list float)) (fx : float)
    (w : world) : lbfgs_state :=
  let '(lm1, ys, yy) := store_pair n (st_lm st) (st_end st) x xp g gp in
  let k := st_k st in
  let bound := if m <=? k then m else k in
  let end1 := Z.rem (st_end st + 1) m in
  let d0 := vecncpy (st_d st) g n in
  let '(j, lm2, d1) := first_loop (Z.to_nat bound) n m end1 lm1 d0 in
  let d2 := vecscale d1 (ys / yy)%float n in
  let d3 := second_loop (Z.to_nat bound) n m j lm2 d2 in
  {| st_x := x; st_xp := xp; st_g := g; st_gp := gp; st_d := d3;
     st_lm := lm2; st_pf := pf; st_fx := fx; st_step := 1.0;
     st_k := k + 1; st_end := end1; st_w := w |}.

(** The head of the loop body, from the step bounds to the return of the
    line search: [veccpy(xp, x, n); veccpy(gp, g, n); ls = line_search_
    backtracking(n, x, &fx, g, &step, d, xp, gp, &step_min, &step_max, ...)]. *)
Definition lbfgs_search (n : Z) (param : lbfgs_parameter_t)
    (cd : callback_data_t) (st : lbfgs_state) : option ls_result :=
  let step_min := min_step param in
  let '(w1, step_max, step1) := step_bounds param cd st in
  let xp1 := veccpy (st_xp st) (st_x st) n in
  let gp1 := veccpy (st_gp st) (st_g st) n in
  line_search_backtracking n (st_x st) (st_fx st) (st_g st) step1
    (st_d st) xp1 gp1 step_min step_max cd param w1.

(** "Report the progress": the world after the call and the value assigned
    to [ret]; without a callback nothing is called and the test on [ret] is
    not made, which is the case [0]. *)
Definition report_progress (n : Z) (cd : callback_data_t)
    (st : lbfgs_state) (r : ls_result) : world * Z :=
  match proc_progress cd with
  | Some pp =>
      call_progress pp cd (ls_w r) (ls_x r) (ls_g r) (ls_f r)
        (vec2norm (ls_x r) n) (vec2norm (ls_g r) n) (ls_stp r) (st_k st)
        (ls_ret r)
  | None => (ls_w r, 0)
  end.

(** The variables after a successful search and the progress report: [x],
    [g], [fx], [step] as the search left them, [xp], [gp] the snapshot. *)
Definition searched_state (n : Z) (st : lbfgs_state) (r : ls_result)
    (w : world) (pf : option (list float)) : lbfgs_state :=
  {| st_x := ls_x r; st_xp := veccpy (st_xp st) (st_x st) n;
     st_g := ls_g r; st_gp := veccpy (st_gp st) (st_g st) n;
     st_d := st_d st; st_lm := st_lm st; st_pf := pf; st_fx := ls_f r;
     st_step := ls_stp r; st_k := st_k st; st_end := st_end st;
     st_w := w |}.

(** The variables after a failed search: "Revert to the previous point". *)
Definition reverted_state (n : Z) (st : lbfgs_state) (r : ls_result)
  : lbfgs_state :=
  let xp1 := veccpy (st_xp st) (st_x st) n in
  let gp1 := veccpy (st_gp st) (st_g st) n in
  {| st_x := veccpy (ls_x r) xp1 n; st_xp := xp1;
     st_g := veccpy (ls_g r) gp1 n; st_gp := gp1; st_d := st_d st;
     st_lm := st_lm st; st_pf := st_pf st; st_fx := ls_f r;
     st_step := ls_stp r; st_k := st_k st; st_end := st_end st;
     st_w := ls_w r |}.

(** [param.max_iterations != 0 && param.max_iterations < k + 1]. *)
Definition iteration_cap (param : lbfgs_parameter_t) (k : Z) : bool :=
  negb (max_iterations param =? 0) && (max_iterations param <? k + 1).

(** One pass through the body of [while (loop == 1)]. *)
Definition lbfgs_iteration (n m : Z) (param : lbfgs_parameter_t)
    (cd : callback_data_t) (st : lbfgs_state) : option outcome :=
  match lbfgs_search n param cd st with
  | None => None
  | Some r =>
      let ls := ls_ret r in
      if ls <? 0 then Some (Break ls (reverted_state n st r))
      else
        let xnorm := vec2norm (ls_x r) n in
        let gnorm := vec2norm (ls_g r) n in
        let '(w2, answer) := report_progress n cd st r in
        if negb (answer =? 0) then
          Some (Break answer (searched_state n st r w2 (st_pf st)))
        else if gradient_test param xnorm gnorm then
          Some (Break LBFGS_CONVERGENCE
                  (searched_state n st r w2 (st_pf st)))
        else if stopping_test param (st_pf st) (st_k st) (ls_f r) then
          Some (Break LBFGS_STOP (searched_state n st r w2 (st_pf st)))
        else
          let pf1 := store_past param (st_pf st) (st_k st) (ls_f r) in
          if iteration_cap param (st_k st) then
            Some (Break LBFGSERR_MAXIMUMITERATION
                    (searched_state n st r w2 pf1))
          else
            Some (Continue
              (update_direction n m st (ls_x r)
                 (veccpy (st_xp st) (st_x st) n) (ls_g r)
                 (veccpy (st_gp st) (st_g st) n) pf1 (ls_f r) w2))
  end.

(** The [while (loop == 1)] loop; [fuel] bounds the number of passes. *)
Fixpoint lbfgs_loop (fuel : nat) (n m : Z) (param : lbfgs_parameter_t)
    (cd : callback_data_t) (st : lbfgs_state) : option (Z * lbfgs_state) :=
  match fuel with
  | O => None
  | S fuel' =>
      match lbfgs_iteration n m param cd st with
      | None => None
      | Some (Break ret st1) => Some (ret, st1)
      | Some (Continue st1) => lbfgs_loop fuel' n m param cd st1
      end
  end.

(** From "Allocate working space" to the computation of the initial step:
    the state in which the loop is entered.  ([step], [k] and [end] are only
    assigned on the branch that enters the loop; nothing reads them on the
    other.) *)
Definition lbfgs_start (n m : Z) (param : lbfgs_parameter_t)
    (cd : callback_data_t) (x : list float) (w : world) : lbfgs_state :=
  let xp := vecalloc n in
  let gp := vecalloc n in
  let lm := replicate (Z.to_nat m)
              {| it_alpha := 0; it_s := vecalloc n; it_y := vecalloc n;
                 it_ys := 0 |} in
  let pf := if 0 <? past param then Some (vecalloc (past param)) else None in
  let '(w1, fx, g) := call_evaluate cd w x (vecalloc n) in
  let pf1 := match pf with
             | Some buf => Some (<[0%nat := fx]> buf)
             | None => None
             end in
  let d := vecncpy (vecalloc n) g n in
  {| st_x := x; st_xp := xp; st_g := g; st_gp := gp; st_d := d;
     st_lm := lm; st_pf := pf1; st_fx := fx; st_step := vec2norminv d n;
     st_k := 1; st_end := 0; st_w := w1 |}.

(** [lbfgs_optimize] after the parameter checks, up to the end of the
    loop: the value of [ret] and the final state. *)
Definition lbfgs_main (fuel : nat) (n m : Z) (param : lbfgs_parameter_t)
    (cd : callback_data_t) (x : list float) (w : world)
  : option (Z * lbfgs_state) :=
  let st0 := lbfgs_start n m param cd x w in
  if gradient_test param (vec2norm (st_x st0) n) (vec2norm (st_g st0) n)
  then Some (LBFGS_ALREADY_MINIMIZED, st0)
  else lbfgs_loop fuel n m param cd st0.

(** What a call of [lbfgs_optimize] leaves behind: its return value, the
    caller's array [x], the cell [ptr_fx] points to ([None] for a null
    pointer) and the world. *)
Record lbfgs_result := {
  ret : Z;
  x_out : list float;
  fx_out : option float;
  w_out : world
}.

(** The parameters in force: those [_param] points to, or the defaults
    when it is null. *)
Definition param_or_default (_param : option lbfgs_parameter_t)
  : lbfgs_parameter_t :=
  match _param with Some p => p | None => _default_param end.

(** "Construct a callback data." *)
Definition make_callback_data (n : Z) (proc_evaluate : lbfgs_evaluate_t)
    (proc_stepbound : option lbfgs_stepbound_t)
    (proc_progress : option lbfgs_progress_t) : callback_data_t :=
  {| cd_n := n; proc_evaluate := proc_evaluate;
     proc_stepbound := proc_stepbound; proc_progress := proc_progress |}.

(** The world at the call: the client's user data, nothing called yet. *)
Definition world_at_call (instance : I) : world :=
  {| instance := instance; calls := [] |}.

Definition lbfgs_optimize (fuel : nat) (n : Z) (x : list float)
    (ptr_fx : option float) (proc_evaluate : lbfgs_evaluate_t)
    (proc_stepbound : option lbfgs_stepbound_t)
    (proc_progress : option lbfgs_progress_t) (instance : I)
    (_param : option lbfgs_parameter_t) : option lbfgs_result :=
  let param := param_or_default _param in
  let m := mem_size param in
  let cd := make_callback_data n proc_evaluate proc_stepbound proc_progress in
  let w0 := world_at_call instance in
  match check_parameters n param with
  | Some err =>
      Some {| ret := err; x_out := x; fx_out := ptr_fx; w_out := w0 |}
  | None =>
      match lbfgs_main fuel n m param cd x w0 with
      | None => None
      | Some (r, st) =>
          Some {| ret := r; x_out := st_x st;
                  fx_out := match ptr_fx with
                            | Some _ => Some (st_fx st)
                            | None => None
                            end;
                  w_out := st_w st |}
      end
  end.

(** ** Vocabulary of the statements *)

(** The step of trial number [i] (counting from 0) of a search entered with
    step [stp]: [stp] contracted [i] times by [dec]. *)
Fixpoint trial_step (stp : float) (i : nat) : float :=
  match i with
  | O => stp
  | S i' => trial_step (stp * dec)%float i'
  end.

(** The sufficient-decrease test as the search evaluates it: the negation
    of [*f > finit + *stp * dgtest] with [dgtest = f_dec_coeff * dginit]. *)
Definition sufficient_decrease (param : lbfgs_parameter_t)
    (finit dginit stp f : float) : bool :=
  negb (finit + stp * (f_dec_coeff param * dginit) <? f)%float.

(** Neither [stp < stpmin] nor [stp > stpmax]. *)
Definition within_bounds (stpmin stpmax stp : float) : bool :=
  negb (stp <? stpmin)%float && negb (stpmax <? stp)%float.

(** The state after [j] passes through the loop body that all went back to
    the loop test. *)
Fixpoint lbfgs_passes (j : nat) (n m : Z) (param : lbfgs_parameter_t)
    (cd : callback_data_t) (st : lbfgs_state) : option lbfgs_state :=
  match j with
  | O => Some st
  | S j' =>
      match lbfgs_iteration n m param cd st with
      | Some (Continue st1) => lbfgs_passes j' n m param cd st1
      | _ => None
      end
  end.

(** The run of [lbfgs_optimize] on these arguments passes the parameter
    checks, does not stop at the initial point, and enters pass number
    [j + 1] through its loop in state [st]. *)
Definition lbfgs_reaches (j : nat) (n : Z) (param : lbfgs_parameter_t)
    (cd : callback_data_t) (x : list float) (w : world)
    (st : lbfgs_state) : Prop :=
  check_parameters n param = None
  /\ (let st0 := lbfgs_start n (mem_size param) param cd x w in
      gradient_test param (vec2norm (st_x st0) n) (vec2norm (st_g st0) n)
      = false
      /\ lbfgs_passes j n (mem_size param) param cd st0 = Some st).

(** The sizes of the buffers: [n] cells for the vectors, [m] slots of two
    [n]-vectors for the limited memory, [past] cells for the past values,
    which exist exactly when [0 < past]; and the ranges of the counters. *)
Definition slot_sized (n : Z) (it : iteration_data_t) : Prop :=
  length (it_s it) = Z.to_nat n /\ length (it_y it) = Z.to_nat n.

Definition state_sized (n m : Z) (param : lbfgs_parameter_t)
    (st : lbfgs_state) : Prop :=
  length (st_x st) = Z.to_nat n
  /\ length (st_xp st) = Z.to_nat n
  /\ length (st_g st) = Z.to_nat n
  /\ length (st_gp st) = Z.to_nat n
  /\ length (st_d st) = Z.to_nat n
  /\ length (st_lm st) = Z.to_nat m
  /\ Forall (slot_sized n) (st_lm st)
  /\ 0 <= st_end st < m
  /\ 1 <= st_k st
  /\ match st_pf st with
     | Some buf => 0 < past param /\ length buf = Z.to_nat (past param)
     | None => past param <= 0
     end.

End WithInstance.

Arguments callback_data_t : clear implicits.
Arguments world : clear implicits.
Arguments ls_result : clear implicits.
Arguments lbfgs_state : clear implicits.
Arguments outcome : clear implicits.
Arguments lbfgs_result : clear implicits.

(** Vectors as the statements speak of them: operations on whole lists.
    [dot] sums the products from left to right. *)
Definition dot (x y : list float) : float :=
  fold_left (fun acc p => (acc + fst p * snd p)%float) (combine x y) 0%float.

Definition vsub (x y : list float) : list float :=
  zip_with (fun a b => (a - b)%float) x y.

Definition vneg (x : list float) : list float :=
  map (fun a => (- a)%float) x.

Definition vscale (c : float) (x : list float) : list float :=
  map (fun a => (a * c)%float) x.

(** [d + c * v] and [d - c * v]. *)
Definition vplus_scaled (d : list float) (c : float) (v : list float)
  : list float :=
  zip_with (fun a b => (a + c * b)%float) d v.

Definition vminus_scaled (d : list float) (c : float) (v : list float)
  : list float :=
  zip_with (fun a b => (a - c * b)%float) d v.

(** A correction pair: [s], [y] and [ys = y . s]. *)
Record correction_pair := {
  cp_s : list float;
  cp_y : list float;
  cp_ys : float
}.

Definition pair_in_slot (it : iteration_data_t) : correction_pair :=
  {| cp_s := it_s it; cp_y := it_y it; cp_ys := it_ys it |}.

(** The [bound] most recent pairs of a memory of [m] slots whose next slot
    to be written is [end_], most recent first: the most recent one is in
    the slot before [end_], cyclically, and so on backwards. *)
Fixpoint recent_pairs (lm : list iteration_data_t) (m end_ : Z)
    (bound : nat) : list correction_pair :=
  match bound with
  | O => []
  | S b =>
      let j := (end_ - 1) mod m in
      pair_in_slot (lm !!! Z.to_nat j) :: recent_pairs lm m j b
  end.

(** First pass of the two-loop recursion, from the most recent pair to the
    oldest: [alpha_j = (s_j . d) / ys_j], then [d -= alpha_j * y_j].
    Returns the [alpha]s, in the order of the pairs, and [d]. *)
Fixpoint first_pass (hist : list correction_pair) (d : list float)
  : list float * list float :=
  match hist with
  | [] => ([], d)
  | h :: rest =>
      let alpha := (dot (cp_s h) d / cp_ys h)%float in
      let '(alphas, q) := first_pass rest (vminus_scaled d alpha (cp_y h)) in
      (alpha :: alphas, q)
  end.

(** Second pass, from the oldest pair to the most recent (the list still
    has the most recent first, so the older pairs are done before its
    head): [beta_j = (y_j . d) / ys_j], then [d += (alpha_j - beta_j) * s_j]. *)
Fixpoint second_pass (hist : list correction_pair) (alphas : list float)
    (d : list float) : list float :=
  match hist, alphas with
  | h :: rest, alpha :: alphas' =>
      let d1 := second_pass rest alphas' d in
      let beta := (dot (cp_y h) d1 / cp_ys h)%float in
      vplus_scaled d1 (alpha - beta)%float (cp_s h)
  | _, _ => d
  end.

(** The direction of the two-loop recursion for gradient [g]: start from
    [- g], first pass, scaling by [ys / yy] of the most recent pair, second
    pass. *)
Definition two_loop_direction (hist : list correction_pair)
    (g : list float) : list float :=
  let '(alphas, q) := first_pass hist (vneg g) in
  let scaled := match hist with
                | h :: _ => vscale (cp_ys h / dot (cp_y h) (cp_y h))%float q
                | [] => q
                end in
  second_pass hist alphas scaled.

(** The domains of the arguments, in the order in which they are checked:
    for each, whether the value lies in it, and the status that reports a
    value outside.  The tests on the [double] fields are those of the code,
    so a NaN is in every such domain; the sufficient-decrease coefficient
    may be zero, and its relation to the curvature coefficient belongs to
    the domain of the latter. *)
Definition parameter_domains (n : Z) (p : lbfgs_parameter_t)
  : list (bool * Z) :=
  [ (0 <? n, LBFGSERR_INVALID_N);
    (0 <? mem_size p, LBFGSERR_INVALID_MEMSIZE);
    (negb (g_epsilon p <? 0)%float, LBFGSERR_INVALID_GEPSILON);
    (0 <=? past p, LBFGSERR_INVALID_TESTPERIOD);
    (negb (delta p <? 0)%float, LBFGSERR_INVALID_DELTA);
    (negb (min_step p <? 0)%float, LBFGSERR_INVALID_MINSTEP);
    (negb (max_step p <? min_step p)%float, LBFGSERR_INVALID_MAXSTEP);
    (negb (f_dec_coeff p <? 0)%float, LBFGSERR_INVALID_FDECCOEFF);
    (negb (s_curv_coeff p <=? f_dec_coeff p)%float
     && negb (1 <=? s_curv_coeff p)%float, LBFGSERR_INVALID_SCURVCOEFF);
    (negb (xtol p <? 0)%float, LBFGSERR_INVALID_XTOL);
    (0 <? max_linesearch p, LBFGSERR_INVALID_MAXLINESEARCH) ].

(** The status of the first domain that is violated, if any. *)
Fixpoint first_violation (doms : list (bool * Z)) : option Z :=
  match doms with
  | [] => None
  | (ok, status) :: rest => if ok then first_violation rest else Some status
  end.

(** The last call in the log is a progress report answered with [a]. *)
Definition reported (log : list event) (a : Z) : Prop :=
  exists x g fx xnorm gnorm step n k ls,
    last log = Some (EvProgress x g fx xnorm gnorm step n k ls a).

Definition with_mem_size (p : lbfgs_parameter_t) (v : Z)
  : lbfgs_parameter_t :=
  {| mem_size := v; g_epsilon := g_epsilon p; past := past p;
     delta := delta p; max_iterations := max_iterations p;
     max_linesearch := max_linesearch p; min_step := min_step p;
     max_step := max_step p; f_dec_coeff := f_dec_coeff p;
     s_curv_coeff := s_curv_coeff p; xtol := xtol p |}.

(** Parameters that differ from [p] in one field. *)
Definition with_max_iterations (p : lbfgs_parameter_t) (v : Z)
  : lbfgs_parameter_t :=
  {| mem_size := mem_size p; g_epsilon := g_epsilon p; past := past p;
     delta := delta p; max_iterations := v;
     max_linesearch := max_linesearch p; min_step := min_step p;
     max_step := max_step p; f_dec_coeff := f_dec_coeff p;
     s_curv_coeff := s_curv_coeff p; xtol := xtol p |}.

Definition with_max_linesearch (p : lbfgs_parameter_t) (v : Z)
  : lbfgs_parameter_t :=
  {| mem_size := mem_size p; g_epsilon := g_epsilon p; past := past p;
     delta := delta p; max_iterations := max_iterations p;
     max_linesearch := v; min_step := min_step p;
     max_step := max_step p; f_dec_coeff := f_dec_coeff p;
     s_curv_coeff := s_curv_coeff p; xtol := xtol p |}.

Definition with_f_dec_coeff (p : lbfgs_parameter_t) (v : float)
  : lbfgs_parameter_t :=
  {| mem_size := mem_size p; g_epsilon := g_epsilon p; past := past p;
     delta := delta p; max_iterations := max_iterations p;
     max_linesearch := max_linesearch p; min_step := min_step p;
     max_step := max_step p; f_dec_coeff := v;
     s_curv_coeff := s_curv_coeff p; xtol := xtol p |}.

Definition with_past (p : lbfgs_parameter_t) (v : Z) (d : float)
  : lbfgs_parameter_t :=
  {| mem_size := mem_size p; g_epsilon := g_epsilon p; past := v;
     delta := d; max_iterations := max_iterations p;
     max_linesearch := max_linesearch p; min_step := min_step p;
     max_step := max_step p; f_dec_coeff := f_dec_coeff p;
     s_curv_coeff := s_curv_coeff p; xtol := xtol p |}.

Definition with_max_step (p : lbfgs_parameter_t) (v : float)
  : lbfgs_parameter_t :=
  {| mem_size := mem_size p; g_epsilon := g_epsilon p; past := past p;
     delta := delta p; max_iterations := max_iterations p;
     max_linesearch := max_linesearch p; min_step := min_step p;
     max_step := v; f_dec_coeff := f_dec_coeff p;
     s_curv_coeff := s_curv_coeff p; xtol := xtol p |}.

(** Parameters that differ from [p] in the curvature coefficient and in
    [xtol]. *)
Definition with_curvature (p : lbfgs_parameter_t) (c t : float)
  : lbfgs_parameter_t :=
  {| mem_size := mem_size p; g_epsilon := g_epsilon p; past := past p;
     delta := delta p; max_iterations := max_iterations p;
     max_linesearch := max_linesearch p; min_step := min_step p;
     max_step := max_step p; f_dec_coeff := f_dec_coeff p;
     s_curv_coeff := c; xtol := t |}.

(** ** Status descriptions *)

(** The values of the enum: [0 .. 2] and [-1024 .. -1001]. *)
Definition known_status (err : Z) : bool :=
  (0 <=? err) && (err <=? 2) || (-1024 <=? err) && (err <=? -1001).

(** [lbfgs_strerror]: the [switch] over the enum, with its [default]. *)
Definition lbfgs_strerror (err : Z) : string :=
  if err =? LBFGS_CONVERGENCE then
    "Success: reached convergence (g_epsilon)."
  else if err =? LBFGS_STOP then
    "Success: met stopping criteria (past f decrease less than delta)."
  else if err =? LBFGS_ALREADY_MINIMIZED then
    "The initial variables already minimize the objective function."
  else if err =? LBFGSERR_UNKNOWNERROR then "Unknown error."
  else if err =? LBFGSERR_LOGICERROR then "Logic error."
  else if err =? LBFGSERR_CANCELED then
    "The minimization process has been canceled."
  else if err =? LBFGSERR_INVALID_N then
    "Invalid number of variables specified."
  else if err =? LBFGSERR_INVALID_MEMSIZE then
    "Invalid parameter lbfgs_parameter_t::mem_size specified."
  else if err =? LBFGSERR_INVALID_GEPSILON then
    "Invalid parameter lbfgs_parameter_t::g_epsilon specified."
  else if err =? LBFGSERR_INVALID_TESTPERIOD then
    "Invalid parameter lbfgs_parameter_t::past specified."
  else if err =? LBFGSERR_INVALID_DELTA then
    "Invalid parameter lbfgs_parameter_t::delta specified."
  else if err =? LBFGSERR_INVALID_MINSTEP then
    "Invalid parameter lbfgs_parameter_t::min_step specified."
  else if err =? LBFGSERR_INVALID_MAXSTEP then
    "Invalid parameter lbfgs_parameter_t::max_step specified."
  else if err =? LBFGSERR_INVALID_FDECCOEFF then
    "Invalid parameter lbfgs_parameter_t::f_dec_coeff specified."
  else if err =? LBFGSERR_INVALID_SCURVCOEFF then
    "Invalid parameter lbfgs_parameter_t::s_curv_coeff specified."
  else if err =? LBFGSERR_INVALID_XTOL then
    "Invalid parameter lbfgs_parameter_t::xtol specified."
  else if err =? LBFGSERR_INVALID_MAXLINESEARCH then
    "Invalid parameter lbfgs_parameter_t::max_linesearch specified."
  else if err =? LBFGSERR_OUTOFINTERVAL then
    "The line-search step went out of the interval of uncertainty."
  else if err =? LBFGSERR_INCORRECT_TMINMAX then
    "A logic error occurred; alternatively, the interval of uncertainty became too small."
  else if err =? LBFGSERR_ROUNDING_ERROR then
    "A rounding error occurred; alternatively, no line-search step satisfies the sufficient decrease and curvature conditions."
  else if err =? LBFGSERR_MINIMUMSTEP then
    "The line-search step became smaller than lbfgs_parameter_t::min_step."
  else if err =? LBFGSERR_MAXIMUMSTEP then
    "The line-search step became larger than lbfgs_parameter_t::max_step."
  else if err =? LBFGSERR_MAXIMUMLINESEARCH then
    "The line-search routine reaches the maximum number of evaluations."
  else if err =? LBFGSERR_MAXIMUMITERATION then
    "The algorithm routine reaches the maximum number of iterations."
  else if err =? LBFGSERR_WIDTHTOOSMALL then
    "Relative width of the interval of uncertainty is at most lbfgs_parameter_t::xtol."
  else if err =? LBFGSERR_INVALIDPARAMETERS then
    "A logic error (negative line-search step) occurred."
  else if err =? LBFGSERR_INCREASEGRADIENT then
    "The current search direction increases the objective function value."
  else "(unknown)".

(** [lbfgs_load_default_parameters]: [memcpy] of the defaults over the
    caller's structure. *)
Definition lbfgs_load_default_parameters (param : lbfgs_parameter_t)
  : lbfgs_parameter_t :=
  _default_param.

(** ** Vocabulary of the further properties *)

Definition is_stepbound (e : event) : bool :=
  match e with EvStepbound _ _ _ => true | _ => false end.

(** Number of calls of the step-bound provider recorded in a log. *)
Definition stepbound_calls (log : list event) : Z :=
  Z.of_nat (length (List.filter is_stepbound log)).

(** The sum of the [ls] arguments of the progress reports in a log: the
    numbers of trials the reported searches made. *)
Definition reported_trials (log : list event) : Z :=
  fold_right (fun e acc => match e with
                           | EvProgress _ _ _ _ _ _ _ _ ls _ => ls + acc
                           | _ => acc
                           end) 0 log.

(** Every evaluation but the initial one is counted in a progress report. *)
Definition accounted {I : Type} (w : world I) : Prop :=
  evaluations (calls w) = 1 + reported_trials (calls w).

(** The evaluator computes the objective [F] and its gradient [G], an
    [n]-vector, as functions of [x] alone, and leaves the user data as it
    is. *)
Definition evaluates {I : Type} (ev : @lbfgs_evaluate_t I) (n : Z)
    (F : list float -> float) (G : list float -> list float) : Prop :=
  forall i x g,
    length x = Z.to_nat n ->
    ev i x g n = (i, F x, G x) /\ length (G x) = Z.to_nat n.

(** [fx] and [g] are the objective value and the gradient at [x]. *)
Definition state_consistent {I : Type} (F : list float -> float)
    (G : list float -> list float) (st : lbfgs_state I) : Prop :=
  st_fx st = F (st_x st) /\ st_g st = G (st_x st).

(** The correction pair of a pass that takes state [st] to [st']:
    [s = x' - x], [y = g' - g], [ys = y . s]. *)
Definition step_pair {I : Type} (st st' : lbfgs_state I) : correction_pair :=
  let s := vsub (st_x st') (st_x st) in
  let y := vsub (st_g st') (st_g st) in
  {| cp_s := s; cp_y := y; cp_ys := dot y s |}.

(** The correction pairs of the first [j] passes from [st0], most recent
    first. *)
Fixpoint pass_pairs {I : Type} (j : nat) (n m : Z)
    (param : lbfgs_parameter_t) (cd : callback_data_t I)
    (st0 : lbfgs_state I) : list correction_pair :=
  match j with
  | O => []
  | S j' =>
      match lbfgs_passes j' n m param cd st0,
            lbfgs_passes (S j') n m param cd st0 with
      | Some st, Some st' => step_pair st st' :: pass_pairs j' n m param cd st0
      | _, _ => []
      end
  end.

(** The statuses that [lbfgs_optimize] and the line search assign
    themselves. *)
Definition own_status (r : Z) : bool :=
  is_invalid_status r
  || (r =? LBFGS_CONVERGENCE) || (r =? LBFGS_STOP)
  || (r =? LBFGS_ALREADY_MINIMIZED) || (r =? LBFGSERR_MAXIMUMITERATION)
  || (r =? LBFGSERR_INVALIDPARAMETERS) || (r =? LBFGSERR_INCREASEGRADIENT)
  || (r =? LBFGSERR_MINIMUMSTEP) || (r =? LBFGSERR_MAXIMUMSTEP)
  || (r =? LBFGSERR_MAXIMUMLINESEARCH).

(** The search failed after evaluating a trial point. *)
Definition failed_trial_status (r : Z) : bool :=
  (r =? LBFGSERR_MINIMUMSTEP) || (r =? LBFGSERR_MAXIMUMSTEP)
  || (r =? LBFGSERR_MAXIMUMLINESEARCH).

(** ** Sample clients

    One-variable objectives with no user data, used to run the code on
    concrete inputs. *)

Definition sample_world : world unit := world_at_call tt.

(** [f(x) = x * x]. *)
Definition eval_square : @lbfgs_evaluate_t unit := fun i x g _ =>
  match x with
  | a :: _ => (i, (a * a)%float, [(2 * a)%float])
  | [] => (i, 0%float, g)
  end.

(** [f(x) = - x * x]. *)
Definition eval_neg_square : @lbfgs_evaluate_t unit := fun i x g _ =>
  match x with
  | a :: _ => (i, (- (a * a))%float, [(- (2 * a))%float])
  | [] => (i, 0%float, g)
  end.

(** [f(x) = x]. *)
Definition eval_linear : @lbfgs_evaluate_t unit := fun i x g _ =>
  match x with
  | a :: _ => (i, a, [1%float])
  | [] => (i, 0%float, g)
  end.

(** [f(x) = 0]. *)
Definition eval_flat : @lbfgs_evaluate_t unit := fun i x g _ =>
  (i, 0%float, [0%float]).

Definition sample_cd (ev : @lbfgs_evaluate_t unit) : callback_data_t unit :=
  make_callback_data 1 ev None None.

(** [f(x) = x . x] in any number of variables. *)
Definition eval_sum_squares : @lbfgs_evaluate_t unit := fun i x _ _ =>
  (i, dot x x, map (fun a => (2 * a)%float) x).

(** [f(x) = sum of x_i ^ 4]. *)
Definition eval_quartic : @lbfgs_evaluate_t unit := fun i x _ _ =>
  let sq := map (fun a => (a * a)%float) x in
  (i, dot sq sq, map (fun a => (4 * (a * a * a))%float) x).

(** A step-bound provider that always answers [0.125]. *)
Definition bound_eighth : @lbfgs_stepbound_t unit := fun i _ _ _ =>
  (i, 0.125%float).

(** A progress callback that always answers [0]. *)
Definition keep_going : @lbfgs_progress_t unit :=
  fun i _ _ _ _ _ _ _ _ _ => (i, 0).

(** A progress callback that answers [1] in pass 2 and [0] before. *)
Definition stop_at_two : @lbfgs_progress_t unit :=
  fun i _ _ _ _ _ _ _ k _ => (i, if k =? 2 then 1 else 0).

(** * Properties *)

(** ** Vector primitives *)

Lemma vec_loop2_length f y x n : length (vec_loop2 f y x n) = length y.
Proof.
  revert y x; induction n as [|n IH]; intros [|yi y] [|xi x]; simpl; auto.
Qed.

Lemma veccpy_length y x n : length (veccpy y x n) = length y.
Proof. apply vec_loop2_length. Qed.

Lemma vecncpy_length y x n : length (vecncpy y x n) = length y.
Proof. apply vec_loop2_length. Qed.

Lemma vecadd_length y x c n : length (vecadd y x c n) = length y.
Proof. apply vec_loop2_length. Qed.

Lemma vecdiff_length z x y n : length (vecdiff z x y n) = length z.
Proof.
  unfold vecdiff; generalize (Z.to_nat n) as k; intros k.
  revert z x y; induction k as [|k IH]; intros [|zi z] [|xi x] [|yi y];
    simpl; auto.
Qed.

Lemma vecscale_length y c n : length (vecscale y c n) = length y.
Proof.
  unfold vecscale; generalize (Z.to_nat n) as k; intros k.
  revert y; induction k as [|k IH]; intros [|yi y]; simpl; auto.
Qed.

Lemma vecalloc_length n : length (vecalloc n) = Z.to_nat n.
Proof. apply length_replicate. Qed.

(** [memcpy] of a whole buffer onto one of the same size. *)
Lemma veccpy_whole y x n :
  length y = Z.to_nat n -> length x = Z.to_nat n -> veccpy y x n = x.
Proof.
  unfold veccpy; generalize (Z.to_nat n) as k; intros k.
  revert y x; induction k as [|k IH]; intros [|yi y] [|xi x]; simpl;
    intros Hy Hx; try discriminate; auto.
  f_equal; apply IH; congruence.
Qed.

(** ** The log *)

Lemma evaluations_app l1 l2 :
  evaluations (l1 ++ l2) = evaluations l1 + evaluations l2.
Proof.
  unfold evaluations. rewrite List.filter_app, length_app. lia.
Qed.

Lemma progress_reports_app l1 l2 :
  progress_reports (l1 ++ l2) = progress_reports l1 + progress_reports l2.
Proof.
  unfold progress_reports. rewrite List.filter_app, length_app. lia.
Qed.

Lemma evaluations_all l :
  List.forallb is_evaluate l = true -> evaluations l = Z.of_nat (length l).
Proof.
  unfold evaluations; induction l as [|e l IH]; simpl; auto.
  intros H; apply andb_prop in H as [He Hl]. rewrite He; simpl.
  specialize (IH Hl). lia.
Qed.

Lemma progress_reports_evaluate l :
  List.forallb is_evaluate l = true -> progress_reports l = 0.
Proof.
  unfold progress_reports; induction l as [|e l IH]; simpl; auto.
  intros H; apply andb_prop in H as [He Hl].
  destruct e; simpl in *; try discriminate; auto.
Qed.

(** ** The backtracking line search *)

Section LineSearch.

Context {I : Type}.
Variables (n : Z) (s xp : list float) (stpmin stpmax finit dgtest : float).
Variables (cd : callback_data_t I) (param : lbfgs_parameter_t).

Lemma call_evaluate_log (w : world I) x g w1 f1 g1 :
  call_evaluate cd w x g = (w1, f1, g1) ->
  calls w1 = calls w ++ [EvEvaluate x f1 g1] /\ length g1 = length g.
Proof.
  unfold call_evaluate.
  destruct (proc_evaluate cd (instance w) x g (cd_n cd)) as [[i1 fx] gout].
  intros H; inversion H; subst; simpl. split; auto using veccpy_length.
Qed.

(** The search leaves the sizes of the buffers [x] and [g] alone. *)
Lemma ls_trials_lengths fuel : forall count x g stp (w : world I) r,
  ls_trials fuel n s xp stpmin stpmax finit dgtest cd param count x g stp w
    = Some r ->
  length (ls_x r) = length x /\ length (ls_g r) = length g.
Proof.
  induction fuel as [|fuel IH]; intros count x g stp w r; simpl;
    [discriminate|].
  destruct (call_evaluate cd w _ g) as [[w1 f1] g1] eqn:E.
  apply call_evaluate_log in E as [_ Hg].
  assert (Hx : length (vecadd (veccpy x xp n) s stp n) = length x)
    by (rewrite vecadd_length; apply veccpy_length).
  destruct (finit + stp * dgtest <? f1)%float;
    [|intros H; inversion H; subst; simpl; auto].
  destruct (stp <? stpmin)%float;
    [intros H; inversion H; subst; simpl; auto|].
  destruct (stpmax <? stp)%float;
    [intros H; inversion H; subst; simpl; auto|].
  destruct (max_linesearch param <=? count + 1);
    [intros H; inversion H; subst; simpl; auto|].
  intros H; apply IH in H as [H1 H2]; split; congruence.
Qed.

(** The trials of one search, from trial number [count] on: the loop ends
    within the trial budget, and its result, its steps and the calls it
    makes are those of successive contractions of the entry step. *)
Lemma ls_trials_spec fuel : forall count x g stp (w : world I),
  length x = Z.to_nat n -> length xp = Z.to_nat n ->
  (Z.to_nat (Z.max 1 (max_linesearch param - count)) <= fuel)%nat ->
  exists r evs,
    ls_trials fuel n s xp stpmin stpmax finit dgtest cd param count x g stp w
      = Some r
    /\ calls (ls_w r) = calls w ++ evs
    /\ (1 <= length evs)%nat
    /\ count + Z.of_nat (length evs) <= Z.max (count + 1) (max_linesearch param)
    /\ ls_stp r = trial_step stp (length evs - 1)
    /\ ls_x r = vecadd xp s (ls_stp r) n
    /\ last evs = Some (EvEvaluate (ls_x r) (ls_f r) (ls_g r))
    /\ (forall i e, evs !! i = Some e -> exists fi gi,
          e = EvEvaluate (vecadd xp s (trial_step stp i) n) fi gi
          /\ ((i < length evs - 1)%nat ->
              (finit + trial_step stp i * dgtest <? fi)%float = true
              /\ within_bounds stpmin stpmax (trial_step stp i) = true))
    /\ ((ls_ret r = count + Z.of_nat (length evs)
         /\ (finit + ls_stp r * dgtest <? ls_f r)%float = false)
        \/ ((finit + ls_stp r * dgtest <? ls_f r)%float = true
            /\ ((ls_ret r = LBFGSERR_MINIMUMSTEP
                 /\ (ls_stp r <? stpmin)%float = true)
                \/ (ls_ret r = LBFGSERR_MAXIMUMSTEP
                    /\ (ls_stp r <? stpmin)%float = false
                    /\ (stpmax <? ls_stp r)%float = true)
                \/ (ls_ret r = LBFGSERR_MAXIMUMLINESEARCH
                    /\ within_bounds stpmin stpmax (ls_stp r) = true
                    /\ max_linesearch param
                       <= count + Z.of_nat (length evs))))).
Proof.
  induction fuel as [|fuel IH]; intros count x g stp w Hx Hxp Hfuel; [lia|].
  simpl. rewrite (veccpy_whole x xp n Hx Hxp).
  destruct (call_evaluate cd w (vecadd xp s stp n) g) as [[w1 f1] g1] eqn:E.
  apply call_evaluate_log in E as [Hlog _].
  assert (Hone : forall i e,
    [EvEvaluate (vecadd xp s stp n) f1 g1] !! i = Some e ->
    exists fi gi, e = EvEvaluate (vecadd xp s (trial_step stp i) n) fi gi
      /\ ((i < 1 - 1)%nat ->
          (finit + trial_step stp i * dgtest <? fi)%float = true
          /\ within_bounds stpmin stpmax (trial_step stp i) = true)).
  { intros [|i] e He; simpl in He; [|destruct i; discriminate].
    inversion He; subst. exists f1, g1; split; [reflexivity|lia]. }
  destruct (finit + stp * dgtest <? f1)%float eqn:Htest.
  2:{ eexists; exists [EvEvaluate (vecadd xp s stp n) f1 g1]; simpl.
      repeat split; auto; try lia. }
  destruct (stp <? stpmin)%float eqn:Hmin.
  { eexists; exists [EvEvaluate (vecadd xp s stp n) f1 g1]; simpl.
    repeat split; auto; try lia; try (right; split; auto; fail). }
  destruct (stpmax <? stp)%float eqn:Hmax.
  { eexists; exists [EvEvaluate (vecadd xp s stp n) f1 g1]; simpl.
    repeat split; auto; try lia; try (right; split; auto; fail). }
  destruct (max_linesearch param <=? count + 1) eqn:Hcount.
  { apply Z.leb_le in Hcount.
    eexists; exists [EvEvaluate (vecadd xp s stp n) f1 g1]; simpl.
    assert (within_bounds stpmin stpmax stp = true)
      by (unfold within_bounds; rewrite Hmin, Hmax; reflexivity).
    repeat split; auto; try lia;
      try (right; split; auto; right; right; repeat split; auto; lia). }
  apply Z.leb_gt in Hcount.
  destruct (IH (count + 1) (vecadd xp s stp n) g1 (stp * dec)%float w1)
    as (r & evs & Hrun & Hcalls & Hlen & Hbudget & Hstp & Hrx & Hlast
        & Hevs & Hend); auto; try lia.
  { rewrite vecadd_length; exact Hxp. }
  exists r, (EvEvaluate (vecadd xp s stp n) f1 g1 :: evs).
  split; [exact Hrun|].
  split; [rewrite Hcalls, Hlog, <- app_assoc; reflexivity|].
  assert (Hsub : (length (EvEvaluate (vecadd xp s stp n) f1 g1 :: evs) - 1
                  = S (length evs - 1))%nat) by (simpl; lia).
  rewrite Hsub. simpl length.
  split; [lia|]. split; [lia|].
  split; [exact Hstp|]. split; [exact Hrx|].
  split; [destruct evs; [simpl in Hlen; lia | exact Hlast]|].
  split.
  - intros [|i] e He; simpl in He.
    + inversion He; subst. exists f1, g1; split; [reflexivity|].
      intros _; simpl; split; [exact Htest|].
      unfold within_bounds; rewrite Hmin, Hmax; reflexivity.
    + destruct (Hevs i e He) as (fi & gi & -> & Hrej).
      exists fi, gi; split; [reflexivity|]. intros Hi; apply Hrej; lia.
  - replace (count + Z.of_nat (S (length evs)))
      with (count + 1 + Z.of_nat (length evs)) by lia.
    exact Hend.
Qed.

End LineSearch.

Lemma line_search_lengths {I : Type} n x f g stp s xp gp stpmin stpmax
    (cd : callback_data_t I) param (w : world I) r :
  line_search_backtracking n x f g stp s xp gp stpmin stpmax cd param w
    = Some r ->
  length (ls_x r) = length x /\ length (ls_g r) = length g.
Proof.
  unfold line_search_backtracking.
  destruct (stp <=? 0)%float; [intros H; inversion H; auto|].
  destruct (0 <? vecdot gp s n)%float; [intros H; inversion H; auto|].
  apply ls_trials_lengths.
Qed.

Lemma forallb_lookup {A} (P : A -> bool) (l : list A) :
  (forall i e, l !! i = Some e -> P e = true) -> List.forallb P l = true.
Proof.
  induction l as [|a l IH]; simpl; intros H; [reflexivity|].
  rewrite (H 0%nat a eq_refl); simpl.
  apply IH; intros i e He; exact (H (S i) e He).
Qed.

(** C2, as amended: a search entered with a step [<= 0] returns
    [LBFGSERR_INVALIDPARAMETERS], and otherwise one entered with an initial
    directional derivative [gp . s] that is strictly positive returns
    [LBFGSERR_INCREASEGRADIENT]; in both cases nothing is written and no
    callback is called (the world is returned as it was).  In every other
    case, a zero derivative included, the evaluator is called. *)
Theorem C2_entry_checks {I : Type} n x f g stp s xp gp stpmin stpmax
    (cd : callback_data_t I) param (w : world I) :
  ((stp <=? 0)%float = true ->
   line_search_backtracking n x f g stp s xp gp stpmin stpmax cd param w
   = Some {| ls_ret := LBFGSERR_INVALIDPARAMETERS; ls_x := x; ls_f := f;
             ls_g := g; ls_stp := stp; ls_w := w |})
  /\ ((stp <=? 0)%float = false -> (0 <? vecdot gp s n)%float = true ->
      line_search_backtracking n x f g stp s xp gp stpmin stpmax cd param w
      = Some {| ls_ret := LBFGSERR_INCREASEGRADIENT; ls_x := x; ls_f := f;
                ls_g := g; ls_stp := stp; ls_w := w |})
  /\ ((stp <=? 0)%float = false -> (0 <? vecdot gp s n)%float = false ->
      length x = Z.to_nat n -> length xp = Z.to_nat n ->
      exists r,
        line_search_backtracking n x f g stp s xp gp stpmin stpmax cd param w
        = Some r
        /\ evaluations (calls (ls_w r)) >= evaluations (calls w) + 1).
Proof.
  unfold line_search_backtracking.
  split; [intros ->; reflexivity|].
  split; [intros -> ->; reflexivity|].
  intros -> -> Hx Hxp.
  destruct (ls_trials_spec n s xp stpmin stpmax f
              (f_dec_coeff param * vecdot gp s n)%float cd param
              (Z.to_nat (Z.max 1 (max_linesearch param))) 0 x g stp w)
    as (r & evs & Hrun & Hcalls & Hlen & _ & _ & _ & _ & Hevs & _);
    auto; [rewrite Z.sub_0_r; lia|].
  exists r; split; [exact Hrun|].
  rewrite Hcalls, evaluations_app, (evaluations_all evs); [lia|].
  apply forallb_lookup; intros i e He.
  destruct (Hevs i e He) as (fi & gi & -> & _); reflexivity.
Qed.

Lemma C2_entry_checks_witness :
  line_search_backtracking 1 [0%float] 0 [0%float] (-1) [1%float] [0%float]
    [1%float] 0 1 (sample_cd eval_flat) _default_param sample_world
  = Some {| ls_ret := LBFGSERR_INVALIDPARAMETERS; ls_x := [0%float];
            ls_f := 0; ls_g := [0%float]; ls_stp := (-1)%float;
            ls_w := sample_world |}
  /\ line_search_backtracking 1 [0%float] 0 [0%float] 1 [1%float] [0%float]
       [1%float] 0 1 (sample_cd eval_flat) _default_param sample_world
     = Some {| ls_ret := LBFGSERR_INCREASEGRADIENT; ls_x := [0%float];
               ls_f := 0; ls_g := [0%float]; ls_stp := 1%float;
               ls_w := sample_world |}.
Proof.
  split.
  - apply (proj1 (C2_entry_checks 1 [0%float] 0%float [0%float] (-1)%float
                    [1%float] [0%float] [1%float] 0%float 1%float
                    (sample_cd eval_flat) _default_param sample_world)).
    reflexivity.
  - apply (proj1 (proj2 (C2_entry_checks 1 [0%float] 0%float [0%float]
                    1%float [1%float] [0%float] [1%float] 0%float 1%float
                    (sample_cd eval_flat) _default_param sample_world)));
      reflexivity.
Defined.

(** C2 as stated fails where [gp . d = 0]: with [gp = [0]], [d = [1]] and
    entry step 1 the derivative is [>= 0], yet the search does not return
    [LBFGSERR_INCREASEGRADIENT]: it calls the evaluator and succeeds. *)
Lemma C2_counterexample :
  (1 <=? 0)%float = false
  /\ (0 <=? vecdot [0%float] [1%float] 1)%float = true
  /\ exists r,
       line_search_backtracking 1 [0%float] 0 [0%float] 1 [1%float]
         [0%float] [0%float] 0 1 (sample_cd eval_flat) _default_param
         sample_world = Some r
       /\ ls_ret r <> LBFGSERR_INCREASEGRADIENT
       /\ ls_ret r = 1
       /\ evaluations (calls (ls_w r)) = 1.
Proof.
  split; [reflexivity|]. split; [reflexivity|].
  eexists; split; [vm_compute; reflexivity|].
  simpl; repeat split; discriminate.
Qed.

(** C3, as amended: a search that passes its entry checks ends within
    [max(1, max_linesearch)] trials.  Trial [i] evaluates the objective at
    [xp + trial_step stp i * s], the entry step contracted [i] times by 0.5,
    and nothing else is called.  Every trial but the last was rejected by
    the sufficient-decrease test at a step within [[stpmin, stpmax]].  The
    search leaves in [x], [f], [g] the point, value and gradient of its last
    trial, and either returns the number of trials, the last one satisfying
    sufficient decrease, or returns [LBFGSERR_MINIMUMSTEP],
    [LBFGSERR_MAXIMUMSTEP] or [LBFGSERR_MAXIMUMLINESEARCH], the last trial
    being rejected at a step below [stpmin], above [stpmax], or with the
    trial budget used up.  The bounds are tested on rejected steps only:
    nothing is promised about the accepted step and [[stpmin, stpmax]]. *)
Theorem C3_line_search_trials {I : Type} n x f g stp s xp gp stpmin stpmax
    (cd : callback_data_t I) param (w : world I) :
  length x = Z.to_nat n -> length xp = Z.to_nat n ->
  (stp <=? 0)%float = false -> (0 <? vecdot gp s n)%float = false ->
  exists r evs,
    line_search_backtracking n x f g stp s xp gp stpmin stpmax cd param w
      = Some r
    /\ calls (ls_w r) = calls w ++ evs
    /\ 1 <= Z.of_nat (length evs) <= Z.max 1 (max_linesearch param)
    /\ evaluations (calls (ls_w r))
       = evaluations (calls w) + Z.of_nat (length evs)
    /\ (forall i e, evs !! i = Some e -> exists fi gi,
          e = EvEvaluate (vecadd xp s (trial_step stp i) n) fi gi
          /\ ((i < length evs - 1)%nat ->
              sufficient_decrease param f (vecdot gp s n)
                (trial_step stp i) fi = false
              /\ within_bounds stpmin stpmax (trial_step stp i) = true))
    /\ ls_stp r = trial_step stp (length evs - 1)
    /\ ls_x r = vecadd xp s (ls_stp r) n
    /\ last (calls (ls_w r)) = Some (EvEvaluate (ls_x r) (ls_f r) (ls_g r))
    /\ ((ls_ret r = Z.of_nat (length evs)
         /\ sufficient_decrease param f (vecdot gp s n) (ls_stp r) (ls_f r)
            = true)
        \/ (sufficient_decrease param f (vecdot gp s n) (ls_stp r) (ls_f r)
            = false
            /\ ((ls_ret r = LBFGSERR_MINIMUMSTEP
                 /\ (ls_stp r <? stpmin)%float = true)
                \/ (ls_ret r = LBFGSERR_MAXIMUMSTEP
                    /\ (ls_stp r <? stpmin)%float = false
                    /\ (stpmax <? ls_stp r)%float = true)
                \/ (ls_ret r = LBFGSERR_MAXIMUMLINESEARCH
                    /\ within_bounds stpmin stpmax (ls_stp r) = true
                    /\ max_linesearch param <= Z.of_nat (length evs))))).
Proof.
  intros Hx Hxp Hstp Hdg. unfold line_search_backtracking.
  rewrite Hstp, Hdg.
  destruct (ls_trials_spec n s xp stpmin stpmax f
              (f_dec_coeff param * vecdot gp s n)%float cd param
              (Z.to_nat (Z.max 1 (max_linesearch param))) 0 x g stp w)
    as (r & evs & Hrun & Hcalls & Hlen & Hbudget & Hrstp & Hrx & Hlast
        & Hevs & Hend); auto; [rewrite Z.sub_0_r; lia|].
  exists r, evs. unfold sufficient_decrease.
  split; [exact Hrun|]. split; [exact Hcalls|]. split; [lia|].
  split.
  { rewrite Hcalls, evaluations_app, (evaluations_all evs); [lia|].
    apply forallb_lookup; intros i e He.
    destruct (Hevs i e He) as (fi & gi & -> & _); reflexivity. }
  split.
  { intros i e He. destruct (Hevs i e He) as (fi & gi & -> & Hrej).
    exists fi, gi; split; [reflexivity|]. intros Hi.
    destruct (Hrej Hi) as [-> ->]; split; reflexivity. }
  split; [exact Hrstp|]. split; [exact Hrx|].
  split.
  { rewrite Hcalls. destruct evs as [|e evs]; [simpl in Hlen; lia|].
    rewrite last_app, Hlast; reflexivity. }
  destruct Hend as [[Hret Hacc]|[Hrej Hcode]].
  - left; split; [lia|]. rewrite Hacc; reflexivity.
  - right; split; [rewrite Hrej; reflexivity|].
    destruct Hcode as [?|[?|(? & ? & ?)]]; [auto|auto|].
    right; right; repeat split; auto; lia.
Qed.

(** A search on [f(x) = x * x] from [xp = 3] along [s = -6] with entry step
    1: the first trial overshoots to -3 and is rejected, the second, at
    step 0.5, lands on the minimizer. *)
Lemma C3_line_search_trials_witness :
  exists r evs,
    line_search_backtracking 1 [3%float] 9 [6%float] 1 [(-6)%float]
      [3%float] [6%float] 0 1 (sample_cd eval_square) _default_param
      sample_world = Some r
    /\ calls (ls_w r) = calls sample_world ++ evs
    /\ 1 <= Z.of_nat (length evs) <= Z.max 1 (max_linesearch _default_param)
    /\ ls_x r = vecadd [3%float] [(-6)%float] (ls_stp r) 1.
Proof.
  destruct (C3_line_search_trials 1 [3%float] 9%float [6%float] 1%float
              [(-6)%float] [3%float] [6%float] 0%float 1%float
              (sample_cd eval_square) _default_param sample_world
              eq_refl eq_refl eq_refl eq_refl)
    as (r & evs & H1 & H2 & H3 & _ & _ & _ & H4 & _).
  exists r, evs; auto.
Defined.

(** C3 as stated fails on the accepted step: on [f(x) = x] from [xp = 0]
    along [s = -1], a search entered with step 2 and bounds [[0, 1]]
    succeeds at its first trial and leaves the step at 2, above [stpmax].
    The driver enters the search that way: with [max_step = 0.5] its first
    step guess on this objective is [1 / |d| = 1], which is accepted and
    reported to the progress callback. *)
Lemma C3_counterexample :
  (exists r,
     line_search_backtracking 1 [0%float] 0 [1%float] 2 [(-1)%float]
       [0%float] [1%float] 0 1 (sample_cd eval_linear) _default_param
       sample_world = Some r
     /\ ls_ret r = 1
     /\ ls_x r = [(-2)%float]
     /\ ls_stp r = 2%float
     /\ (1 <? ls_stp r)%float = true
     /\ within_bounds 0 1 (ls_stp r) = false)
  /\ (exists res,
        lbfgs_optimize 1 1 [0%float] None eval_linear None (Some keep_going)
          tt (Some (with_max_iterations
                      (with_max_step _default_param 0.5) 1)) = Some res
        /\ x_out res = [(-1)%float]
        /\ last (calls (w_out res))
           = Some (EvProgress [(-1)%float] [1%float] (-1) 1 1 1 1 1 1 0)
        /\ (0.5 <? 1)%float = true).
Proof.
  split.
  - eexists; split; [vm_compute; reflexivity|].
    simpl; repeat split.
  - eexists; split; [vm_compute; reflexivity|].
    simpl; repeat split.
Qed.

(** ** The driver: sizes of the buffers *)

Section Sizes.

Context {I : Type}.
Variables (n m : Z) (param : lbfgs_parameter_t) (cd : callback_data_t I).
Hypothesis m_pos : 0 < m.

Lemma rem_slot j : 0 <= j -> 0 <= Z.rem j m < m.
Proof. intros Hj; apply Z.rem_bound_pos; lia. Qed.

Lemma slot_update_sized (lm : list iteration_data_t) j it :
  Forall (slot_sized n) lm -> slot_sized n it ->
  Forall (slot_sized n) (<[j := it]> lm).
Proof.
  intros Hlm Hit. apply Forall_lookup; intros t it' Ht.
  apply list_lookup_insert_Some in Ht as [(_ & <- & _)|(_ & Ht)]; auto.
  eapply Forall_lookup_1; eauto.
Qed.

Lemma first_loop_sized i : forall j lm d j' lm' d',
  0 <= j < m -> length lm = Z.to_nat m -> Forall (slot_sized n) lm ->
  first_loop i n m j lm d = (j', lm', d') ->
  0 <= j' < m /\ length lm' = Z.to_nat m /\ Forall (slot_sized n) lm'
  /\ length d' = length d.
Proof.
  induction i as [|i IH]; intros j lm d j' lm' d' Hj Hlen Hlm; simpl.
  - intros H; inversion H; subst; auto.
  - intros H. apply IH in H as (H1 & H2 & H3 & H4).
    + rewrite vecadd_length in H4; auto.
    + apply rem_slot; lia.
    + rewrite length_insert; exact Hlen.
    + apply slot_update_sized; auto.
      assert (Hin : (Z.to_nat (Z.rem (j + m - 1) m) < length lm)%nat).
      { pose proof (rem_slot (j + m - 1)); lia. }
      apply (Forall_lookup_total_1 _ _ _ Hlm) in Hin. exact Hin.
Qed.

Lemma second_loop_length i : forall j lm d,
  length (second_loop i n m j lm d) = length d.
Proof.
  induction i as [|i IH]; intros j lm d; simpl; auto.
  rewrite IH; apply vecadd_length.
Qed.

Lemma store_pair_sized lm end_ x xp g gp lm1 ys yy :
  0 <= end_ < m -> length lm = Z.to_nat m -> Forall (slot_sized n) lm ->
  store_pair n lm end_ x xp g gp = (lm1, ys, yy) ->
  length lm1 = Z.to_nat m /\ Forall (slot_sized n) lm1.
Proof.
  unfold store_pair; intros Hend Hlen Hlm H; inversion H; subst; clear H.
  split; [rewrite length_insert; exact Hlen|].
  assert (Hin : (Z.to_nat end_ < length lm)%nat) by lia.
  apply (Forall_lookup_total_1 _ _ _ Hlm) in Hin as [Hs Hy].
  apply slot_update_sized; auto.
  split; simpl; rewrite vecdiff_length; auto.
Qed.

Lemma lbfgs_search_lengths (st : lbfgs_state I) r :
  lbfgs_search n param cd st = Some r ->
  length (ls_x r) = length (st_x st) /\ length (ls_g r) = length (st_g st).
Proof.
  unfold lbfgs_search. destruct (step_bounds param cd st) as [[w1 smax] s1].
  apply line_search_lengths.
Qed.

Lemma store_past_sized pf k fx :
  match pf with
  | Some buf => 0 < past param /\ length buf = Z.to_nat (past param)
  | None => past param <= 0
  end ->
  match store_past param pf k fx with
  | Some buf => 0 < past param /\ length buf = Z.to_nat (past param)
  | None => past param <= 0
  end.
Proof.
  destruct pf as [buf|]; simpl; auto. rewrite length_insert; auto.
Qed.

(** A pass through the loop body keeps the sizes. *)
Lemma lbfgs_iteration_sized (st st' : lbfgs_state I) :
  state_sized n m param st ->
  lbfgs_iteration n m param cd st = Some (Continue st') ->
  state_sized n m param st'.
Proof.
  intros (Hx & Hxp & Hg & Hgp & Hd & Hlm & Hslots & Hend & Hk & Hpf).
  unfold lbfgs_iteration.
  destruct (lbfgs_search n param cd st) as [r|] eqn:Hs; [|discriminate].
  apply lbfgs_search_lengths in Hs as [Hrx Hrg].
  destruct (ls_ret r <? 0); [discriminate|].
  destruct (report_progress n cd st r) as [w2 answer].
  destruct (negb (answer =? 0)); [discriminate|].
  destruct (gradient_test _ _ _); [discriminate|].
  destruct (stopping_test _ _ _ _); [discriminate|].
  destruct (iteration_cap _ _); [discriminate|].
  intros H; inversion H; subst; clear H. unfold update_direction.
  destruct (store_pair n (st_lm st) (st_end st) (ls_x r)
              (veccpy (st_xp st) (st_x st) n) (ls_g r)
              (veccpy (st_gp st) (st_g st) n)) as [[lm1 ys] yy] eqn:Hsp.
  apply store_pair_sized in Hsp as [Hlm1 Hslots1]; auto.
  destruct (first_loop _ n m _ lm1 _) as [[j lm2] d1] eqn:Hfl.
  apply first_loop_sized in Hfl as (Hj & Hlm2 & Hslots2 & Hd1); auto;
    [|apply rem_slot; lia].
  unfold state_sized; simpl.
  rewrite second_loop_length, vecscale_length, Hd1, vecncpy_length,
    !veccpy_length.
  repeat split; try congruence; try lia; auto;
    try (apply rem_slot; lia); try (apply Z.rem_bound_pos; lia).
  apply store_past_sized; exact Hpf.
Qed.

Lemma lbfgs_passes_sized j : forall (st st' : lbfgs_state I),
  state_sized n m param st ->
  lbfgs_passes j n m param cd st = Some st' ->
  state_sized n m param st'.
Proof.
  induction j as [|j IH]; intros st st' Hst; simpl.
  - intros H; inversion H; subst; exact Hst.
  - destruct (lbfgs_iteration n m param cd st) as [[st1|]|] eqn:Hit;
      try discriminate.
    apply IH. eapply lbfgs_iteration_sized; eauto.
Qed.

Lemma lbfgs_start_sized x (w : world I) :
  length x = Z.to_nat n ->
  state_sized n m param (lbfgs_start n m param cd x w).
Proof.
  intros Hx. unfold lbfgs_start.
  destruct (call_evaluate cd w x (vecalloc n)) as [[w1 fx] g] eqn:E.
  apply call_evaluate_log in E as [_ Hg]. rewrite vecalloc_length in Hg.
  unfold state_sized; simpl.
  rewrite vecncpy_length, !vecalloc_length, length_replicate.
  repeat split; auto; try lia.
  - apply Forall_replicate; split; simpl; apply vecalloc_length.
  - destruct (0 <? past param) eqn:Hp.
    + apply Z.ltb_lt in Hp. rewrite length_insert, vecalloc_length; auto.
    + apply Z.ltb_ge in Hp; exact Hp.
Qed.

End Sizes.

(** ** The driver: runs *)

Section Runs.

Context {I : Type}.
Variables (n m : Z) (param : lbfgs_parameter_t) (cd : callback_data_t I).

(** A run that makes [j] passes and leaves the loop in the next one needs
    [j + 1] units of fuel. *)
Lemma lbfgs_loop_break j : forall fuel (st0 st st' : lbfgs_state I) r,
  lbfgs_passes j n m param cd st0 = Some st ->
  lbfgs_iteration n m param cd st = Some (Break r st') ->
  (j < fuel)%nat ->
  lbfgs_loop fuel n m param cd st0 = Some (r, st').
Proof.
  induction j as [|j IH]; intros [|fuel] st0 st st' r; simpl; try lia.
  - intros H; inversion H; subst. intros -> _; reflexivity.
  - destruct (lbfgs_iteration n m param cd st0) as [[st1|]|]; try discriminate.
    intros Hp Hit Hlt. eapply IH; eauto; lia.
Qed.

Lemma lbfgs_iteration_k (st st' : lbfgs_state I) :
  lbfgs_iteration n m param cd st = Some (Continue st') ->
  st_k st' = st_k st + 1.
Proof.
  unfold lbfgs_iteration.
  destruct (lbfgs_search n param cd st) as [r|]; [|discriminate].
  destruct (ls_ret r <? 0); [discriminate|].
  destruct (report_progress n cd st r) as [w2 answer].
  destruct (negb (answer =? 0)); [discriminate|].
  destruct (gradient_test _ _ _); [discriminate|].
  destruct (stopping_test _ _ _ _); [discriminate|].
  destruct (iteration_cap _ _); [discriminate|].
  intros H; inversion H; subst; clear H. unfold update_direction.
  destruct (store_pair _ _ _ _ _ _ _) as [[lm1 ys] yy].
  destruct (first_loop _ _ _ _ _ _) as [[j lm2] d1]. reflexivity.
Qed.

Lemma lbfgs_passes_k j : forall (st st' : lbfgs_state I),
  lbfgs_passes j n m param cd st = Some st' ->
  st_k st' = st_k st + Z.of_nat j.
Proof.
  induction j as [|j IH]; intros st st'; simpl.
  - intros H; inversion H; subst; lia.
  - destruct (lbfgs_iteration n m param cd st) as [[st1|]|] eqn:Hit;
      try discriminate.
    intros H. apply IH in H. apply lbfgs_iteration_k in Hit. lia.
Qed.

End Runs.

Lemma check_parameters_sizes n param :
  check_parameters n param = None -> 0 < n /\ 0 < mem_size param.
Proof.
  unfold check_parameters.
  destruct (n <=? 0) eqn:Hn; [discriminate|].
  destruct (mem_size param <=? 0) eqn:Hm; [discriminate|].
  intros _; lia.
Qed.

Lemma lbfgs_reaches_sized {I : Type} j n param (cd : callback_data_t I) x w st :
  length x = Z.to_nat n ->
  lbfgs_reaches j n param cd x w st ->
  state_sized n (mem_size param) param st /\ st_k st = Z.of_nat j + 1.
Proof.
  intros Hx (Hchk & _ & Hp).
  apply check_parameters_sizes in Hchk as [_ Hm]. split.
  - eapply lbfgs_passes_sized; eauto. apply lbfgs_start_sized; auto.
  - apply lbfgs_passes_k in Hp. rewrite Hp. unfold lbfgs_start.
    destruct (call_evaluate _ _ _ _) as [[w1 fx] g]. simpl; lia.
Qed.

(** A run that reaches a pass which leaves the loop returns what that pass
    leaves behind. *)
Lemma lbfgs_optimize_break {I : Type} fuel j n x ptr_fx ev sb pp (inst : I)
    _param st r st' :
  lbfgs_reaches j n (param_or_default _param)
    (make_callback_data n ev sb pp) x (world_at_call inst) st ->
  lbfgs_iteration n (mem_size (param_or_default _param))
    (param_or_default _param) (make_callback_data n ev sb pp) st
    = Some (Break r st') ->
  (j < fuel)%nat ->
  lbfgs_main fuel n (mem_size (param_or_default _param))
    (param_or_default _param) (make_callback_data n ev sb pp) x
    (world_at_call inst) = Some (r, st')
  /\ lbfgs_optimize fuel n x ptr_fx ev sb pp inst _param
     = Some {| ret := r; x_out := st_x st';
               fx_out := match ptr_fx with
                         | Some _ => Some (st_fx st')
                         | None => None
                         end;
               w_out := st_w st' |}.
Proof.
  intros (Hchk & Hnot & Hp) Hit Hlt.
  assert (Hmain : lbfgs_main fuel n (mem_size (param_or_default _param))
    (param_or_default _param) (make_callback_data n ev sb pp) x
    (world_at_call inst) = Some (r, st')).
  { unfold lbfgs_main. rewrite Hnot. eapply lbfgs_loop_break; eauto. }
  split; [exact Hmain|].
  unfold lbfgs_optimize. rewrite Hchk, Hmain. reflexivity.
Qed.

(** ** Line-search failure in the driver *)

(** The pass in which the line search fails leaves the loop with the
    search's status, [x] and [g] copied back from the snapshot, which is the
    [x] and [g] of the state the pass started from. *)
Lemma lbfgs_iteration_failure {I : Type} n m param (cd : callback_data_t I)
    st r :
  state_sized n m param st ->
  lbfgs_search n param cd st = Some r -> ls_ret r < 0 ->
  exists st',
    lbfgs_iteration n m param cd st = Some (Break (ls_ret r) st')
    /\ st_x st' = st_x st /\ st_g st' = st_g st
    /\ st_xp st' = st_x st /\ st_gp st' = st_g st
    /\ st_fx st' = ls_f r /\ st_w st' = ls_w r.
Proof.
  intros (Hx & Hxp & Hg & Hgp & _) Hs Hneg.
  unfold lbfgs_iteration. rewrite Hs.
  apply Z.ltb_lt in Hneg; rewrite Hneg.
  apply lbfgs_search_lengths in Hs as [Hrx Hrg].
  eexists; split; [reflexivity|]; simpl.
  rewrite (veccpy_whole (st_xp st) (st_x st) n Hxp Hx).
  rewrite (veccpy_whole (st_gp st) (st_g st) n Hgp Hg).
  rewrite !veccpy_whole by congruence. repeat split.
Qed.

(** C4: when the run reaches a pass whose line search fails (returns a
    negative status), the loop ends there with [x] and [g] equal to the
    snapshot [xp], [gp] taken before that search, which holds the [x] and [g]
    the pass started from, and [lbfgs_optimize] returns the search's status
    with that [x]. *)
Theorem C4_line_search_failure_restores {I : Type} fuel j n x ptr_fx ev sb pp
    (inst : I) _param st r :
  length x = Z.to_nat n ->
  lbfgs_reaches j n (param_or_default _param)
    (make_callback_data n ev sb pp) x (world_at_call inst) st ->
  lbfgs_search n (param_or_default _param) (make_callback_data n ev sb pp) st
    = Some r ->
  ls_ret r < 0 ->
  (j < fuel)%nat ->
  exists st' res,
    lbfgs_main fuel n (mem_size (param_or_default _param))
      (param_or_default _param) (make_callback_data n ev sb pp) x
      (world_at_call inst) = Some (ls_ret r, st')
    /\ st_x st' = st_xp st' /\ st_g st' = st_gp st'
    /\ st_xp st' = st_x st /\ st_gp st' = st_g st
    /\ lbfgs_optimize fuel n x ptr_fx ev sb pp inst _param = Some res
    /\ ret res = ls_ret r
    /\ x_out res = st_x st.
Proof.
  intros Hx Hreach Hs Hneg Hlt.
  destruct (lbfgs_reaches_sized _ _ _ _ _ _ _ Hx Hreach) as [Hsized _].
  destruct (lbfgs_iteration_failure _ _ _ _ _ _ Hsized Hs Hneg)
    as (st' & Hit & H1 & H2 & H3 & H4 & _).
  destruct (lbfgs_optimize_break fuel j n x ptr_fx ev sb pp inst _param
              st (ls_ret r) st' Hreach Hit Hlt) as [Hmain Hopt].
  exists st'; eexists. split; [exact Hmain|].
  split; [congruence|]. split; [congruence|].
  split; [exact H3|]. split; [exact H4|].
  split; [exact Hopt|]. simpl. split; [reflexivity|exact H1].
Qed.

(** On [f(x) = - x * x] from [x = 1] the first pass moves to [x = 2]; the
    direction computed for the second pass points uphill and its line
    search fails at entry. *)
Lemma C4_line_search_failure_restores_witness :
  exists res,
    lbfgs_optimize 2 1 [1%float] (Some 0%float) eval_neg_square None None tt
      None = Some res
    /\ ret res = LBFGSERR_INCREASEGRADIENT
    /\ x_out res = [2%float].
Proof.
  edestruct (C4_line_search_failure_restores 2 1 1 [1%float] (Some 0%float)
               eval_neg_square None None tt None)
    as (st' & res & _ & _ & _ & _ & _ & Hopt & Hret & Hx).
  - reflexivity.
  - split; [reflexivity|]. split; [reflexivity|]. vm_compute; reflexivity.
  - vm_compute; reflexivity.
  - reflexivity.
  - lia.
  - exists res. split; [exact Hopt|]. split; [exact Hret|exact Hx].
Defined.

(** The step-bound provider is the only callback called before the
    search. *)
Lemma step_bounds_log {I : Type} param (cd : callback_data_t I) st w1 smax s1 :
  step_bounds param cd st = (w1, smax, s1) ->
  exists evs,
    calls w1 = calls (st_w st) ++ evs
    /\ evaluations evs = 0 /\ progress_reports evs = 0.
Proof.
  unfold step_bounds, call_stepbound.
  destruct (proc_stepbound cd) as [sb|].
  - destruct (sb _ _ _ _) as [i1 b]. intros H; inversion H; subst; simpl.
    eexists; split; [reflexivity|]. split; reflexivity.
  - intros H; inversion H; subst. exists []; rewrite app_nil_r.
    repeat split.
Qed.

(** What the line search of a pass does, seen from the driver: it fails at
    entry and leaves everything as it was, or makes at least one trial from
    the point [x] of the pass along its direction [d]. *)
Lemma lbfgs_search_spec {I : Type} n m param (cd : callback_data_t I) st r :
  state_sized n m param st ->
  lbfgs_search n param cd st = Some r ->
  exists w1 smax s1,
    step_bounds param cd st = (w1, smax, s1)
    /\ (((ls_ret r = LBFGSERR_INVALIDPARAMETERS
          \/ ls_ret r = LBFGSERR_INCREASEGRADIENT)
         /\ ls_x r = st_x st /\ ls_f r = st_fx st /\ ls_g r = st_g st
         /\ ls_stp r = s1 /\ ls_w r = w1)
        \/ exists evs,
             calls (ls_w r) = calls w1 ++ evs
             /\ (1 <= length evs)%nat
             /\ List.forallb is_evaluate evs = true
             /\ ls_x r = vecadd (st_x st) (st_d st) (ls_stp r) n
             /\ last evs = Some (EvEvaluate (ls_x r) (ls_f r) (ls_g r))
             /\ ((ls_ret r = Z.of_nat (length evs)
                  /\ sufficient_decrease param (st_fx st)
                       (vecdot (st_g st) (st_d st) n) (ls_stp r) (ls_f r)
                     = true)
                 \/ ((ls_ret r = LBFGSERR_MINIMUMSTEP
                      \/ ls_ret r = LBFGSERR_MAXIMUMSTEP
                      \/ ls_ret r = LBFGSERR_MAXIMUMLINESEARCH)
                     /\ sufficient_decrease param (st_fx st)
                          (vecdot (st_g st) (st_d st) n) (ls_stp r) (ls_f r)
                        = false))).
Proof.
  intros (Hx & Hxp & Hg & Hgp & _). unfold lbfgs_search.
  destruct (step_bounds param cd st) as [[w1 smax] s1].
  rewrite (veccpy_whole (st_xp st) (st_x st) n Hxp Hx).
  rewrite (veccpy_whole (st_gp st) (st_g st) n Hgp Hg).
  unfold line_search_backtracking. intros Hs.
  exists w1, smax, s1; split; [reflexivity|].
  destruct (s1 <=? 0)%float;
    [inversion Hs; subst; simpl; left; repeat split; auto|].
  destruct (0 <? vecdot (st_g st) (st_d st) n)%float;
    [inversion Hs; subst; simpl; left; repeat split; auto|].
  right.
  destruct (ls_trials_spec n (st_d st) (st_x st) (min_step param) smax
              (st_fx st)
              (f_dec_coeff param * vecdot (st_g st) (st_d st) n)%float
              cd param (Z.to_nat (Z.max 1 (max_linesearch param))) 0
              (st_x st) (st_g st) s1 w1)
    as (r' & evs & Hrun & Hcalls & Hlen & _ & _ & Hrx & Hlast & Hevs & Hend);
    auto; [rewrite Z.sub_0_r; lia|].
  rewrite Hrun in Hs; inversion Hs; subst r'; clear Hs.
  exists evs. unfold sufficient_decrease.
  split; [exact Hcalls|]. split; [exact Hlen|].
  split.
  { apply forallb_lookup; intros i e He.
    destruct (Hevs i e He) as (fi & gi & -> & _); reflexivity. }
  split; [exact Hrx|]. split; [exact Hlast|].
  destruct Hend as [[Hret Hacc]|[Hrej Hcode]].
  - left; split; [lia|]. rewrite Hacc; reflexivity.
  - right; split; [|rewrite Hrej; reflexivity].
    destruct Hcode as [[? _]|[[? _]|[? _]]]; auto.
Qed.

(** The search of a pass always returns. *)
Lemma lbfgs_search_total {I : Type} n m param (cd : callback_data_t I) st :
  state_sized n m param st ->
  exists r, lbfgs_search n param cd st = Some r.
Proof.
  intros (Hx & Hxp & Hg & Hgp & _). unfold lbfgs_search.
  destruct (step_bounds param cd st) as [[w1 smax] s1].
  rewrite (veccpy_whole (st_xp st) (st_x st) n Hxp Hx).
  unfold line_search_backtracking.
  destruct (s1 <=? 0)%float; [eexists; reflexivity|].
  destruct (0 <? _)%float; [eexists; reflexivity|].
  match goal with
  | |- context [ls_trials ?fu _ ?s ?xp ?a ?b ?fi ?dg _ _ ?c ?x ?g ?stp ?w] =>
      destruct (ls_trials_spec n s xp a b fi dg cd param fu c x g stp w)
        as (r & _ & Hrun & _); auto; [rewrite Z.sub_0_r; lia|]
  end.
  exists r; exact Hrun.
Qed.

(** A pass through the loop body always ends. *)
Lemma lbfgs_iteration_total {I : Type} n m param (cd : callback_data_t I) st :
  state_sized n m param st ->
  exists o, lbfgs_iteration n m param cd st = Some o.
Proof.
  intros Hsized. destruct (lbfgs_search_total n m param cd st Hsized)
    as [r Hs].
  unfold lbfgs_iteration. rewrite Hs.
  destruct (ls_ret r <? 0); [eexists; reflexivity|].
  destruct (report_progress n cd st r) as [w2 answer].
  destruct (negb (answer =? 0)); [eexists; reflexivity|].
  destruct (gradient_test _ _ _); [eexists; reflexivity|].
  destruct (stopping_test _ _ _ _); [eexists; reflexivity|].
  destruct (iteration_cap _ _); eexists; reflexivity.
Qed.

(** ** The value left in [*ptr_fx] by a failed search *)

(** C9, as amended: when the run ends because the line search failed,
    [lbfgs_optimize] returns the [x] the pass started from and writes to
    [*ptr_fx] the value the search left in [fx].  If the search failed after
    at least one trial ([LBFGSERR_MINIMUMSTEP], [LBFGSERR_MAXIMUMSTEP],
    [LBFGSERR_MAXIMUMLINESEARCH]) that is the value the evaluator returned,
    in its last call, for the rejected trial point [x + step * d], not a
    value for the returned [x].  If the search failed at entry
    ([LBFGSERR_INVALIDPARAMETERS], [LBFGSERR_INCREASEGRADIENT]) nothing was
    evaluated and it is the value [fx] had when the pass started. *)
Theorem C9_value_after_failed_search {I : Type} fuel j n x v ev sb pp
    (inst : I) _param st r :
  length x = Z.to_nat n ->
  lbfgs_reaches j n (param_or_default _param)
    (make_callback_data n ev sb pp) x (world_at_call inst) st ->
  lbfgs_search n (param_or_default _param) (make_callback_data n ev sb pp) st
    = Some r ->
  ls_ret r < 0 ->
  (j < fuel)%nat ->
  exists res,
    lbfgs_optimize fuel n x (Some v) ev sb pp inst _param = Some res
    /\ ret res = ls_ret r
    /\ x_out res = st_x st
    /\ fx_out res = Some (ls_f r)
    /\ (((ls_ret r = LBFGSERR_INVALIDPARAMETERS
          \/ ls_ret r = LBFGSERR_INCREASEGRADIENT)
         /\ ls_f r = st_fx st
         /\ evaluations (calls (w_out res)) = evaluations (calls (st_w st)))
        \/ ((ls_ret r = LBFGSERR_MINIMUMSTEP
             \/ ls_ret r = LBFGSERR_MAXIMUMSTEP
             \/ ls_ret r = LBFGSERR_MAXIMUMLINESEARCH)
            /\ last (calls (w_out res))
               = Some (EvEvaluate (vecadd (st_x st) (st_d st) (ls_stp r) n)
                         (ls_f r) (ls_g r))
            /\ sufficient_decrease (param_or_default _param) (st_fx st)
                 (vecdot (st_g st) (st_d st) n) (ls_stp r) (ls_f r)
               = false)).
Proof.
  intros Hx Hreach Hs Hneg Hlt.
  destruct (lbfgs_reaches_sized _ _ _ _ _ _ _ Hx Hreach) as [Hsized _].
  destruct (lbfgs_iteration_failure _ _ _ _ _ _ Hsized Hs Hneg)
    as (st' & Hit & H1 & _ & _ & _ & Hfx & Hw).
  destruct (lbfgs_optimize_break fuel j n x (Some v) ev sb pp inst _param
              st (ls_ret r) st' Hreach Hit Hlt) as [_ Hopt].
  eexists; split; [exact Hopt|]; simpl.
  split; [reflexivity|]. split; [exact H1|]. split; [congruence|].
  rewrite Hw.
  destruct (lbfgs_search_spec _ _ _ _ _ _ Hsized Hs)
    as (w1 & smax & s1 & Hsb & Hcases).
  destruct (step_bounds_log _ _ _ _ _ _ Hsb) as (sbev & Hw1 & Hev & _).
  destruct Hcases as [(Hret & _ & Hf & _ & _ & Hrw)
                     |(evs & Hcalls & Hlen & _ & Hrx & Hlast & Hend)].
  - left. split; [exact Hret|]. split; [exact Hf|].
    rewrite Hrw, Hw1, evaluations_app, Hev; lia.
  - right. destruct Hend as [[Hret _]|[Hret Hrej]]; [lia|].
    split; [exact Hret|]. split; [|exact Hrej].
    rewrite Hcalls, <- Hrx. destruct evs as [|e evs]; [simpl in Hlen; lia|].
    rewrite last_app, Hlast; reflexivity.
Qed.

(** On [f(x) = x * x] from [x = 0.25] with a budget of one trial, the first
    trial overshoots to [-0.75] and is rejected: the run returns
    [x = 0.25] together with the value [0.5625] of the trial point. *)
Lemma C9_value_after_failed_search_witness :
  exists res,
    lbfgs_optimize 1 1 [0.25%float] (Some 0%float) eval_square None None tt
      (Some (with_max_linesearch _default_param 1)) = Some res
    /\ ret res = LBFGSERR_MAXIMUMLINESEARCH
    /\ x_out res = [0.25%float]
    /\ fx_out res = Some 0.5625%float.
Proof.
  edestruct (C9_value_after_failed_search 1 0 1 [0.25%float] 0%float
               eval_square None None tt
               (Some (with_max_linesearch _default_param 1)))
    as (res & Hopt & Hret & Hx & Hfx & _).
  - reflexivity.
  - split; [reflexivity|]. split; [reflexivity|]. vm_compute; reflexivity.
  - vm_compute; reflexivity.
  - reflexivity.
  - lia.
  - exists res. split; [exact Hopt|]. split; [exact Hret|].
    split; [exact Hx|exact Hfx].
Defined.

(** C9 as stated fails for a search that fails at entry: on
    [f(x) = - x * x] from [x = 1] the run ends in its second pass with
    [LBFGSERR_INCREASEGRADIENT]; that search evaluated nothing, and the value
    written to [*ptr_fx] is the objective at the returned [x = 2]. *)
Lemma C9_counterexample :
  exists res,
    lbfgs_optimize 2 1 [1%float] (Some 0%float) eval_neg_square None None tt
      None = Some res
    /\ ret res = LBFGSERR_INCREASEGRADIENT
    /\ x_out res = [2%float]
    /\ fx_out res = Some (-4)%float
    /\ eval_neg_square tt (x_out res) [0%float] 1
       = (tt, (-4)%float, [(-4)%float])
    /\ calls (w_out res)
       = [EvEvaluate [1%float] (-1) [(-2)%float];
          EvEvaluate [2%float] (-4) [(-4)%float]].
Proof.
  eexists; split; [vm_compute; reflexivity|].
  simpl; repeat split.
Qed.

(** ** The tests that follow a successful search *)

Section AfterSearch.

Context {I : Type}.
Variables (n m : Z) (param : lbfgs_parameter_t) (cd : callback_data_t I).

Lemma lbfgs_iteration_searched (st : lbfgs_state I) r w2 answer :
  lbfgs_search n param cd st = Some r -> 0 <= ls_ret r ->
  report_progress n cd st r = (w2, answer) ->
  lbfgs_iteration n m param cd st
  = if negb (answer =? 0) then
      Some (Break answer (searched_state n st r w2 (st_pf st)))
    else if gradient_test param (vec2norm (ls_x r) n) (vec2norm (ls_g r) n)
    then Some (Break LBFGS_CONVERGENCE (searched_state n st r w2 (st_pf st)))
    else if stopping_test param (st_pf st) (st_k st) (ls_f r)
    then Some (Break LBFGS_STOP (searched_state n st r w2 (st_pf st)))
    else if iteration_cap param (st_k st)
    then Some (Break LBFGSERR_MAXIMUMITERATION
                 (searched_state n st r w2
                    (store_past param (st_pf st) (st_k st) (ls_f r))))
    else Some (Continue
                 (update_direction n m st (ls_x r)
                    (veccpy (st_xp st) (st_x st) n) (ls_g r)
                    (veccpy (st_gp st) (st_g st) n)
                    (store_past param (st_pf st) (st_k st) (ls_f r))
                    (ls_f r) w2)).
Proof.
  intros Hs Hls Hrp. unfold lbfgs_iteration. rewrite Hs.
  apply Z.ltb_ge in Hls; rewrite Hls, Hrp. reflexivity.
Qed.

(** A pass goes back to the loop test only after a successful search, an
    answer 0 to the progress report (if any), and the failure of the
    gradient test, of the stopping test and of the iteration cap. *)
Lemma lbfgs_iteration_continue (st st' : lbfgs_state I) :
  lbfgs_iteration n m param cd st = Some (Continue st') ->
  exists r w2,
    lbfgs_search n param cd st = Some r
    /\ 0 <= ls_ret r
    /\ report_progress n cd st r = (w2, 0)
    /\ gradient_test param (vec2norm (ls_x r) n) (vec2norm (ls_g r) n) = false
    /\ stopping_test param (st_pf st) (st_k st) (ls_f r) = false
    /\ iteration_cap param (st_k st) = false
    /\ st' = update_direction n m st (ls_x r)
               (veccpy (st_xp st) (st_x st) n) (ls_g r)
               (veccpy (st_gp st) (st_g st) n)
               (store_past param (st_pf st) (st_k st) (ls_f r)) (ls_f r) w2.
Proof.
  unfold lbfgs_iteration.
  destruct (lbfgs_search n param cd st) as [r|]; [|discriminate].
  destruct (ls_ret r <? 0) eqn:Hls; [discriminate|]. apply Z.ltb_ge in Hls.
  destruct (report_progress n cd st r) as [w2 answer] eqn:Hrp.
  destruct (answer =? 0) eqn:Ha; [|discriminate]. apply Z.eqb_eq in Ha.
  simpl negb; cbv iota.
  destruct (gradient_test _ _ _) eqn:Hg; [discriminate|].
  destruct (stopping_test _ _ _ _) eqn:Hst; [discriminate|].
  destruct (iteration_cap _ _) eqn:Hcap; [discriminate|].
  intros H; inversion H; subst. exists r, w2.
  split; [reflexivity|]. split; [exact Hls|]. repeat split; auto.
Qed.

Lemma report_progress_log (st : lbfgs_state I) r w2 answer :
  report_progress n cd st r = (w2, answer) ->
  match proc_progress cd with
  | Some _ =>
      calls w2 = calls (ls_w r)
                 ++ [EvProgress (ls_x r) (ls_g r) (ls_f r)
                       (vec2norm (ls_x r) n) (vec2norm (ls_g r) n)
                       (ls_stp r) (cd_n cd) (st_k st) (ls_ret r) answer]
  | None => w2 = ls_w r /\ answer = 0
  end.
Proof.
  unfold report_progress, call_progress.
  destruct (proc_progress cd) as [pp|].
  - destruct (pp _ _ _ _ _ _ _ _ _ _) as [i1 a].
    intros H; inversion H; subst; reflexivity.
  - intros H; inversion H; subst; auto.
Qed.

End AfterSearch.

(** ** The iteration cap *)

Lemma check_parameters_max_iterations n p v :
  check_parameters n (with_max_iterations p v) = check_parameters n p.
Proof. reflexivity. Qed.

(** C10: the parameter checks do not look at [max_iterations], so a
    negative value passes them; and with a negative value, a run that
    reaches a pass in which the search succeeds, the progress report (if
    any) answers 0, and neither the gradient test nor the stopping test
    holds, returns [LBFGSERR_MAXIMUMITERATION].  That pass is the first one:
    no pass goes back to the loop test. *)
Theorem C10_negative_max_iterations {I : Type} fuel j n x ptr_fx ev sb pp
    (inst : I) p st r w2 :
  (forall v, check_parameters n (with_max_iterations p v)
             = check_parameters n p)
  /\ (max_iterations p < 0 ->
      lbfgs_reaches j n p (make_callback_data n ev sb pp) x
        (world_at_call inst) st ->
      lbfgs_search n p (make_callback_data n ev sb pp) st = Some r ->
      0 <= ls_ret r ->
      report_progress n (make_callback_data n ev sb pp) st r = (w2, 0) ->
      gradient_test p (vec2norm (ls_x r) n) (vec2norm (ls_g r) n) = false ->
      stopping_test p (st_pf st) (st_k st) (ls_f r) = false ->
      (j < fuel)%nat ->
      j = 0%nat
      /\ st_k st = 1
      /\ iteration_cap p (st_k st) = true
      /\ exists res,
           lbfgs_optimize fuel n x ptr_fx ev sb pp inst (Some p) = Some res
           /\ ret res = LBFGSERR_MAXIMUMITERATION
           /\ x_out res = ls_x r).
Proof.
  split; [intros v; apply check_parameters_max_iterations|].
  intros Hneg Hreach Hs Hls Hrp Hg Hst Hlt.
  assert (Hk : st_k st = Z.of_nat j + 1).
  { destruct Hreach as (_ & _ & Hp). apply lbfgs_passes_k in Hp.
    rewrite Hp. unfold lbfgs_start.
    destruct (call_evaluate _ _ _ _) as [[w1 fx] g]. simpl; lia. }
  assert (Hcap : forall k, 1 <= k -> iteration_cap p k = true).
  { intros k Hk1. unfold iteration_cap.
    apply andb_true_intro; split.
    - apply negb_true_iff, Z.eqb_neq; lia.
    - apply Z.ltb_lt; lia. }
  assert (Hj : j = 0%nat).
  { destruct j as [|j]; [reflexivity|]. exfalso.
    destruct Hreach as (_ & _ & Hp). simpl in Hp.
    destruct (lbfgs_iteration _ _ _ _ _) as [[st1|]|] eqn:Hit;
      try discriminate.
    apply lbfgs_iteration_continue in Hit
      as (r1 & w3 & _ & _ & _ & _ & _ & Hc & _).
    rewrite Hcap in Hc; [discriminate|].
    unfold lbfgs_start. destruct (call_evaluate _ _ _ _) as [[w1 fx] g].
    simpl; lia. }
  split; [exact Hj|]. split; [lia|]. split; [apply Hcap; lia|].
  pose proof (lbfgs_iteration_searched n (mem_size p) p _ st r w2 0
                Hs Hls Hrp) as Hit.
  simpl negb in Hit; cbv iota in Hit.
  rewrite Hg, Hst, Hcap in Hit by lia.
  destruct (lbfgs_optimize_break fuel j n x ptr_fx ev sb pp inst (Some p)
              st _ _ Hreach Hit Hlt) as [_ Hopt].
  eexists; split; [exact Hopt|]. split; reflexivity.
Qed.

(** On [f(x) = x * x] from [x = 3] with [max_iterations = -1], the first
    pass moves to [x = 2], which is not a minimizer, and the run stops
    there. *)
Lemma C10_negative_max_iterations_witness :
  exists res,
    lbfgs_optimize 1 1 [3%float] None eval_square None None tt
      (Some (with_max_iterations _default_param (-1))) = Some res
    /\ ret res = LBFGSERR_MAXIMUMITERATION
    /\ x_out res = [2%float].
Proof.
  epose proof (C10_negative_max_iterations 1 0 1 [3%float] None
                 eval_square None None tt
                 (with_max_iterations _default_param (-1)) _ _ _) as [_ H].
  edestruct H as (_ & _ & _ & res & Hopt & Hret & Hx).
  - reflexivity.
  - split; [reflexivity|]. split; [reflexivity|]. vm_compute; reflexivity.
  - vm_compute; reflexivity.
  - simpl. discriminate.
  - vm_compute; reflexivity.
  - reflexivity.
  - reflexivity.
  - lia.
  - exists res. split; [exact Hopt|]. split; [exact Hret|exact Hx].
Defined.

(** ** The stopping criterion and the past values *)

Lemma update_direction_fields {I : Type} n m (st : lbfgs_state I) x xp g gp
    pf fx w :
  let st' := update_direction n m st x xp g gp pf fx w in
  st_x st' = x /\ st_xp st' = xp /\ st_g st' = g /\ st_gp st' = gp
  /\ st_pf st' = pf /\ st_fx st' = fx /\ st_w st' = w
  /\ st_k st' = st_k st + 1 /\ st_step st' = 1.0%float
  /\ st_end st' = Z.rem (st_end st + 1) m.
Proof.
  unfold update_direction.
  destruct (store_pair _ _ _ _ _ _ _) as [[lm1 ys] yy].
  destruct (first_loop _ _ _ _ _ _) as [[j lm2] d1]. simpl.
  repeat split.
Qed.

(** C7: in a run with [0 < past], take a pass, number [k], that gets to the
    stopping criterion (successful search, no cancel, gradient test
    failed).  The past values exist and have [past] cells.  If [past <= k]
    and [|rate| < delta] for [rate = (pf[k mod past] - fx) / fx], the run
    returns [LBFGS_STOP].  Otherwise, and in particular whenever [k < past],
    the criterion does not end the run and [fx] is stored into
    [pf[k mod past]]: the pass either ends on the iteration cap or goes back
    to the loop test, in both cases with the value stored.  In the first
    pass [pf[0]] holds the objective value of the initial point. *)
Theorem C7_stopping_criterion {I : Type} fuel j n x ptr_fx ev sb pp
    (inst : I) _param st r w2 :
  0 < past (param_or_default _param) ->
  length x = Z.to_nat n ->
  lbfgs_reaches j n (param_or_default _param)
    (make_callback_data n ev sb pp) x (world_at_call inst) st ->
  lbfgs_search n (param_or_default _param) (make_callback_data n ev sb pp) st
    = Some r ->
  0 <= ls_ret r ->
  report_progress n (make_callback_data n ev sb pp) st r = (w2, 0) ->
  gradient_test (param_or_default _param) (vec2norm (ls_x r) n)
    (vec2norm (ls_g r) n) = false ->
  (j < fuel)%nat ->
  exists pf,
    st_pf st = Some pf
    /\ length pf = Z.to_nat (past (param_or_default _param))
    /\ st_k st = Z.of_nat j + 1
    /\ (j = 0%nat -> pf !! 0%nat = Some (st_fx st))
    /\ let param := param_or_default _param in
       let k := st_k st in
       let slot := Z.to_nat (k mod past param) in
       let rate := ((pf !!! slot - ls_f r) / ls_f r)%float in
       (past param <= k -> (PrimFloat.abs rate <? delta param)%float = true ->
        exists res,
          lbfgs_optimize fuel n x ptr_fx ev sb pp inst _param = Some res
          /\ ret res = LBFGS_STOP)
       /\ (k < past param
           \/ (PrimFloat.abs rate <? delta param)%float = false ->
           exists st',
             st_pf st' = Some (<[slot := ls_f r]> pf)
             /\ (lbfgs_iteration n (mem_size param) param
                   (make_callback_data n ev sb pp) st
                 = Some (Break LBFGSERR_MAXIMUMITERATION st')
                 \/ lbfgs_iteration n (mem_size param) param
                      (make_callback_data n ev sb pp) st
                    = Some (Continue st'))).
Proof.
  intros Hpast Hx Hreach Hs Hls Hrp Hg Hlt.
  destruct (lbfgs_reaches_sized _ _ _ _ _ _ _ Hx Hreach) as [Hsized Hk].
  destruct Hsized as (_ & _ & _ & _ & _ & _ & _ & _ & _ & Hpf).
  destruct (st_pf st) as [pf|] eqn:Epf; [|lia]. destruct Hpf as [_ Hlen].
  exists pf. split; [reflexivity|]. split; [exact Hlen|].
  split; [exact Hk|].
  split.
  { intros ->. destruct Hreach as (_ & _ & Hp). simpl in Hp.
    inversion Hp; subst st; clear Hp. revert Epf. unfold lbfgs_start.
    destruct (call_evaluate _ _ _ _) as [[w1 fx] g]; simpl.
    destruct (0 <? past (param_or_default _param)); [|discriminate].
    intros H; inversion H; subst.
    apply list_lookup_insert_eq. rewrite vecalloc_length; lia. }
  cbv zeta.
  pose proof (lbfgs_iteration_searched n (mem_size (param_or_default _param))
                (param_or_default _param) _ st r w2 0 Hs Hls Hrp) as Hit.
  simpl negb in Hit; cbv iota in Hit. rewrite Hg, Epf in Hit.
  unfold stopping_test, decrease_rate in Hit.
  rewrite Z.rem_mod_nonneg in Hit by lia.
  split.
  - intros Hk1 Hrate. apply Z.leb_le in Hk1.
    rewrite Hk1, Hrate in Hit. simpl in Hit.
    destruct (lbfgs_optimize_break fuel j n x ptr_fx ev sb pp inst _param
                st _ _ Hreach Hit Hlt) as [_ Hopt].
    eexists; split; [exact Hopt|reflexivity].
  - intros Hskip.
    assert (Hno : (past (param_or_default _param) <=? st_k st)
                  && (PrimFloat.abs
                        ((pf !!! Z.to_nat
                                   (st_k st mod past (param_or_default _param))
                          - ls_f r) / ls_f r)
                      <? delta (param_or_default _param))%float = false).
    { destruct Hskip as [Hsk| ->]; [|apply andb_false_r].
      apply Z.leb_gt in Hsk; rewrite Hsk; reflexivity. }
    rewrite Hno in Hit. unfold store_past in Hit.
    rewrite Z.rem_mod_nonneg in Hit by lia.
    destruct (iteration_cap _ _).
    + eexists; split; [|left; exact Hit]. reflexivity.
    + eexists; split; [|right; exact Hit].
      apply update_direction_fields.
Qed.

(** On [f(x) = x * x] from [x = 3] with [past = 1] and [delta = 2]: the
    first pass moves from value 9 to value 4, a rate of 1.25. *)
Lemma C7_stopping_criterion_witness :
  exists res,
    lbfgs_optimize 1 1 [3%float] None eval_square None None tt
      (Some (with_past _default_param 1 2)) = Some res
    /\ ret res = LBFGS_STOP.
Proof.
  edestruct (C7_stopping_criterion 1 0 1 [3%float] None eval_square None
               None tt (Some (with_past _default_param 1 2)))
    as (pf & Hpf & _ & _ & _ & Hstop & _).
  - reflexivity.
  - reflexivity.
  - split; [reflexivity|]. split; [reflexivity|]. vm_compute; reflexivity.
  - vm_compute; reflexivity.
  - simpl. discriminate.
  - vm_compute; reflexivity.
  - reflexivity.
  - lia.
  - simpl in Hpf. injection Hpf as <-. apply Hstop; [simpl; lia|reflexivity].
Defined.

(** ** The step-bound provider *)

(** C8, as amended: in every pass with a step-bound provider, the provider
    is called with the current direction [d]; [step_max] is its answer
    clipped to [max_step]; and if the current step estimate is [>=] that
    bound, the step becomes half of the bound (not half of the estimate);
    the line search is entered with that step and that [step_max]. *)
Theorem C8_step_bound_provider {I : Type} n param (cd : callback_data_t I)
    st sb :
  proc_stepbound cd = Some sb ->
  exists xparg i1 b,
    sb (instance (st_w st)) xparg (st_d st) (cd_n cd) = (i1, b)
    /\ let w1 := {| instance := i1;
                    calls := calls (st_w st)
                             ++ [EvStepbound xparg (st_d st) b] |} in
       let step_max := if (b <? max_step param)%float then b
                       else max_step param in
       let step := if (step_max <=? st_step st)%float
                   then (step_max / 2)%float else st_step st in
       step_bounds param cd st = (w1, step_max, step)
       /\ lbfgs_search n param cd st
          = line_search_backtracking n (st_x st) (st_fx st) (st_g st) step
              (st_d st) (veccpy (st_xp st) (st_x st) n)
              (veccpy (st_gp st) (st_g st) n) (min_step param) step_max
              cd param w1.
Proof.
  intros Hsb. unfold lbfgs_search, step_bounds, call_stepbound.
  rewrite Hsb.
  destruct (sb (instance (st_w st)) (st_xp st) (st_d st) (cd_n cd))
    as [i1 b] eqn:E.
  exists (st_xp st), i1, b. rewrite E. repeat split.
Qed.

Lemma C8_step_bound_provider_witness :
  exists w1,
    step_bounds _default_param
      (make_callback_data 1 eval_square (Some bound_eighth) None)
      (lbfgs_start 1 8 _default_param
         (make_callback_data 1 eval_square (Some bound_eighth) None)
         [3%float] sample_world)
    = (w1, 0.125%float, 0.0625%float).
Proof.
  destruct (C8_step_bound_provider 1 _default_param
              (make_callback_data 1 eval_square (Some bound_eighth) None)
              (lbfgs_start 1 8 _default_param
                 (make_callback_data 1 eval_square (Some bound_eighth) None)
                 [3%float] sample_world)
              bound_eighth eq_refl)
    as (xparg & i1 & b & Hcall & Hsb & _).
  injection Hcall as <- <-. eexists. exact Hsb.
Defined.

(** C8 as stated fails on the halving: on [f(x) = x * x] from [x = 3] the
    first step estimate is [1/6]; with a provider answering [0.125] the
    estimate is above the bound, and the step becomes [0.0625], half of the
    bound, where half of the estimate is [1/12]. *)
Lemma C8_counterexample :
  let cd := make_callback_data 1 eval_square (Some bound_eighth) None in
  let st := lbfgs_start 1 8 _default_param cd [3%float] sample_world in
  exists w1 step,
    step_bounds _default_param cd st = (w1, 0.125%float, step)
    /\ (0.125 <=? st_step st)%float = true
    /\ step = 0.0625%float
    /\ (step =? st_step st / 2)%float = false.
Proof.
  eexists; eexists; split; [vm_compute; reflexivity|].
  repeat split.
Qed.

(** The provider is called before the snapshot is taken: in the first pass
    of the run above it receives the zeroed buffer [xp], not the point
    [x = 3] from which the search starts. *)
Lemma stepbound_receives_previous_snapshot :
  exists res rest,
    lbfgs_optimize 1 1 [3%float] None eval_square (Some bound_eighth) None
      tt (Some (with_max_iterations _default_param 1)) = Some res
    /\ calls (w_out res)
       = EvEvaluate [3%float] 9 [6%float]
         :: EvStepbound [0%float] [(-6)%float] 0.125 :: rest.
Proof.
  eexists; eexists; split; vm_compute; reflexivity.
Qed.

(** ** The progress callback *)

Section Progress.

Context {I : Type}.
Variables (n m : Z) (param : lbfgs_parameter_t) (cd : callback_data_t I).

(** Neither the step-bound provider nor the line search reports progress. *)
Lemma lbfgs_search_progress (st : lbfgs_state I) r :
  state_sized n m param st ->
  lbfgs_search n param cd st = Some r ->
  progress_reports (calls (ls_w r)) = progress_reports (calls (st_w st)).
Proof.
  intros Hsized Hs.
  destruct (lbfgs_search_spec _ _ _ _ _ _ Hsized Hs)
    as (w1 & smax & s1 & Hsb & Hcases).
  destruct (step_bounds_log _ _ _ _ _ _ Hsb) as (sbev & Hw1 & _ & Hpr).
  destruct Hcases as [(_ & _ & _ & _ & _ & ->)
                     |(evs & -> & _ & Hall & _)].
  - rewrite Hw1, progress_reports_app, Hpr; lia.
  - rewrite Hw1, !progress_reports_app, Hpr,
      (progress_reports_evaluate evs Hall); lia.
Qed.

Lemma lbfgs_iteration_progress pp (st st' : lbfgs_state I) :
  proc_progress cd = Some pp ->
  state_sized n m param st ->
  lbfgs_iteration n m param cd st = Some (Continue st') ->
  progress_reports (calls (st_w st'))
  = progress_reports (calls (st_w st)) + 1.
Proof.
  intros Hpp Hsized Hit.
  apply lbfgs_iteration_continue in Hit
    as (r & w2 & Hs & _ & Hrp & _ & _ & _ & ->).
  pose proof (lbfgs_search_progress st r Hsized Hs) as Hsearch.
  apply report_progress_log in Hrp. rewrite Hpp in Hrp.
  destruct (update_direction_fields n m st (ls_x r)
              (veccpy (st_xp st) (st_x st) n) (ls_g r)
              (veccpy (st_gp st) (st_g st) n)
              (store_past param (st_pf st) (st_k st) (ls_f r)) (ls_f r) w2)
    as (_ & _ & _ & _ & _ & _ & -> & _).
  rewrite Hrp, progress_reports_app, Hsearch. reflexivity.
Qed.

Lemma lbfgs_passes_progress pp j : forall (st st' : lbfgs_state I),
  proc_progress cd = Some pp ->
  0 < m ->
  state_sized n m param st ->
  lbfgs_passes j n m param cd st = Some st' ->
  progress_reports (calls (st_w st'))
  = progress_reports (calls (st_w st)) + Z.of_nat j.
Proof.
  induction j as [|j IH]; intros st st' Hpp Hm Hsized; simpl.
  - intros H; inversion H; subst; lia.
  - destruct (lbfgs_iteration n m param cd st) as [[st1|]|] eqn:Hit;
      try discriminate.
    intros Hp. apply IH in Hp; auto.
    + rewrite Hp, (lbfgs_iteration_progress pp st st1); auto. lia.
    + eapply lbfgs_iteration_sized; eauto.
Qed.

End Progress.

(** C5, as amended: in a run with a progress callback that has reached
    pass [j + 1], the callback has been called exactly [j] times, once in
    each pass made; the step-bound provider and the line search of the pass
    do not call it; a pass whose search fails ends the run without calling
    it; a pass whose search succeeds calls it once, with the [x], [g], [fx]
    and step the search left and [k = j + 1]; and if it then answers a
    non-zero value, [lbfgs_optimize] returns that value as its status (which
    is [LBFGSERR_CANCELED] only if the callback answers so), with the [x]
    that was passed to that call. *)
Theorem C5_progress_and_cancel {I : Type} fuel j n x ptr_fx ev sb pr
    (inst : I) _param st r :
  length x = Z.to_nat n ->
  lbfgs_reaches j n (param_or_default _param)
    (make_callback_data n ev sb (Some pr)) x (world_at_call inst) st ->
  lbfgs_search n (param_or_default _param)
    (make_callback_data n ev sb (Some pr)) st = Some r ->
  (j < fuel)%nat ->
  progress_reports (calls (st_w st)) = Z.of_nat j
  /\ progress_reports (calls (ls_w r)) = Z.of_nat j
  /\ (ls_ret r < 0 ->
      exists res,
        lbfgs_optimize fuel n x ptr_fx ev sb (Some pr) inst _param = Some res
        /\ progress_reports (calls (w_out res)) = Z.of_nat j)
  /\ (0 <= ls_ret r ->
      exists w2 answer,
        report_progress n (make_callback_data n ev sb (Some pr)) st r
        = (w2, answer)
        /\ calls w2
           = calls (ls_w r)
             ++ [EvProgress (ls_x r) (ls_g r) (ls_f r) (vec2norm (ls_x r) n)
                   (vec2norm (ls_g r) n) (ls_stp r) n (Z.of_nat j + 1)
                   (ls_ret r) answer]
        /\ (answer <> 0 ->
            exists res,
              lbfgs_optimize fuel n x ptr_fx ev sb (Some pr) inst _param
              = Some res
              /\ ret res = answer
              /\ x_out res = ls_x r
              /\ calls (w_out res) = calls w2
              /\ progress_reports (calls (w_out res)) = Z.of_nat j + 1)).
Proof.
  intros Hx Hreach Hs Hlt.
  destruct (lbfgs_reaches_sized _ _ _ _ _ _ _ Hx Hreach) as [Hsized Hk].
  assert (Hcount : progress_reports (calls (st_w st)) = Z.of_nat j).
  { destruct Hreach as (Hchk & _ & Hp).
    apply check_parameters_sizes in Hchk as [_ Hm].
    rewrite (lbfgs_passes_progress n _ _
               (make_callback_data n ev sb (Some pr)) pr j _ st eq_refl Hm
               (lbfgs_start_sized n _ _ _ Hm x _ Hx) Hp).
    unfold lbfgs_start, call_evaluate.
    destruct (proc_evaluate _ _ _ _ _) as [[i1 fx] gout]. reflexivity. }
  pose proof (lbfgs_search_progress n _ _ _ st r Hsized Hs) as Hsearch.
  split; [exact Hcount|]. split; [congruence|].
  split.
  - intros Hneg.
    destruct (lbfgs_iteration_failure _ _ _ _ _ _ Hsized Hs Hneg)
      as (st' & Hit & _ & _ & _ & _ & _ & Hw).
    destruct (lbfgs_optimize_break fuel j n x ptr_fx ev sb (Some pr) inst
                _param st _ _ Hreach Hit Hlt) as [_ Hopt].
    eexists; split; [exact Hopt|]. simpl. congruence.
  - intros Hls.
    destruct (report_progress n (make_callback_data n ev sb (Some pr)) st r)
      as [w2 answer] eqn:Hrp.
    exists w2, answer. split; [reflexivity|].
    pose proof (report_progress_log _ _ _ _ _ _ Hrp) as Hlog.
    simpl in Hlog. rewrite Hk in Hlog. split; [exact Hlog|].
    intros Ha.
    pose proof (lbfgs_iteration_searched n
                  (mem_size (param_or_default _param))
                  (param_or_default _param) _ st r w2 answer Hs Hls Hrp)
      as Hit.
    apply Z.eqb_neq in Ha. rewrite Ha in Hit. simpl in Hit.
    destruct (lbfgs_optimize_break fuel j n x ptr_fx ev sb (Some pr) inst
                _param st _ _ Hreach Hit Hlt) as [_ Hopt].
    eexists; split; [exact Hopt|]. simpl.
    repeat split. rewrite Hlog, progress_reports_app, Hsearch, Hcount.
    reflexivity.
Qed.

(** On [f(x) = x * x] from [x = 3] the second pass reaches [x = 0]; a
    callback answering [1] there makes the run return [1] with that [x]. *)
Lemma C5_progress_and_cancel_witness :
  exists res,
    lbfgs_optimize 2 1 [3%float] None eval_square None (Some stop_at_two) tt
      None = Some res
    /\ ret res = 1
    /\ x_out res = [0%float]
    /\ progress_reports (calls (w_out res)) = 2.
Proof.
  edestruct (C5_progress_and_cancel 2 1 1 [3%float] None eval_square None
               stop_at_two tt None)
    as (_ & _ & _ & Hok).
  - reflexivity.
  - split; [reflexivity|]. split; [reflexivity|]. vm_compute; reflexivity.
  - vm_compute; reflexivity.
  - lia.
  - destruct Hok as (w2 & answer & Hrp & _ & Hcancel);
      [simpl; discriminate|].
    injection Hrp as <- <-.
    destruct Hcancel as (res & Hopt & Hret & Hx & _ & Hcount);
      [discriminate|].
    exists res. split; [exact Hopt|]. split; [exact Hret|].
    split; [exact Hx|exact Hcount].
Defined.

(** C5 as stated fails on the status: in that run the callback cancels in
    pass 2 and [lbfgs_optimize] returns the callback's answer, [1] (the
    value of [LBFGS_STOP]), not [LBFGSERR_CANCELED]. *)
Lemma C5_counterexample :
  exists res,
    lbfgs_optimize 2 1 [3%float] None eval_square None (Some stop_at_two) tt
      None = Some res
    /\ last (calls (w_out res))
       = Some (EvProgress [0%float] [0%float] 0 0 0 1 1 2 1 1)
    /\ x_out res = [0%float]
    /\ ret res = 1
    /\ ret res <> LBFGSERR_CANCELED.
Proof.
  eexists; split; [vm_compute; reflexivity|].
  simpl; repeat split. discriminate.
Qed.

(** ** The parameter checks *)

Lemma check_parameters_domains n p :
  check_parameters n p = first_violation (parameter_domains n p).
Proof.
  unfold check_parameters, parameter_domains, first_violation.
  rewrite (Z.leb_antisym 0 n), (Z.leb_antisym 0 (mem_size p)),
    (Z.ltb_antisym 0 (past p)), (Z.leb_antisym 0 (max_linesearch p)).
  destruct (0 <? n); simpl; [|reflexivity].
  destruct (0 <? mem_size p); simpl; [|reflexivity].
  destruct (g_epsilon p <? 0)%float; simpl; [reflexivity|].
  destruct (0 <=? past p); simpl; [|reflexivity].
  destruct (delta p <? 0)%float; simpl; [reflexivity|].
  destruct (min_step p <? 0)%float; simpl; [reflexivity|].
  destruct (max_step p <? min_step p)%float; simpl; [reflexivity|].
  destruct (f_dec_coeff p <? 0)%float; simpl; [reflexivity|].
  destruct (s_curv_coeff p <=? f_dec_coeff p)%float; simpl; [reflexivity|].
  destruct (1 <=? s_curv_coeff p)%float; simpl; [reflexivity|].
  destruct (xtol p <? 0)%float; simpl; [reflexivity|].
  destruct (0 <? max_linesearch p); reflexivity.
Qed.

(** The statuses a search can return. *)
Lemma ls_trials_ret {I : Type} fuel n s xp stpmin stpmax finit dgtest
    (cd : callback_data_t I) param :
  forall count x g stp w r,
    0 <= count ->
    ls_trials fuel n s xp stpmin stpmax finit dgtest cd param count x g stp w
      = Some r ->
    1 <= ls_ret r
    \/ ls_ret r = LBFGSERR_MINIMUMSTEP
    \/ ls_ret r = LBFGSERR_MAXIMUMSTEP
    \/ ls_ret r = LBFGSERR_MAXIMUMLINESEARCH.
Proof.
  induction fuel as [|fuel IH]; intros count x g stp w r Hc; simpl;
    [discriminate|].
  destruct (call_evaluate cd w _ g) as [[w1 f1] g1].
  destruct (finit + stp * dgtest <? f1)%float;
    [|intros H; inversion H; subst; simpl; left; lia].
  destruct (stp <? stpmin)%float;
    [intros H; inversion H; subst; simpl; auto|].
  destruct (stpmax <? stp)%float;
    [intros H; inversion H; subst; simpl; auto|].
  destruct (max_linesearch param <=? count + 1);
    [intros H; inversion H; subst; simpl; auto|].
  apply IH; lia.
Qed.

Lemma lbfgs_search_ret {I : Type} n param (cd : callback_data_t I) st r :
  lbfgs_search n param cd st = Some r ->
  is_invalid_status (ls_ret r) = false.
Proof.
  unfold lbfgs_search. destruct (step_bounds param cd st) as [[w1 smax] s1].
  unfold line_search_backtracking.
  destruct (s1 <=? 0)%float; [intros H; inversion H; reflexivity|].
  destruct (0 <? _)%float; [intros H; inversion H; reflexivity|].
  intros H. apply ls_trials_ret in H; [|lia].
  unfold is_invalid_status.
  destruct H as [H|[->|[->| ->]]]; try reflexivity.
  apply andb_false_intro2, Z.leb_gt.
  unfold LBFGSERR_INVALID_MAXLINESEARCH; lia.
Qed.

(** A pass leaves the loop with a status that reports a rejected argument
    only if that is what the progress callback answered. *)
Lemma lbfgs_iteration_status {I : Type} n m param (cd : callback_data_t I)
    st r st' :
  lbfgs_iteration n m param cd st = Some (Break r st') ->
  is_invalid_status r = true -> reported (calls (st_w st')) r.
Proof.
  unfold lbfgs_iteration.
  destruct (lbfgs_search n param cd st) as [res|] eqn:Hs; [|discriminate].
  destruct (ls_ret res <? 0).
  { intros H; inversion H; subst.
    rewrite (lbfgs_search_ret _ _ _ _ _ Hs); discriminate. }
  destruct (report_progress n cd st res) as [w2 answer] eqn:Hrp.
  apply report_progress_log in Hrp.
  destruct (answer =? 0) eqn:Ha; simpl negb; cbv iota.
  - destruct (gradient_test _ _ _);
      [intros H; inversion H; subst; discriminate|].
    destruct (stopping_test _ _ _ _);
      [intros H; inversion H; subst; discriminate|].
    destruct (iteration_cap _ _); intros H; inversion H; subst;
      discriminate.
  - intros H; inversion H; subst; simpl. intros _.
    destruct (proc_progress cd).
    + rewrite Hrp. unfold reported. rewrite last_snoc.
      repeat eexists.
    + destruct Hrp as [_ ->]; discriminate.
Qed.

Lemma lbfgs_loop_status {I : Type} n m param (cd : callback_data_t I) fuel :
  forall st r st',
    lbfgs_loop fuel n m param cd st = Some (r, st') ->
    is_invalid_status r = true -> reported (calls (st_w st')) r.
Proof.
  induction fuel as [|fuel IH]; intros st r st'; simpl; [discriminate|].
  destruct (lbfgs_iteration n m param cd st) as [[st1|r1 st1]|] eqn:Hit;
    try discriminate.
  - apply IH.
  - intros H; inversion H; subst. eapply lbfgs_iteration_status; eauto.
Qed.

(** C1, as amended: [lbfgs_optimize] returns the status of the first
    argument, in the order of the checks, that lies outside its domain as
    listed in [parameter_domains], and then calls nothing and writes
    neither [x] nor [*ptr_fx]; these domains are [n > 0], [m > 0],
    [max_linesearch > 0], [past >= 0], not [< 0] for [g_epsilon], [delta],
    [min_step], [xtol] and the sufficient-decrease coefficient (zero is
    accepted), not [max_step < min_step], and neither [c2 <= c1] nor
    [1 <= c2] for the curvature coefficient.  When every argument lies in
    its domain, a status reporting a rejected argument is returned only if
    the progress callback answered it. *)
Theorem C1_parameter_checks {I : Type} fuel n x ptr_fx ev sb pp (inst : I)
    _param :
  (forall err,
     first_violation (parameter_domains n (param_or_default _param))
     = Some err ->
     lbfgs_optimize fuel n x ptr_fx ev sb pp inst _param
     = Some {| ret := err; x_out := x; fx_out := ptr_fx;
               w_out := world_at_call inst |}
     /\ is_invalid_status err = true
     /\ evaluations (calls (world_at_call inst)) = 0)
  /\ (first_violation (parameter_domains n (param_or_default _param)) = None ->
      forall res,
        lbfgs_optimize fuel n x ptr_fx ev sb pp inst _param = Some res ->
        is_invalid_status (ret res) = true ->
        reported (calls (w_out res)) (ret res)).
Proof.
  split.
  - intros err Herr. unfold lbfgs_optimize.
    rewrite check_parameters_domains, Herr.
    split; [reflexivity|]. split; [|reflexivity].
    revert Herr. unfold parameter_domains, first_violation.
    repeat match goal with
           | |- context [if ?b then _ else _] => destruct b
           end; intros H; inversion H; reflexivity.
  - intros Hok res. unfold lbfgs_optimize.
    rewrite check_parameters_domains, Hok. unfold lbfgs_main.
    destruct (gradient_test _ _ _).
    + intros H; inversion H; subst; simpl. discriminate.
    + destruct (lbfgs_loop _ _ _ _ _ _) as [[r st']|] eqn:Hloop;
        [|discriminate].
      intros H; inversion H; subst; simpl.
      eapply lbfgs_loop_status; eauto.
Qed.

(** A memory size of zero is rejected with [LBFGSERR_INVALID_MEMSIZE]. *)
Lemma C1_parameter_checks_witness :
  lbfgs_optimize 5 1 [3%float] (Some 7%float) eval_square None None tt
    (Some (with_mem_size _default_param 0))
  = Some {| ret := LBFGSERR_INVALID_MEMSIZE; x_out := [3%float];
            fx_out := Some 7%float; w_out := world_at_call tt |}.
Proof.
  apply (proj1 (C1_parameter_checks 5 1 [3%float] (Some 7%float) eval_square
                  None None tt (Some (with_mem_size _default_param 0)))).
  reflexivity.
Defined.

(** C1 as stated fails for a zero sufficient-decrease coefficient: it lies
    outside [0 < c1], yet no status reporting a rejected argument is
    returned; on [f(x) = x * x] from [x = 3] the evaluator is called three
    times and the run converges. *)
Lemma C1_counterexample :
  let p := with_f_dec_coeff _default_param 0 in
  (0 <? f_dec_coeff p)%float = false
  /\ exists res,
       lbfgs_optimize 2 1 [3%float] None eval_square None None tt (Some p)
       = Some res
       /\ ret res = LBFGS_CONVERGENCE
       /\ is_invalid_status (ret res) = false
       /\ evaluations (calls (w_out res)) = 3.
Proof.
  split; [reflexivity|].
  eexists; split; [vm_compute; reflexivity|].
  simpl; repeat split.
Qed.

(** ** The limited memory and the two-loop recursion *)

(** Subtracting [b * c] is adding [(- b) * c]: the same binary64 value. *)
Lemma SFmul_opp_l prec emax x y :
  SFmul prec emax (SFopp x) y = SFopp (SFmul prec emax x y).
Proof.
  destruct x as [sx|sx| |sx mx ex], y as [sy|sy| |sy my ey]; simpl;
    try reflexivity; try (rewrite negb_xorb_l; reflexivity).
  unfold binary_round_aux.
  destruct (shr_fexp _ _ _ _ _) as [mrs' e'].
  destruct (shr_fexp _ _ _ _ _) as [mrs'' e''].
  destruct (shr_m mrs''); simpl.
  - rewrite negb_xorb_l; reflexivity.
  - destruct (e'' <=? emax - prec)%Z; simpl; rewrite negb_xorb_l;
      reflexivity.
  - reflexivity.
Qed.

Lemma SFadd_opp_r prec emax x z :
  SFadd prec emax x (SFopp z) = SFsub prec emax x z.
Proof.
  destruct x as [sx|sx| |sx mx ex], z as [sz|sz| |sz mz ez]; simpl;
    try reflexivity; destruct sx, sz; reflexivity.
Qed.

Lemma float_add_opp_mul (a b c : float) :
  (a + (- b) * c)%float = (a - b * c)%float.
Proof.
  rewrite <- (SF2Prim_Prim2SF (a + - b * c)),
    <- (SF2Prim_Prim2SF (a - b * c)).
  f_equal. rewrite add_spec, sub_spec, !mul_spec, opp_spec.
  unfold SF64add, SF64mul, SF64sub. rewrite SFmul_opp_l, SFadd_opp_r.
  reflexivity.
Qed.

(** The loops over [n] cells of [n]-cell buffers are the whole-vector
    operations. *)
Lemma vec_loop2_zip f k : forall y x,
  length y = k -> length x = k -> vec_loop2 f y x k = zip_with f y x.
Proof.
  induction k as [|k IH]; intros [|yi y] [|xi x]; simpl; intros Hy Hx;
    try discriminate; auto.
  f_equal; apply IH; congruence.
Qed.

Lemma zip_with_pointwise (f g : float -> float -> float) :
  (forall a b, f a b = g a b) ->
  forall x y, zip_with f x y = zip_with g x y.
Proof.
  intros Hfg; induction x as [|a x IH]; intros [|b y]; simpl; auto.
  rewrite Hfg, IH; reflexivity.
Qed.

Lemma zip_with_sized (f : float -> float -> float) k : forall x y,
  length x = k -> length y = k -> length (zip_with f x y) = k.
Proof.
  induction k as [|k IH]; intros [|a x] [|b y]; simpl; intros Hx Hy;
    try discriminate; auto.
Qed.

Lemma vecadd_plus n y x c :
  length y = Z.to_nat n -> length x = Z.to_nat n ->
  vecadd y x c n = vplus_scaled y c x.
Proof. intros Hy Hx; apply vec_loop2_zip; auto. Qed.

Lemma vecadd_minus n y x c :
  length y = Z.to_nat n -> length x = Z.to_nat n ->
  vecadd y x (- c)%float n = vminus_scaled y c x.
Proof.
  intros Hy Hx. unfold vecadd. rewrite vec_loop2_zip by auto.
  apply zip_with_pointwise; intros a b; apply float_add_opp_mul.
Qed.

Lemma vecncpy_vneg n y x :
  length y = Z.to_nat n -> length x = Z.to_nat n -> vecncpy y x n = vneg x.
Proof.
  unfold vecncpy, vneg; generalize (Z.to_nat n) as k; intros k.
  revert y x; induction k as [|k IH]; intros [|yi y] [|xi x]; simpl;
    intros Hy Hx; try discriminate; auto.
  f_equal; apply IH; congruence.
Qed.

Lemma vecdiff_vsub n z x y :
  length z = Z.to_nat n -> length x = Z.to_nat n -> length y = Z.to_nat n ->
  vecdiff z x y n = vsub x y.
Proof.
  unfold vecdiff, vsub; generalize (Z.to_nat n) as k; intros k.
  revert z x y; induction k as [|k IH]; intros [|zi z] [|xi x] [|yi y];
    simpl; intros Hz Hx Hy; try discriminate; auto.
  f_equal; apply IH; congruence.
Qed.

Lemma vecscale_vscale n y c :
  length y = Z.to_nat n -> vecscale y c n = vscale c y.
Proof.
  unfold vecscale, vscale; generalize (Z.to_nat n) as k; intros k.
  revert y; induction k as [|k IH]; intros [|yi y]; simpl; intros Hy;
    try discriminate; auto.
  f_equal; apply IH; congruence.
Qed.

Lemma vecdot_dot n x y :
  length x = Z.to_nat n -> length y = Z.to_nat n -> vecdot x y n = dot x y.
Proof.
  unfold vecdot, dot; generalize (Z.to_nat n) as k, 0%float as acc.
  intros k; revert x y; induction k as [|k IH]; intros [|xi x] [|yi y] acc;
    simpl; intros Hx Hy; try discriminate; auto.
Qed.

Section TwoLoop.

Variables (n m : Z).
Hypothesis m_pos : 0 < m.

Lemma prev_slot j : 0 <= j < m -> Z.rem (j + m - 1) m = (j - 1) mod m.
Proof.
  intros Hj. rewrite Z.rem_mod_nonneg by lia.
  replace (j + m - 1) with (j - 1 + 1 * m) by lia. apply Z_mod_plus_full.
Qed.

Lemma next_slot j : 0 <= j -> Z.rem (j + 1) m = (j + 1) mod m.
Proof. intros Hj. apply Z.rem_mod_nonneg; lia. Qed.

Lemma slot_distinct j t : 0 <= j < m -> 1 <= t < m -> (j - t) mod m <> j.
Proof.
  intros Hj Ht Heq. pose proof (Z.div_mod (j - t) m) as Hdm.
  rewrite Heq in Hdm. set (q := (j - t) / m) in Hdm.
  assert (Hq : q <= -1 \/ 0 <= q) by lia.
  destruct Hq; nia.
Qed.

Lemma recent_pairs_ext lm1 lm2 bound : forall end_,
  (forall k, pair_in_slot (lm1 !!! k) = pair_in_slot (lm2 !!! k)) ->
  recent_pairs lm1 m end_ bound = recent_pairs lm2 m end_ bound.
Proof.
  induction bound as [|b IH]; intros end_ H; simpl; [reflexivity|].
  rewrite H, (IH _ H); reflexivity.
Qed.

(** The pair [t] places back from [end_] sits in slot [end_ - 1 - t],
    cyclically. *)
Lemma recent_pairs_lookup lm bound : forall end_ t,
  (t < bound)%nat ->
  recent_pairs lm m end_ bound !! t
  = Some (pair_in_slot (lm !!! Z.to_nat ((end_ - 1 - Z.of_nat t) mod m))).
Proof.
  induction bound as [|b IH]; intros end_ t Ht; [lia|].
  destruct t as [|t]; cbn [recent_pairs].
  - cbn. rewrite Z.sub_0_r; reflexivity.
  - change ((?x :: ?l) !! S t) with (l !! t).
    rewrite IH by lia. do 4 f_equal.
    replace ((end_ - 1) mod m - 1 - Z.of_nat t)
      with ((end_ - 1) mod m - (1 + Z.of_nat t)) by lia.
    rewrite Zminus_mod_idemp_l. f_equal; lia.
Qed.

Lemma second_loop_snoc i : forall j lm d,
  0 <= j < m ->
  second_loop (S i) n m j lm d
  = let d1 := second_loop i n m j lm d in
    let it := lm !!! Z.to_nat ((j + Z.of_nat i) mod m) in
    vecadd d1 (it_s it)
      (it_alpha it - vecdot (it_y it) d1 n / it_ys it)%float n.
Proof.
  induction i as [|i IH]; intros j lm d Hj.
  - simpl. rewrite Z.add_0_r, Z.mod_small by lia. reflexivity.
  - change (second_loop (S (S i)) n m j lm d)
      with (second_loop (S i) n m (Z.rem (j + 1) m) lm
              (vecadd d (it_s (lm !!! Z.to_nat j))
                 (it_alpha (lm !!! Z.to_nat j)
                  - vecdot (it_y (lm !!! Z.to_nat j)) d n
                    / it_ys (lm !!! Z.to_nat j))%float n)).
    rewrite IH by (apply Z.rem_bound_pos; lia).
    assert (E : (Z.rem (j + 1) m + Z.of_nat i) mod m
                = (j + Z.of_nat (S i)) mod m).
    { rewrite next_slot, Zplus_mod_idemp_l by lia. f_equal; lia. }
    rewrite E. reflexivity.
Qed.

Lemma two_loop_refines i : forall j lm d j' lm' d',
  Z.of_nat i <= m -> 0 <= j < m ->
  length lm = Z.to_nat m -> Forall (slot_sized n) lm ->
  length d = Z.to_nat n ->
  first_loop i n m j lm d = (j', lm', d') ->
  exists alphas,
    first_pass (recent_pairs lm m j i) d = (alphas, d')
    /\ j' = (j - Z.of_nat i) mod m
    /\ (forall k, pair_in_slot (lm' !!! k) = pair_in_slot (lm !!! k))
    /\ (forall idx, 0 <= idx < m ->
          (forall t, 1 <= t <= Z.of_nat i -> idx <> (j - t) mod m) ->
          lm' !!! Z.to_nat idx = lm !!! Z.to_nat idx)
    /\ (forall D, length D = Z.to_nat n ->
          second_loop i n m j' lm' D
          = second_pass (recent_pairs lm m j i) alphas D).
Proof.
  induction i as [|i IH]; intros j lm d j' lm' d' Hi Hj Hlen Hlm Hd Hfl.
  - simpl in Hfl; inversion Hfl; subst. exists []; simpl.
    rewrite Z.sub_0_r, Z.mod_small by lia. repeat split; auto.
  - cbn [first_loop] in Hfl. rewrite prev_slot in Hfl by exact Hj.
    set (j1 := (j - 1) mod m) in *.
    assert (Hj1 : 0 <= j1 < m) by (apply Z.mod_pos_bound; lia).
    set (it := lm !!! Z.to_nat j1) in *.
    assert (Hit : slot_sized n it).
    { apply (Forall_lookup_total_1 _ _ _ Hlm); lia. }
    destruct Hit as [Hits Hity].
    rewrite (vecdot_dot n (it_s it) d Hits Hd) in Hfl.
    set (a := (dot (it_s it) d / it_ys it)%float) in *.
    rewrite (vecadd_minus n d (it_y it) a Hd Hity) in Hfl.
    set (lm1 := <[Z.to_nat j1 := {| it_alpha := a; it_s := it_s it;
                                     it_y := it_y it; it_ys := it_ys it |}]>
                  lm) in *.
    assert (Hpairs1 : forall k,
              pair_in_slot (lm1 !!! k) = pair_in_slot (lm !!! k)).
    { intros k. unfold lm1. rewrite list_lookup_total_insert.
      destruct (decide _) as [[<- _]|_]; reflexivity. }
    apply IH in Hfl; try lia.
    2:{ unfold lm1; rewrite length_insert; exact Hlen. }
    2:{ unfold lm1. apply Forall_lookup; intros t it' Ht.
        apply list_lookup_insert_Some in Ht as [(_ & <- & _)|(_ & Ht)].
        - split; assumption.
        - eapply Forall_lookup_1; eauto. }
    2:{ unfold vminus_scaled; apply zip_with_sized; assumption. }
    destruct Hfl as (al & Hfp & Hj' & Hpairs & Hframe & Hsecond).
    rewrite (recent_pairs_ext lm1 lm i j1 Hpairs1) in Hfp, Hsecond.
    assert (Hslot : lm' !!! Z.to_nat j1
                    = {| it_alpha := a; it_s := it_s it; it_y := it_y it;
                         it_ys := it_ys it |}).
    { rewrite Hframe; [|exact Hj1|].
      - unfold lm1. apply list_lookup_total_insert_eq. lia.
      - intros t Ht Heq. symmetry in Heq.
        apply (slot_distinct j1 t) in Heq; auto; lia. }
    exists (a :: al). cbn [recent_pairs first_pass second_pass].
    fold j1. fold it. cbn [pair_in_slot cp_s cp_y cp_ys].
    fold a. rewrite Hfp.
    split; [reflexivity|].
    split.
    { rewrite Hj'. unfold j1. rewrite Zminus_mod_idemp_l.
      f_equal; lia. }
    split; [intros k; rewrite Hpairs; apply Hpairs1|].
    split.
    { intros idx Hidx Hfree. rewrite Hframe; auto.
      - unfold lm1. apply list_lookup_total_insert_ne.
        intros Heq. apply (Hfree 1); [lia|].
        apply Z2Nat.inj in Heq; lia.
      - intros t Ht Heq. apply (Hfree (t + 1)); [lia|].
        rewrite Heq. unfold j1. rewrite Zminus_mod_idemp_l.
        f_equal; lia. }
    intros D HD.
    assert (Hj'b : 0 <= j' < m)
      by (rewrite Hj'; apply Z.mod_pos_bound; lia).
    rewrite second_loop_snoc by exact Hj'b. cbv zeta.
    assert (Hback : (j' + Z.of_nat i) mod m = j1).
    { rewrite Hj', Zplus_mod_idemp_l.
      replace (j1 - Z.of_nat i + Z.of_nat i) with j1 by lia.
      apply Z.mod_small; exact Hj1. }
    rewrite Hback, Hslot, (Hsecond D HD). cbn [it_s it_y it_ys it_alpha].
    assert (Hlen2 : length (second_pass (recent_pairs lm m j1 i) al D)
                    = Z.to_nat n).
    { rewrite <- (Hsecond D HD), second_loop_length; exact HD. }
    rewrite (vecdot_dot n _ _ Hity Hlen2).
    apply vecadd_plus; assumption.
Qed.

End TwoLoop.

(** The update of the memory and of the direction, in the vocabulary of
    the statements. *)
Lemma update_direction_spec {I : Type} n m (st : lbfgs_state I)
    x_new x_old g_new g_old pf fx w :
  0 < m ->
  length x_new = Z.to_nat n -> length x_old = Z.to_nat n ->
  length g_new = Z.to_nat n -> length g_old = Z.to_nat n ->
  length (st_d st) = Z.to_nat n ->
  length (st_lm st) = Z.to_nat m -> Forall (slot_sized n) (st_lm st) ->
  0 <= st_end st < m -> 1 <= st_k st ->
  let st' := update_direction n m st x_new x_old g_new g_old pf fx w in
  let s := vsub x_new x_old in
  let y := vsub g_new g_old in
  (exists alpha,
     st_lm st' !! Z.to_nat (st_end st)
     = Some {| it_alpha := alpha; it_s := s; it_y := y; it_ys := dot y s |})
  /\ (forall k, k <> Z.to_nat (st_end st) ->
        pair_in_slot (st_lm st' !!! k) = pair_in_slot (st_lm st !!! k))
  /\ st_end st' = (st_end st + 1) mod m
  /\ st_d st'
     = two_loop_direction
         (recent_pairs (st_lm st') m (st_end st')
            (Z.to_nat (Z.min (st_k st) m)))
         g_new.
Proof.
  intros Hm Hxn Hxo Hgn Hgo Hd Hlm Hslots Hend Hk.
  unfold update_direction, store_pair.
  set (it := st_lm st !!! Z.to_nat (st_end st)).
  assert (Hit : slot_sized n it)
    by (apply (Forall_lookup_total_1 _ _ _ Hslots); lia).
  destruct Hit as [Hits Hity].
  rewrite (vecdiff_vsub n (it_s it) x_new x_old Hits Hxn Hxo).
  rewrite (vecdiff_vsub n (it_y it) g_new g_old Hity Hgn Hgo).
  set (s := vsub x_new x_old). set (y := vsub g_new g_old).
  assert (Hs : length s = Z.to_nat n) by (apply zip_with_sized; auto).
  assert (Hy : length y = Z.to_nat n) by (apply zip_with_sized; auto).
  rewrite (vecdot_dot n y s Hy Hs), (vecdot_dot n y y Hy Hy).
  set (slot := {| it_alpha := it_alpha it; it_s := s; it_y := y;
                  it_ys := dot y s |}).
  set (lm1 := <[Z.to_nat (st_end st) := slot]> (st_lm st)).
  rewrite (vecncpy_vneg n (st_d st) g_new Hd Hgn).
  replace (if m <=? st_k st then m else st_k st) with (Z.min (st_k st) m)
    by (destruct (Z.leb_spec m (st_k st)); lia).
  set (bound := Z.to_nat (Z.min (st_k st) m)).
  rewrite (next_slot m Hm (st_end st)) by lia.
  set (end1 := (st_end st + 1) mod m).
  assert (Hend1 : 0 <= end1 < m) by (apply Z.mod_pos_bound; lia).
  assert (Hlm1 : length lm1 = Z.to_nat m)
    by (unfold lm1; rewrite length_insert; exact Hlm).
  assert (Hslots1 : Forall (slot_sized n) lm1).
  { apply slot_update_sized; auto. split; assumption. }
  assert (Hdn : length (vneg g_new) = Z.to_nat n)
    by (unfold vneg; rewrite length_map; exact Hgn).
  destruct (first_loop bound n m end1 lm1 (vneg g_new)) as [[j lm2] d1]
    eqn:Hfl.
  pose proof (first_loop_sized n m Hm bound end1 lm1 (vneg g_new) j lm2 d1
                Hend1 Hlm1 Hslots1 Hfl) as (_ & Hlm2 & _ & Hd1).
  destruct (two_loop_refines n m Hm bound end1 lm1 (vneg g_new) j lm2 d1)
    as (alphas & Hfp & _ & Hpairs & _ & Hsecond); auto.
  { unfold bound; lia. }
  cbn [st_lm st_end st_d].
  assert (Hback : (end1 - 1) mod m = st_end st).
  { unfold end1. rewrite Zminus_mod_idemp_l.
    replace (st_end st + 1 - 1) with (st_end st) by lia.
    apply Z.mod_small; exact Hend. }
  assert (Hslot1 : lm1 !!! Z.to_nat (st_end st) = slot).
  { unfold lm1. apply list_lookup_total_insert_eq. lia. }
  split.
  { exists (it_alpha (lm2 !!! Z.to_nat (st_end st))).
    rewrite (list_lookup_lookup_total_lt lm2) by lia. f_equal.
    pose proof (Hpairs (Z.to_nat (st_end st))) as Hp.
    rewrite Hslot1 in Hp. unfold pair_in_slot, slot in Hp; simpl in Hp.
    destruct (lm2 !!! Z.to_nat (st_end st)) as [a0 s0 y0 ys0]; simpl in *.
    inversion Hp; subst; reflexivity. }
  split.
  { intros k Hk'. rewrite Hpairs. unfold lm1.
    rewrite list_lookup_total_insert_ne by auto. reflexivity. }
  split; [reflexivity|].
  rewrite (recent_pairs_ext m lm2 lm1 bound end1 Hpairs).
  rewrite (vecscale_vscale n d1) by (rewrite Hd1; exact Hdn).
  rewrite Hsecond by (unfold vscale; rewrite length_map, Hd1; exact Hdn).
  unfold two_loop_direction. rewrite Hfp.
  assert (Hb : (1 <= bound)%nat) by (unfold bound; lia).
  destruct bound as [|b]; [lia|].
  cbn [recent_pairs]. rewrite Hback, Hslot1. reflexivity.
Qed.

(** C6: in a run that has reached pass number [k = j + 1].  The first pass
    starts from [d = - g] with the step guess [1 / |d|].  A pass that goes
    back to
    the loop test, where [x], [g] changed from [x_old], [g_old] to [x_new],
    [g_new], leaves in slot [end] of the memory the pair
    [s = x_new - x_old], [y = g_new - g_old], [ys = y . s] and leaves the
    pairs of the other slots alone; [end] becomes [(end + 1) mod m]; the
    new direction is the two-loop recursion of [g_new] over the
    [min(k, m)] most recent pairs; and the step guess of the next search
    is 1. *)
Theorem C6_history_and_direction {I : Type} j n x ev sb pp (inst : I)
    _param st st' :
  length x = Z.to_nat n ->
  lbfgs_reaches j n (param_or_default _param)
    (make_callback_data n ev sb pp) x (world_at_call inst) st ->
  st_k st = Z.of_nat j + 1
  /\ (j = 0%nat ->
   st_d st = vneg (st_g st)
   /\ st_step st = (1 / PrimFloat.sqrt (dot (st_d st) (st_d st)))%float)
  /\ (lbfgs_iteration n (mem_size (param_or_default _param))
        (param_or_default _param) (make_callback_data n ev sb pp) st
      = Some (Continue st') ->
      let m := mem_size (param_or_default _param) in
      let s := vsub (st_x st') (st_x st) in
      let y := vsub (st_g st') (st_g st) in
      (exists alpha,
         st_lm st' !! Z.to_nat (st_end st)
         = Some {| it_alpha := alpha; it_s := s; it_y := y;
                   it_ys := dot y s |})
      /\ (forall k, k <> Z.to_nat (st_end st) ->
            pair_in_slot (st_lm st' !!! k) = pair_in_slot (st_lm st !!! k))
      /\ st_end st' = (st_end st + 1) mod m
      /\ st_k st' = st_k st + 1
      /\ st_d st'
         = two_loop_direction
             (recent_pairs (st_lm st') m (st_end st')
                (Z.to_nat (Z.min (st_k st) m)))
             (st_g st')
      /\ st_step st' = 1.0%float).
Proof.
  intros Hx Hreach.
  destruct (lbfgs_reaches_sized _ _ _ _ _ _ _ Hx Hreach) as [Hsized Hk].
  pose proof Hreach as (Hchk & _ & Hp).
  apply check_parameters_sizes in Hchk as [_ Hm].
  split; [exact Hk|]. clear Hk.
  split.
  - intros ->. simpl in Hp. inversion Hp; subst st; clear Hp.
    unfold lbfgs_start.
    destruct (call_evaluate _ _ x (vecalloc n)) as [[w1 fx] g] eqn:E.
    apply call_evaluate_log in E as [_ Hg]. rewrite vecalloc_length in Hg.
    cbn [st_d st_g st_step].
    rewrite (vecncpy_vneg n (vecalloc n) g (vecalloc_length n) Hg).
    split; [reflexivity|]. unfold vec2norminv, vec2norm.
    rewrite vecdot_dot; [reflexivity| |];
      unfold vneg; rewrite length_map; exact Hg.
  - intros Hit.
    destruct Hsized as (Hsx & Hsxp & Hsg & Hsgp & Hsd & Hslm & Hslots
                        & Hend & Hk1 & _).
    apply lbfgs_iteration_continue in Hit
      as (r & w2 & Hs & _ & _ & _ & _ & _ & ->).
    apply lbfgs_search_lengths in Hs as [Hrx Hrg].
    rewrite (veccpy_whole (st_xp st) (st_x st) n Hsxp Hsx).
    rewrite (veccpy_whole (st_gp st) (st_g st) n Hsgp Hsg).
    pose proof (update_direction_fields n
                  (mem_size (param_or_default _param)) st (ls_x r) (st_x st)
                  (ls_g r) (st_g st)
                  (store_past (param_or_default _param) (st_pf st) (st_k st)
                     (ls_f r)) (ls_f r) w2)
      as (Fx & _ & Fg & _ & _ & _ & _ & Fk & Fstep & _).
    pose proof (update_direction_spec n
                  (mem_size (param_or_default _param)) st (ls_x r) (st_x st)
                  (ls_g r) (st_g st)
                  (store_past (param_or_default _param) (st_pf st) (st_k st)
                     (ls_f r)) (ls_f r) w2 Hm) as Hspec.
    cbv zeta in *. rewrite Fx, Fg.
    destruct Hspec as (H1 & H2 & H3 & H4); auto; try congruence.
    repeat split; auto.
Qed.

(** On [f(x) = x * x] from [x = 3]: the first pass moves to [x = 2], stores
    [s = -1], [y = -2], [ys = 2] in slot 0, and the next direction is
    [-2], the Newton step. *)
Lemma C6_history_and_direction_witness :
  exists st',
    lbfgs_iteration 1 8 _default_param
      (make_callback_data 1 eval_square None None)
      (lbfgs_start 1 8 _default_param
         (make_callback_data 1 eval_square None None) [3%float]
         sample_world)
    = Some (Continue st')
    /\ (exists alpha,
          st_lm st' !! 0%nat
          = Some {| it_alpha := alpha; it_s := [(-1)%float];
                    it_y := [(-2)%float]; it_ys := 2 |})
    /\ st_end st' = 1
    /\ st_d st' = [(-2)%float]
    /\ st_step st' = 1.0%float.
Proof.
  epose proof (C6_history_and_direction 0 1 [3%float] eval_square None None
                 tt None _ _ eq_refl) as H.
  destruct H as (_ & _ & H).
  - split; [reflexivity|]. split; [reflexivity|]. reflexivity.
  - eexists. split; [vm_compute; reflexivity|].
    edestruct H as (Hslot & _ & Hend & _ & Hd & Hstep);
      [vm_compute; reflexivity|].
    split; [exact Hslot|]. split; [exact Hend|].
    split; [|exact Hstep]. reflexivity.
Defined.

(** * Further properties of the code *)

(** ** Status descriptions *)

Ltac unfold_statuses :=
  cbv delta [LBFGS_CONVERGENCE LBFGS_STOP LBFGS_ALREADY_MINIMIZED
    LBFGSERR_UNKNOWNERROR LBFGSERR_LOGICERROR LBFGSERR_CANCELED
    LBFGSERR_INVALID_N LBFGSERR_INVALID_MEMSIZE LBFGSERR_INVALID_GEPSILON
    LBFGSERR_INVALID_TESTPERIOD LBFGSERR_INVALID_DELTA
    LBFGSERR_INVALID_MINSTEP LBFGSERR_INVALID_MAXSTEP
    LBFGSERR_INVALID_FDECCOEFF LBFGSERR_INVALID_SCURVCOEFF
    LBFGSERR_INVALID_XTOL LBFGSERR_INVALID_MAXLINESEARCH
    LBFGSERR_OUTOFINTERVAL LBFGSERR_INCORRECT_TMINMAX
    LBFGSERR_ROUNDING_ERROR LBFGSERR_MINIMUMSTEP LBFGSERR_MAXIMUMSTEP
    LBFGSERR_MAXIMUMLINESEARCH LBFGSERR_MAXIMUMITERATION
    LBFGSERR_WIDTHTOOSMALL LBFGSERR_INVALIDPARAMETERS
    LBFGSERR_INCREASEGRADIENT] in *.

Lemma known_status_cases err :
  known_status err = true ->
  In err [0; 1; 2; -1024; -1023; -1022; -1021; -1020; -1019; -1018; -1017;
          -1016; -1015; -1014; -1013; -1012; -1011; -1010; -1009; -1008;
          -1007; -1006; -1005; -1004; -1003; -1002; -1001].
Proof.
  unfold known_status. intros H.
  assert (Hr : 0 <= err <= 2 \/ -1024 <= err <= -1001) by lia.
  simpl. lia.
Qed.

(** X1: two different values of the enum never have the same
    description. *)
Theorem lbfgs_strerror_injective a b :
  known_status a = true -> known_status b = true ->
  lbfgs_strerror a = lbfgs_strerror b -> a = b.
Proof.
  intros Ha Hb Heq.
  apply known_status_cases in Ha, Hb.
  set (codes := [0; 1; 2; -1024; -1023; -1022; -1021; -1020; -1019; -1018;
                 -1017; -1016; -1015; -1014; -1013; -1012; -1011; -1010;
                 -1009; -1008; -1007; -1006; -1005; -1004; -1003; -1002;
                 -1001]) in *.
  assert (Htable :
    List.forallb
      (fun u => List.forallb
         (fun v => implb (String.eqb (lbfgs_strerror u) (lbfgs_strerror v))
                     (u =? v)) codes) codes = true)
    by (vm_compute; reflexivity).
  rewrite List.forallb_forall in Htable. specialize (Htable a Ha).
  rewrite List.forallb_forall in Htable. specialize (Htable b Hb).
  apply (proj2 (String.eqb_eq _ _)) in Heq. rewrite Heq in Htable.
  apply Z.eqb_eq. exact Htable.
Qed.

Lemma lbfgs_strerror_injective_witness :
  LBFGSERR_MINIMUMSTEP = LBFGSERR_MINIMUMSTEP.
Proof.
  apply (lbfgs_strerror_injective LBFGSERR_MINIMUMSTEP LBFGSERR_MINIMUMSTEP);
    reflexivity.
Defined.

(** X2: the description is ["(unknown)"] exactly for the integers that are
    not values of the enum. *)
Theorem lbfgs_strerror_unknown err :
  lbfgs_strerror err = "(unknown)"%string <-> known_status err = false.
Proof.
  split.
  - intros Heq. destruct (known_status err) eqn:Hk; [|reflexivity].
    exfalso. apply known_status_cases in Hk. simpl in Hk.
    repeat (destruct Hk as [<-|Hk]; [vm_compute in Heq; discriminate|]).
    exact Hk.
  - unfold known_status. intros Hk.
    assert (Hr : ~ (0 <= err <= 2) /\ ~ (-1024 <= err <= -1001)) by lia.
    unfold lbfgs_strerror. unfold_statuses.
    repeat match goal with
           | |- context [err =? ?c] =>
               destruct (Z.eqb_spec err c); [exfalso; lia|]
           end.
    reflexivity.
Qed.

(** ** Vector primitives: which cells are read and written *)

Lemma vec_loop2_lookup f n : forall y x i,
  vec_loop2 f y x n !! i
  = match y !! i, x !! i with
    | Some a, Some b => if (i <? n)%nat then Some (f a b) else Some a
    | r, _ => r
    end.
Proof.
  induction n as [|n IH]; intros y x i.
  - destruct y; simpl; [reflexivity|].
    destruct (_ !! i), (x !! i); reflexivity.
  - destruct y as [|yi y], x as [|xi x], i as [|i]; simpl; try reflexivity.
    + destruct (y !! i); reflexivity.
    + rewrite IH. reflexivity.
Qed.

Lemma vecdiff_lookup n : forall z x y i,
  vecdiff_loop z x y n !! i
  = match z !! i, x !! i, y !! i with
    | Some c, Some a, Some b =>
        if (i <? n)%nat then Some (a - b)%float else Some c
    | r, _, _ => r
    end.
Proof.
  induction n as [|n IH]; intros z x y i.
  - destruct z; simpl; [reflexivity|].
    destruct (_ !! i), (x !! i), (y !! i); reflexivity.
  - destruct z as [|zi z], x as [|xi x], y as [|yi y], i as [|i]; simpl;
      try reflexivity;
      try (destruct (z !! i); try destruct (x !! i); reflexivity).
    rewrite IH. reflexivity.
Qed.

Lemma vecscale_lookup c n : forall y i,
  vecscale_loop y c n !! i
  = match y !! i with
    | Some a => if (i <? n)%nat then Some (a * c)%float else Some a
    | None => None
    end.
Proof.
  induction n as [|n IH]; intros y i.
  - destruct y; simpl; [reflexivity|]. destruct (_ !! i); reflexivity.
  - destruct y as [|yi y], i as [|i]; simpl; try reflexivity.
    rewrite IH. reflexivity.
Qed.

(** X3: cell [i < n] of the destination receives the value the C loop
    assigns to it: [x[i]], [-x[i]], [y[i] + c * x[i]], [x[i] - y[i]],
    [y[i] * c]. *)
Theorem vector_primitives_write n (y x z : list float) c i a b d :
  0 <= Z.of_nat i < n ->
  y !! i = Some a -> x !! i = Some b -> z !! i = Some d ->
  veccpy y x n !! i = Some b
  /\ vecncpy y x n !! i = Some (- b)%float
  /\ vecadd y x c n !! i = Some (a + c * b)%float
  /\ vecdiff z x y n !! i = Some (b - a)%float
  /\ vecscale y c n !! i = Some (a * c)%float.
Proof.
  intros Hi Hy Hx Hz.
  assert (Hlt : (i <? Z.to_nat n)%nat = true) by (apply Nat.ltb_lt; lia).
  unfold veccpy, vecncpy, vecadd, vecdiff, vecscale.
  rewrite !vec_loop2_lookup, vecdiff_lookup, vecscale_lookup.
  rewrite Hy, Hx, Hz, Hlt. repeat split.
Qed.

Lemma vector_primitives_write_witness :
  vecadd [1%float; 2%float] [3%float; 4%float] 2 2 !! 1%nat
  = Some (2 + 2 * 4)%float.
Proof.
  apply (vector_primitives_write 2 [1%float; 2%float] [3%float; 4%float]
           [0%float; 0%float] 2%float 1 2%float 4%float 0%float);
    [simpl; lia|reflexivity|reflexivity|reflexivity].
Defined.



(** Multiplication of binary64 values is commutative. *)
Lemma SFmul_comm prec emax x y : SFmul prec emax x y = SFmul prec emax y x.
Proof.
  destruct x as [sx|sx| |sx mx ex], y as [sy|sy| |sy my ey]; simpl;
    try reflexivity; try (rewrite xorb_comm; reflexivity).
  rewrite xorb_comm, Pos.mul_comm, Z.add_comm. reflexivity.
Qed.

Lemma float_mul_comm (a b : float) : (a * b)%float = (b * a)%float.
Proof.
  rewrite <- (SF2Prim_Prim2SF (a * b)), <- (SF2Prim_Prim2SF (b * a)).
  f_equal. rewrite !mul_spec. apply SFmul_comm.
Qed.

Lemma vecdot_loop_take n : forall acc x y,
  vecdot_loop acc x y n
  = fold_left (fun a p => (a + fst p * snd p)%float)
      (combine (take n x) (take n y)) acc.
Proof.
  induction n as [|n IH]; intros acc [|xi x] [|yi y]; simpl; auto;
    try (destruct (take n x); reflexivity).
Qed.

Lemma vecdot_loop_comm n : forall acc x y,
  vecdot_loop acc x y n = vecdot_loop acc y x n.
Proof.
  induction n as [|n IH]; intros acc [|xi x] [|yi y]; simpl; auto.
  rewrite float_mul_comm. apply IH.
Qed.

(** X5: [vecdot] reads the first [n] cells only (it is the left-to-right
    sum of their products, 0 when [n <= 0]) and does not depend on the order
    of its two vectors. *)
Theorem vecdot_cells_and_symmetry n (x y : list float) :
  vecdot x y n = dot (take (Z.to_nat n) x) (take (Z.to_nat n) y)
  /\ vecdot x y n = vecdot y x n
  /\ (n <= 0 -> vecdot x y n = 0%float).
Proof.
  unfold vecdot, dot. split; [apply vecdot_loop_take|].
  split; [apply vecdot_loop_comm|].
  intros Hn. replace (Z.to_nat n) with 0%nat by lia.
  destruct x, y; reflexivity.
Qed.



(** ** The initial point *)

Lemma lbfgs_optimize_at_minimizer {I : Type} fuel n x ptr_fx ev sb pp
    (inst : I) _param i1 fx gout :
  check_parameters n (param_or_default _param) = None ->
  ev inst x (vecalloc n) n = (i1, fx, gout) ->
  gradient_test (param_or_default _param) (vec2norm x n)
    (vec2norm (veccpy (vecalloc n) gout n) n) = true ->
  lbfgs_optimize fuel n x ptr_fx ev sb pp inst _param
  = Some {| ret := LBFGS_ALREADY_MINIMIZED; x_out := x;
            fx_out := match ptr_fx with
                      | Some _ => Some fx
                      | None => None
                      end;
            w_out := {| instance := i1;
                        calls := [EvEvaluate x fx
                                    (veccpy (vecalloc n) gout n)] |} |}.
Proof.
  intros Hchk Hev Hg. unfold lbfgs_optimize. rewrite Hchk.
  unfold lbfgs_main, lbfgs_start, call_evaluate, make_callback_data,
    world_at_call; simpl.
  rewrite Hev; simpl. rewrite Hg. reflexivity.
Qed.

(** X7: when the gradient test already holds at the initial point,
    [lbfgs_optimize] returns [LBFGS_ALREADY_MINIMIZED] after exactly one
    call, of the evaluator at [x]; [x] is returned as it was, [*ptr_fx]
    receives the value of that call, and the loop is never entered (no fuel
    is used). *)
Theorem lbfgs_already_minimized {I : Type} fuel n x ptr_fx ev sb pp
    (inst : I) _param i1 fx gout :
  check_parameters n (param_or_default _param) = None ->
  ev inst x (vecalloc n) n = (i1, fx, gout) ->
  gradient_test (param_or_default _param) (vec2norm x n)
    (vec2norm (veccpy (vecalloc n) gout n) n) = true ->
  lbfgs_optimize fuel n x ptr_fx ev sb pp inst _param
  = Some {| ret := LBFGS_ALREADY_MINIMIZED; x_out := x;
            fx_out := match ptr_fx with
                      | Some _ => Some fx
                      | None => None
                      end;
            w_out := {| instance := i1;
                        calls := [EvEvaluate x fx
                                    (veccpy (vecalloc n) gout n)] |} |}.
Proof. apply lbfgs_optimize_at_minimizer. Qed.

Lemma lbfgs_already_minimized_witness :
  lbfgs_optimize 0 1 [0%float] (Some 7%float) eval_square None None tt None
  = Some {| ret := LBFGS_ALREADY_MINIMIZED; x_out := [0%float];
            fx_out := Some 0%float;
            w_out := {| instance := tt;
                        calls := [EvEvaluate [0%float] 0 [0%float]] |} |}.
Proof.
  apply (lbfgs_already_minimized 0 1 [0%float] (Some 7%float) eval_square
           None None tt None tt 0%float [0%float]); reflexivity.
Defined.

(** ** Runs with an evaluator that is a function of [x] *)

Section PureEvaluator.

Context {I : Type}.
Variables (n m : Z) (param : lbfgs_parameter_t) (cd : callback_data_t I).
Variables (F : list float -> float) (G : list float -> list float).
Hypothesis cd_sized : cd_n cd = n.
Hypothesis ev_pure : evaluates (proc_evaluate cd) n F G.

Lemma call_evaluate_pure (w : world I) x g :
  length x = Z.to_nat n -> length g = Z.to_nat n ->
  call_evaluate cd w x g
  = ({| instance := instance w;
        calls := calls w ++ [EvEvaluate x (F x) (G x)] |}, F x, G x).
Proof.
  intros Hx Hg. unfold call_evaluate. rewrite cd_sized.
  destruct (ev_pure (instance w) x g Hx) as [Hev HG]. rewrite Hev.
  rewrite (veccpy_whole g (G x) n Hg HG). reflexivity.
Qed.

Lemma ls_trials_pure s xp stpmin stpmax finit dgtest fuel :
  forall count x g stp (w : world I) r,
    length x = Z.to_nat n -> length g = Z.to_nat n ->
    ls_trials fuel n s xp stpmin stpmax finit dgtest cd param count x g stp w
      = Some r ->
    ls_f r = F (ls_x r) /\ ls_g r = G (ls_x r).
Proof.
  induction fuel as [|fuel IH]; intros count x g stp w r Hx Hg; simpl;
    [discriminate|].
  assert (Hx1 : length (vecadd (veccpy x xp n) s stp n) = Z.to_nat n)
    by (rewrite vecadd_length, veccpy_length; exact Hx).
  rewrite call_evaluate_pure by assumption.
  destruct (finit + stp * dgtest <? F _)%float;
    [|intros H; injection H as <-; simpl; auto].
  destruct (stp <? stpmin)%float;
    [intros H; injection H as <-; simpl; auto|].
  destruct (stpmax <? stp)%float;
    [intros H; injection H as <-; simpl; auto|].
  destruct (max_linesearch param <=? count + 1);
    [intros H; injection H as <-; simpl; auto|].
  apply IH; [exact Hx1|].
  destruct (ev_pure (instance w) _ g Hx1) as [_ HG]. exact HG.
Qed.

(** Whatever its outcome, the search leaves in [f] and [g] the value and
    gradient of the point it leaves in [x]. *)
Lemma lbfgs_search_pure (st : lbfgs_state I) r :
  state_sized n m param st -> state_consistent F G st ->
  lbfgs_search n param cd st = Some r ->
  ls_f r = F (ls_x r) /\ ls_g r = G (ls_x r).
Proof.
  intros (Hx & _ & Hg & _) [Hfx Hgx]. unfold lbfgs_search.
  destruct (step_bounds param cd st) as [[w1 smax] s1].
  unfold line_search_backtracking.
  destruct (s1 <=? 0)%float; [intros H; injection H as <-; simpl; auto|].
  destruct (0 <? _)%float; [intros H; injection H as <-; simpl; auto|].
  apply ls_trials_pure; assumption.
Qed.

Lemma lbfgs_start_consistent x (w : world I) :
  length x = Z.to_nat n ->
  state_consistent F G (lbfgs_start n m param cd x w).
Proof.
  intros Hx. unfold lbfgs_start.
  rewrite call_evaluate_pure by (auto using vecalloc_length).
  split; reflexivity.
Qed.

Lemma lbfgs_iteration_consistent (st st' : lbfgs_state I) :
  state_sized n m param st -> state_consistent F G st ->
  lbfgs_iteration n m param cd st = Some (Continue st') ->
  state_consistent F G st'.
Proof.
  intros Hsized Hcons Hit.
  apply lbfgs_iteration_continue in Hit
    as (r & w2 & Hs & _ & _ & _ & _ & _ & ->).
  destruct (lbfgs_search_pure st r Hsized Hcons Hs) as [Hf Hg].
  destruct (update_direction_fields n m st (ls_x r)
              (veccpy (st_xp st) (st_x st) n) (ls_g r)
              (veccpy (st_gp st) (st_g st) n)
              (store_past param (st_pf st) (st_k st) (ls_f r)) (ls_f r) w2)
    as (Fx & _ & Fg & _ & _ & Ffx & _).
  unfold state_consistent. rewrite Fx, Fg, Ffx. split; assumption.
Qed.

(** The pass that leaves the loop: unless the search failed after a trial,
    [fx] and [g] are the value and gradient at the final [x]; and the
    status [LBFGS_CONVERGENCE] is only set when the gradient test holds
    there. *)
Lemma lbfgs_iteration_break_consistent (st st' : lbfgs_state I) r :
  0 < m ->
  state_sized n m param st -> state_consistent F G st ->
  lbfgs_iteration n m param cd st = Some (Break r st') ->
  (failed_trial_status r = false -> state_consistent F G st')
  /\ (r = LBFGS_CONVERGENCE ->
      gradient_test param (vec2norm (st_x st') n) (vec2norm (st_g st') n)
      = true).
Proof.
  intros Hm Hsized Hcons. unfold lbfgs_iteration.
  destruct (lbfgs_search n param cd st) as [res|] eqn:Hs; [|discriminate].
  destruct (lbfgs_search_pure st res Hsized Hcons Hs) as [Hf Hg].
  destruct (ls_ret res <? 0) eqn:Hneg.
  - intros H; injection H as <- <-. apply Z.ltb_lt in Hneg.
    split; [|intros Hr; rewrite Hr in Hneg; discriminate].
    intros Hstatus.
    destruct (lbfgs_iteration_failure n m param cd st res Hsized Hs Hneg)
      as (st1 & Hit & Hx1 & Hg1 & _ & _ & Hfx1 & _).
    unfold lbfgs_iteration in Hit. rewrite Hs in Hit.
    apply Z.ltb_lt in Hneg. rewrite Hneg in Hit.
    inversion Hit; subst st1; clear Hit.
    destruct Hcons as [Hcf Hcg].
    unfold state_consistent. rewrite Hx1, Hg1, Hfx1.
    split; [|exact Hcg].
    destruct (lbfgs_search_spec n m param cd st res Hsized Hs)
      as (w1 & smax & s1 & _ & Hcases).
    destruct Hcases as [(_ & _ & Hfs & _)|(evs & _ & Hlen & _ & _ & _ & Hend)];
      [congruence|].
    exfalso. apply Z.ltb_lt in Hneg.
    destruct Hend as [[Hret _]|[Hret _]]; [lia|].
    unfold failed_trial_status in Hstatus.
    destruct Hret as [Hr|[Hr|Hr]]; rewrite Hr in Hstatus; discriminate.
  - destruct (report_progress n cd st res) as [w2 answer].
    destruct (answer =? 0) eqn:Ha; simpl negb; cbv iota.
    + destruct (gradient_test _ _ _) eqn:Hgt.
      { intros H; injection H as <- <-; simpl.
        split; [intros _; split; assumption|intros _; exact Hgt]. }
      destruct (stopping_test _ _ _ _).
      { intros H; injection H as <- <-; simpl.
        split; [intros _; split; assumption|discriminate]. }
      destruct (iteration_cap _ _); [|discriminate].
      intros H; injection H as <- <-; simpl.
      split; [intros _; split; assumption|discriminate].
    + intros H; injection H as <- <-; simpl.
      split; [intros _; split; assumption|].
      intros Hr; rewrite Hr in Ha; discriminate.
Qed.

Lemma lbfgs_loop_consistent fuel : forall (st st' : lbfgs_state I) r,
  0 < m ->
  state_sized n m param st -> state_consistent F G st ->
  lbfgs_loop fuel n m param cd st = Some (r, st') ->
  (failed_trial_status r = false -> state_consistent F G st')
  /\ (r = LBFGS_CONVERGENCE ->
      gradient_test param (vec2norm (st_x st') n) (vec2norm (st_g st') n)
      = true).
Proof.
  induction fuel as [|fuel IH]; intros st st' r Hm Hsized Hcons; simpl;
    [discriminate|].
  destruct (lbfgs_iteration n m param cd st) as [[st1|r1 st1]|] eqn:Hit;
    try discriminate.
  - apply IH; auto.
    + eapply lbfgs_iteration_sized; eauto.
    + eapply lbfgs_iteration_consistent; eauto.
  - intros H; injection H as <- <-.
    eapply lbfgs_iteration_break_consistent; eauto.
Qed.

End PureEvaluator.

Lemma check_parameters_invalid n param err :
  check_parameters n param = Some err -> is_invalid_status err = true.
Proof.
  unfold check_parameters.
  repeat match goal with
         | |- context [if ?b then _ else _] => destruct b
         end; intros H; inversion H; reflexivity.
Qed.

(** X8: with an evaluator that is a function of [x], whenever
    [lbfgs_optimize] gets past the parameter checks and returns a status
    other than [LBFGSERR_MINIMUMSTEP], [LBFGSERR_MAXIMUMSTEP] and
    [LBFGSERR_MAXIMUMLINESEARCH], the value written to [*ptr_fx] is the
    objective at the returned [x]. *)
Theorem lbfgs_final_value {I : Type} fuel n x v F G ev sb pp (inst : I)
    _param res :
  evaluates ev n F G ->
  length x = Z.to_nat n ->
  check_parameters n (param_or_default _param) = None ->
  lbfgs_optimize fuel n x (Some v) ev sb pp inst _param = Some res ->
  failed_trial_status (ret res) = false ->
  fx_out res = Some (F (x_out res)).
Proof.
  intros Hev Hx Hchk. unfold lbfgs_optimize. rewrite Hchk.
  pose proof (check_parameters_sizes _ _ Hchk) as [_ Hm].
  unfold lbfgs_main.
  set (cd := make_callback_data n ev sb pp).
  set (st0 := lbfgs_start n _ _ cd x (world_at_call inst)).
  assert (Hcons : state_consistent F G st0)
    by (apply (lbfgs_start_consistent n); [reflexivity|exact Hev|exact Hx]).
  assert (Hsized : state_sized n (mem_size (param_or_default _param))
                     (param_or_default _param) st0)
    by (apply lbfgs_start_sized; assumption).
  destruct (gradient_test _ _ _).
  - intros H; injection H as <-; simpl. intros _.
    destruct Hcons as [-> _]; reflexivity.
  - destruct (lbfgs_loop _ _ _ _ _ _) as [[r st']|] eqn:Hloop;
      [|discriminate].
    intros H; injection H as <-; simpl. intros Hr.
    destruct (lbfgs_loop_consistent n _ _ cd F G eq_refl Hev fuel st0 st' r
                Hm Hsized Hcons Hloop) as [Hc _].
    destruct (Hc Hr) as [-> _]; reflexivity.
Qed.

Lemma eval_sum_squares_evaluates n :
  evaluates eval_sum_squares n (fun x => dot x x)
    (fun x => map (fun a => (2 * a)%float) x).
Proof.
  intros i x g Hx. split; [reflexivity|]. rewrite length_map; exact Hx.
Qed.

Lemma lbfgs_final_value_witness :
  exists res,
    lbfgs_optimize 2 1 [3%float] (Some 7%float) eval_sum_squares None None tt
      None = Some res
    /\ fx_out res = Some (dot (x_out res) (x_out res)).
Proof.
  eexists. split; [vm_compute; reflexivity|].
  apply (lbfgs_final_value 2 1 [3%float] 7%float (fun x => dot x x)
           (fun x => map (fun a => (2 * a)%float) x)
           eval_sum_squares None None tt None).
  - apply eval_sum_squares_evaluates.
  - reflexivity.
  - reflexivity.
  - vm_compute; reflexivity.
  - reflexivity.
Defined.

Lemma vecdot_cells_and_symmetry_witness :
  vecdot [1%float; 2%float] [3%float; 4%float] 0 = 0%float.
Proof.
  apply (proj2 (proj2 (vecdot_cells_and_symmetry 0 [1%float; 2%float]
                         [3%float; 4%float]))).
  lia.
Defined.

(** ** Starting again from a point of convergence *)

Lemma lbfgs_iteration_break_length {I : Type} n m param
    (cd : callback_data_t I) st r st' :
  lbfgs_iteration n m param cd st = Some (Break r st') ->
  length (st_x st') = length (st_x st).
Proof.
  unfold lbfgs_iteration.
  destruct (lbfgs_search n param cd st) as [res|] eqn:Hs; [|discriminate].
  apply lbfgs_search_lengths in Hs as [Hrx _].
  destruct (ls_ret res <? 0).
  { intros H; injection H as <- <-; simpl. rewrite veccpy_length; exact Hrx. }
  destruct (report_progress n cd st res) as [w2 answer].
  destruct (negb (answer =? 0));
    [intros H; injection H as <- <-; exact Hrx|].
  destruct (gradient_test _ _ _);
    [intros H; injection H as <- <-; exact Hrx|].
  destruct (stopping_test _ _ _ _);
    [intros H; injection H as <- <-; exact Hrx|].
  destruct (iteration_cap _ _); [|discriminate].
  intros H; injection H as <- <-; exact Hrx.
Qed.

Lemma lbfgs_loop_length {I : Type} n m param (cd : callback_data_t I) fuel :
  forall st r st',
    0 < m ->
    state_sized n m param st ->
    lbfgs_loop fuel n m param cd st = Some (r, st') ->
    length (st_x st') = Z.to_nat n.
Proof.
  induction fuel as [|fuel IH]; intros st r st' Hm Hsized; simpl;
    [discriminate|].
  destruct (lbfgs_iteration n m param cd st) as [[st1|r1 st1]|] eqn:Hit;
    try discriminate.
  - apply IH; [exact Hm|]. eapply lbfgs_iteration_sized; eauto.
  - intros H; injection H as <- <-.
    rewrite (lbfgs_iteration_break_length _ _ _ _ _ _ _ Hit).
    apply Hsized.
Qed.

(** X9: with an evaluator that is a function of [x]: when a run returns
    [LBFGS_CONVERGENCE], a second call with the same parameters on the [x]
    it returned makes one evaluation, at that [x], and returns
    [LBFGS_ALREADY_MINIMIZED] without moving [x], whatever the step-bound
    provider, the progress callback and the user data of the second call
    are. *)
Theorem lbfgs_restart_at_convergence {I : Type} fuel fuel' n x ptr_fx ptr_fx'
    F G ev sb pp sb' pp' (inst inst' : I) _param res :
  evaluates ev n F G ->
  length x = Z.to_nat n ->
  lbfgs_optimize fuel n x ptr_fx ev sb pp inst _param = Some res ->
  ret res = LBFGS_CONVERGENCE ->
  lbfgs_optimize fuel' n (x_out res) ptr_fx' ev sb' pp' inst' _param
  = Some {| ret := LBFGS_ALREADY_MINIMIZED; x_out := x_out res;
            fx_out := match ptr_fx' with
                      | Some _ => Some (F (x_out res))
                      | None => None
                      end;
            w_out := {| instance := inst';
                        calls := [EvEvaluate (x_out res) (F (x_out res))
                                    (G (x_out res))] |} |}.
Proof.
  intros Hev Hx Hrun Hret.
  destruct (check_parameters n (param_or_default _param)) as [err|] eqn:Hchk.
  { exfalso. unfold lbfgs_optimize in Hrun. rewrite Hchk in Hrun.
    injection Hrun as <-. simpl in Hret.
    apply check_parameters_invalid in Hchk.
    rewrite Hret in Hchk; discriminate. }
  pose proof (check_parameters_sizes _ _ Hchk) as [Hn Hm].
  assert (Hfinal : length (x_out res) = Z.to_nat n
                   /\ gradient_test (param_or_default _param)
                        (vec2norm (x_out res) n)
                        (vec2norm (G (x_out res)) n) = true).
  { unfold lbfgs_optimize in Hrun. rewrite Hchk in Hrun.
    unfold lbfgs_main in Hrun.
    set (cd := make_callback_data n ev sb pp) in *.
    set (st0 := lbfgs_start n _ _ cd x (world_at_call inst)) in *.
    assert (Hcons : state_consistent F G st0)
      by (apply (lbfgs_start_consistent n); [reflexivity|exact Hev|exact Hx]).
    assert (Hsized : state_sized n (mem_size (param_or_default _param))
                       (param_or_default _param) st0)
      by (apply lbfgs_start_sized; assumption).
    destruct (gradient_test _ _ _) eqn:Hgt.
    - injection Hrun as <-; simpl in Hret. discriminate.
    - destruct (lbfgs_loop _ _ _ _ _ _) as [[r st']|] eqn:Hloop;
        [|discriminate].
      injection Hrun as <-; simpl in *.
      destruct (lbfgs_loop_consistent n _ _ cd F G eq_refl Hev fuel st0 st'
                  r Hm Hsized Hcons Hloop) as [Hc Hconv].
      rewrite Hret in Hc. destruct (Hc eq_refl) as [_ Hg].
      rewrite <- Hg.
      split; [eapply lbfgs_loop_length; eauto|apply Hconv; exact Hret]. }
  destruct Hfinal as [Hlen Hgt].
  destruct (Hev inst' (x_out res) (vecalloc n) Hlen) as [Hcall HG].
  rewrite (lbfgs_optimize_at_minimizer fuel' n (x_out res) ptr_fx' ev sb' pp'
             inst' _param inst' (F (x_out res)) (G (x_out res)) Hchk Hcall);
    rewrite (veccpy_whole (vecalloc n) (G (x_out res)) n
               (vecalloc_length n) HG); [reflexivity|exact Hgt].
Qed.

Lemma lbfgs_restart_at_convergence_witness :
  exists res,
    lbfgs_optimize 20 2 [3%float; 1%float] (Some 7%float) eval_sum_squares
      None None tt None = Some res
    /\ lbfgs_optimize 0 2 (x_out res) None eval_sum_squares
         (Some bound_eighth) (Some keep_going) tt None
       = Some {| ret := LBFGS_ALREADY_MINIMIZED; x_out := x_out res;
                 fx_out := None;
                 w_out := {| instance := tt;
                             calls := [EvEvaluate (x_out res)
                                         (dot (x_out res) (x_out res))
                                         (map (fun a => (2 * a)%float)
                                            (x_out res))] |} |}.
Proof.
  eexists. split; [vm_compute; reflexivity|].
  apply (lbfgs_restart_at_convergence 20 0 2 [3%float; 1%float]
           (Some 7%float) None (fun x => dot x x)
           (fun x => map (fun a => (2 * a)%float) x)
           eval_sum_squares None None (Some bound_eighth) (Some keep_going)
           tt tt None).
  - apply eval_sum_squares_evaluates.
  - reflexivity.
  - vm_compute; reflexivity.
  - reflexivity.
Defined.

(** ** The statuses a run can return *)

Lemma lbfgs_search_ret_cases {I : Type} n param (cd : callback_data_t I)
    st r :
  lbfgs_search n param cd st = Some r ->
  1 <= ls_ret r
  \/ ls_ret r = LBFGSERR_INVALIDPARAMETERS
  \/ ls_ret r = LBFGSERR_INCREASEGRADIENT
  \/ ls_ret r = LBFGSERR_MINIMUMSTEP
  \/ ls_ret r = LBFGSERR_MAXIMUMSTEP
  \/ ls_ret r = LBFGSERR_MAXIMUMLINESEARCH.
Proof.
  unfold lbfgs_search. destruct (step_bounds param cd st) as [[w1 smax] s1].
  unfold line_search_backtracking.
  destruct (s1 <=? 0)%float; [intros H; injection H as <-; simpl; auto|].
  destruct (0 <? _)%float; [intros H; injection H as <-; simpl; auto|].
  intros H. apply ls_trials_ret in H; [|lia]. tauto.
Qed.

Lemma lbfgs_iteration_own_status {I : Type} n m param
    (cd : callback_data_t I) st r st' :
  lbfgs_iteration n m param cd st = Some (Break r st') ->
  own_status r = true
  \/ (r <> 0 /\ proc_progress cd <> None
      /\ reported (calls (st_w st')) r).
Proof.
  unfold lbfgs_iteration.
  destruct (lbfgs_search n param cd st) as [res|] eqn:Hs; [|discriminate].
  destruct (ls_ret res <? 0) eqn:Hneg.
  { intros H; injection H as <- <-. left.
    apply Z.ltb_lt in Hneg.
    destruct (lbfgs_search_ret_cases _ _ _ _ _ Hs)
      as [Hr|[Hr|[Hr|[Hr|[Hr|Hr]]]]]; [lia|..]; rewrite Hr; reflexivity. }
  destruct (report_progress n cd st res) as [w2 answer] eqn:Hrp.
  apply report_progress_log in Hrp.
  destruct (answer =? 0) eqn:Ha; simpl negb; cbv iota.
  - destruct (gradient_test _ _ _);
      [intros H; injection H as <- <-; left; reflexivity|].
    destruct (stopping_test _ _ _ _);
      [intros H; injection H as <- <-; left; reflexivity|].
    destruct (iteration_cap _ _); [|discriminate].
    intros H; injection H as <- <-; left; reflexivity.
  - intros H; injection H as <- <-; simpl. right.
    apply Z.eqb_neq in Ha. split; [exact Ha|].
    destruct (proc_progress cd).
    + split; [discriminate|].
      rewrite Hrp. unfold reported. rewrite last_snoc. repeat eexists.
    + destruct Hrp as [_ ->]; congruence.
Qed.

Lemma lbfgs_loop_own_status {I : Type} n m param (cd : callback_data_t I)
    fuel :
  forall st r st',
    lbfgs_loop fuel n m param cd st = Some (r, st') ->
    own_status r = true
    \/ (r <> 0 /\ proc_progress cd <> None
        /\ reported (calls (st_w st')) r).
Proof.
  induction fuel as [|fuel IH]; intros st r st'; simpl; [discriminate|].
  destruct (lbfgs_iteration n m param cd st) as [[st1|r1 st1]|] eqn:Hit;
    try discriminate.
  - apply IH.
  - intros H; injection H as <- <-.
    eapply lbfgs_iteration_own_status; eauto.
Qed.

(** X10: the status [lbfgs_optimize] returns is one of those the code
    assigns itself: a rejected argument, [LBFGS_CONVERGENCE], [LBFGS_STOP],
    [LBFGS_ALREADY_MINIMIZED], [LBFGSERR_MAXIMUMITERATION] or one of the
    five failures of the backtracking search; or else it is the non-zero
    answer of the progress callback, which is then the last call made.  In
    particular the positive count a successful search returns is never the
    status of the run, and the statuses of the enum that belong to other
    line searches ([LBFGSERR_OUTOFINTERVAL], [LBFGSERR_ROUNDING_ERROR],
    ...) as well as [LBFGSERR_UNKNOWNERROR], [LBFGSERR_LOGICERROR] and
    [LBFGSERR_CANCELED] can only come from the client. *)
Theorem lbfgs_returned_status {I : Type} fuel n x ptr_fx ev sb pp
    (inst : I) _param res :
  lbfgs_optimize fuel n x ptr_fx ev sb pp inst _param = Some res ->
  (own_status (ret res) = true
   \/ (ret res <> 0 /\ reported (calls (w_out res)) (ret res)))
  /\ (pp = None -> own_status (ret res) = true).
Proof.
  unfold lbfgs_optimize.
  destruct (check_parameters n (param_or_default _param)) as [err|] eqn:Hchk.
  { intros H; injection H as <-; simpl.
    apply check_parameters_invalid in Hchk.
    unfold own_status. rewrite Hchk. split; [left|intros _]; reflexivity. }
  unfold lbfgs_main.
  destruct (gradient_test _ _ _).
  { intros H; injection H as <-; simpl.
    split; [left|intros _]; reflexivity. }
  destruct (lbfgs_loop _ _ _ _ _ _) as [[r st']|] eqn:Hloop; [|discriminate].
  intros H; injection H as <-; simpl.
  destruct (lbfgs_loop_own_status _ _ _ _ _ _ _ _ Hloop)
    as [Hown|(Hr & Hpp & Hrep)].
  - split; [left; exact Hown|intros _; exact Hown].
  - split; [right; split; assumption|].
    intros ->. exfalso. apply Hpp. reflexivity.
Qed.

Lemma lbfgs_returned_status_witness :
  exists res,
    lbfgs_optimize 20 1 [3%float] (Some 7%float) eval_sum_squares None None tt
      None = Some res
    /\ own_status (ret res) = true.
Proof.
  eexists. split; [vm_compute; reflexivity|].
  refine (proj2 (lbfgs_returned_status 20 1 [3%float] (Some 7%float)
                   eval_sum_squares None None tt None _ _) eq_refl).
  vm_compute; reflexivity.
Defined.

(** ** Termination under the iteration cap, and the number of calls *)

Lemma stepbound_calls_app l1 l2 :
  stepbound_calls (l1 ++ l2) = stepbound_calls l1 + stepbound_calls l2.
Proof.
  unfold stepbound_calls. rewrite List.filter_app, length_app. lia.
Qed.

Lemma stepbound_calls_evaluate l :
  List.forallb is_evaluate l = true -> stepbound_calls l = 0.
Proof.
  unfold stepbound_calls; induction l as [|e l IH]; simpl; auto.
  intros H; apply andb_prop in H as [He Hl].
  destruct e; simpl in *; try discriminate; auto.
Qed.

Lemma check_parameters_max_linesearch n param :
  check_parameters n param = None -> 0 < max_linesearch param.
Proof.
  unfold check_parameters.
  repeat match goal with
         | |- context [if ?b then _ else _] => destruct b eqn:?
         end; try discriminate.
  intros _; lia.
Qed.

Section Budget.

Context {I : Type}.
Variables (n m : Z) (param : lbfgs_parameter_t) (cd : callback_data_t I).
Hypothesis m_pos : 0 < m.
Hypothesis ls_pos : 0 < max_linesearch param.

Lemma step_bounds_calls (st : lbfgs_state I) w1 smax s1 :
  step_bounds param cd st = (w1, smax, s1) ->
  exists evs,
    calls w1 = calls (st_w st) ++ evs
    /\ evaluations evs = 0
    /\ stepbound_calls evs = match proc_stepbound cd with
                             | Some _ => 1
                             | None => 0
                             end.
Proof.
  unfold step_bounds, call_stepbound.
  destruct (proc_stepbound cd) as [sb|].
  - destruct (sb _ _ _ _) as [i1 b]. intros H; injection H as <- _ _; simpl.
    eexists; split; [reflexivity|]. split; reflexivity.
  - intros H; injection H as <- _ _. exists []; rewrite app_nil_r.
    repeat split.
Qed.

Lemma line_search_calls x f g stp s xp gp stpmin stpmax (w : world I) r :
  length x = Z.to_nat n -> length xp = Z.to_nat n ->
  line_search_backtracking n x f g stp s xp gp stpmin stpmax cd param w
    = Some r ->
  exists evs,
    calls (ls_w r) = calls w ++ evs
    /\ List.forallb is_evaluate evs = true
    /\ Z.of_nat (length evs) <= max_linesearch param.
Proof.
  intros Hx Hxp. unfold line_search_backtracking.
  destruct (stp <=? 0)%float.
  { intros H; injection H as <-; simpl. exists []; rewrite app_nil_r.
    repeat split; simpl; lia. }
  destruct (0 <? _)%float.
  { intros H; injection H as <-; simpl. exists []; rewrite app_nil_r.
    repeat split; simpl; lia. }
  intros Hs.
  match type of Hs with
  | ls_trials ?fu _ ?s ?xp ?a ?b ?fi ?dg _ _ ?c ?x ?g ?stp ?w = _ =>
      destruct (ls_trials_spec n s xp a b fi dg cd param fu c x g stp w)
        as (r' & evs & Hrun & Hcalls & _ & Hbudget & _ & _ & _ & Hevs & _);
        auto; [rewrite Z.sub_0_r; lia|]
  end.
  rewrite Hrun in Hs; injection Hs as <-.
  exists evs. split; [exact Hcalls|]. split; [|lia].
  apply forallb_lookup; intros i e He.
  destruct (Hevs i e He) as (fi & gi & -> & _); reflexivity.
Qed.

(** The calls of one search: at most one of the step-bound provider, then
    at most [max_linesearch] of the evaluator, none of the progress
    callback. *)
Lemma lbfgs_search_calls (st : lbfgs_state I) r :
  state_sized n m param st ->
  lbfgs_search n param cd st = Some r ->
  evaluations (calls (ls_w r))
  <= evaluations (calls (st_w st)) + max_linesearch param
  /\ progress_reports (calls (ls_w r)) = progress_reports (calls (st_w st))
  /\ stepbound_calls (calls (ls_w r))
     <= stepbound_calls (calls (st_w st)) + 1.
Proof.
  intros Hsized Hs.
  pose proof (lbfgs_search_progress n m param cd st r Hsized Hs) as Hpr.
  destruct Hsized as (Hx & Hxp & Hg & Hgp & _). revert Hs.
  unfold lbfgs_search.
  destruct (step_bounds param cd st) as [[w1 smax] s1] eqn:Hsb.
  apply step_bounds_calls in Hsb as (sbev & Hw1 & Hev0 & Hsbn).
  intros Hs. apply line_search_calls in Hs as (evs & Hcalls & Hall & Hlen);
    [|exact Hx|rewrite veccpy_length; exact Hxp].
  split; [|split; [exact Hpr|]];
    rewrite Hcalls, Hw1.
  - rewrite !evaluations_app, Hev0, (evaluations_all evs Hall). lia.
  - rewrite !stepbound_calls_app, (stepbound_calls_evaluate evs Hall), Hsbn.
    destruct (proc_stepbound cd); lia.
Qed.

(** The calls of one pass through the loop body, however it ends. *)
Lemma lbfgs_iteration_calls (st : lbfgs_state I) o :
  state_sized n m param st ->
  lbfgs_iteration n m param cd st = Some o ->
  let st' := match o with Continue s => s | Break _ s => s end in
  evaluations (calls (st_w st'))
  <= evaluations (calls (st_w st)) + max_linesearch param
  /\ progress_reports (calls (st_w st'))
     <= progress_reports (calls (st_w st)) + 1
  /\ stepbound_calls (calls (st_w st'))
     <= stepbound_calls (calls (st_w st)) + 1.
Proof.
  intros Hsized. unfold lbfgs_iteration.
  destruct (lbfgs_search n param cd st) as [r|] eqn:Hs; [|discriminate].
  destruct (lbfgs_search_calls st r Hsized Hs) as (He & Hp & Hb).
  destruct (ls_ret r <? 0).
  { intros H; injection H as <-; simpl. lia. }
  destruct (report_progress n cd st r) as [w2 answer] eqn:Hrp.
  apply report_progress_log in Hrp.
  assert (Hw2 : evaluations (calls w2) = evaluations (calls (ls_w r))
                /\ progress_reports (calls w2)
                   <= progress_reports (calls (ls_w r)) + 1
                /\ stepbound_calls (calls w2)
                   = stepbound_calls (calls (ls_w r))).
  { destruct (proc_progress cd).
    - rewrite Hrp, evaluations_app, progress_reports_app,
        stepbound_calls_app.
      unfold evaluations, progress_reports, stepbound_calls; simpl. lia.
    - destruct Hrp as [-> _]. lia. }
  destruct Hw2 as (He2 & Hp2 & Hb2).
  destruct (negb (answer =? 0));
    [intros H; injection H as <-; simpl; lia|].
  destruct (gradient_test _ _ _);
    [intros H; injection H as <-; simpl; lia|].
  destruct (stopping_test _ _ _ _);
    [intros H; injection H as <-; simpl; lia|].
  destruct (iteration_cap _ _);
    [intros H; injection H as <-; simpl; lia|].
  intros H; injection H as <-.
  destruct (update_direction_fields n m st (ls_x r)
              (veccpy (st_xp st) (st_x st) n) (ls_g r)
              (veccpy (st_gp st) (st_g st) n)
              (store_past param (st_pf st) (st_k st) (ls_f r)) (ls_f r) w2)
    as (_ & _ & _ & _ & _ & _ & Hw & _).
  cbv zeta. rewrite Hw. lia.
Qed.

(** With a positive [max_iterations] the loop ends within
    [max_iterations - k + 1] passes of a state at pass [k]. *)
Lemma lbfgs_loop_terminates fuel : forall (st : lbfgs_state I),
  state_sized n m param st ->
  st_k st <= max_iterations param ->
  (Z.to_nat (max_iterations param - st_k st + 1) <= fuel)%nat ->
  exists r st',
    lbfgs_loop fuel n m param cd st = Some (r, st')
    /\ evaluations (calls (st_w st'))
       <= evaluations (calls (st_w st))
          + (max_iterations param - st_k st + 1) * max_linesearch param
    /\ progress_reports (calls (st_w st'))
       <= progress_reports (calls (st_w st))
          + (max_iterations param - st_k st + 1)
    /\ stepbound_calls (calls (st_w st'))
       <= stepbound_calls (calls (st_w st))
          + (max_iterations param - st_k st + 1).
Proof.
  induction fuel as [|fuel IH]; intros st Hsized Hk Hfuel; [lia|].
  simpl.
  destruct (lbfgs_iteration_total n m param cd st Hsized) as [o Hit].
  rewrite Hit.
  pose proof (lbfgs_iteration_calls st o Hsized Hit) as Hcalls.
  destruct o as [st1|r1 st1]; cbv zeta in Hcalls.
  - pose proof (lbfgs_iteration_k n m param cd st st1 Hit) as Hk1.
    pose proof (lbfgs_iteration_sized n m param cd m_pos st st1 Hsized Hit)
      as Hsized1.
    apply lbfgs_iteration_continue in Hit
      as (_ & _ & _ & _ & _ & _ & _ & Hcap & _).
    unfold iteration_cap in Hcap.
    assert (Hk' : st_k st1 <= max_iterations param).
    { destruct (max_iterations param =? 0) eqn:E0;
        [apply Z.eqb_eq in E0; destruct Hsized as (_&_&_&_&_&_&_&_&?&_); lia|].
      simpl in Hcap. apply Z.ltb_ge in Hcap. lia. }
    destruct (IH st1 Hsized1 Hk') as (r & st' & Hloop & He & Hp & Hb);
      [lia|].
    exists r, st'. split; [exact Hloop|]. rewrite Hk1 in *.
    destruct Hcalls as (He1 & Hp1 & Hb1).
    repeat split; nia.
  - exists r1, st1. split; [reflexivity|].
    destruct Hcalls as (He1 & Hp1 & Hb1).
    repeat split; nia.
Qed.

End Budget.

Lemma lbfgs_start_calls {I : Type} n m param (cd : callback_data_t I) x
    (inst : I) :
  let st0 := lbfgs_start n m param cd x (world_at_call inst) in
  evaluations (calls (st_w st0)) = 1
  /\ progress_reports (calls (st_w st0)) = 0
  /\ stepbound_calls (calls (st_w st0)) = 0
  /\ st_k st0 = 1.
Proof.
  unfold lbfgs_start.
  destruct (call_evaluate cd (world_at_call inst) x (vecalloc n))
    as [[w1 fx] g] eqn:E.
  apply call_evaluate_log in E as [E _]. simpl. rewrite E.
  repeat split.
Qed.

(** X11: with a positive [max_iterations], accepted parameters and an
    [n]-vector [x], [lbfgs_optimize] returns, after at most
    [max_iterations] passes through its loop, whatever the callbacks
    compute: it makes at most [1 + max_iterations * max_linesearch] calls of
    the evaluator and at most [max_iterations] calls each of the progress
    callback and of the step-bound provider. *)
Theorem lbfgs_terminates_under_cap {I : Type} fuel n x ptr_fx ev sb pp
    (inst : I) _param :
  let param := param_or_default _param in
  check_parameters n param = None ->
  length x = Z.to_nat n ->
  0 < max_iterations param ->
  (Z.to_nat (max_iterations param) <= fuel)%nat ->
  exists res,
    lbfgs_optimize fuel n x ptr_fx ev sb pp inst _param = Some res
    /\ evaluations (calls (w_out res))
       <= 1 + max_iterations param * max_linesearch param
    /\ progress_reports (calls (w_out res)) <= max_iterations param
    /\ stepbound_calls (calls (w_out res)) <= max_iterations param.
Proof.
  intros param Hchk Hx Hcap Hfuel. unfold lbfgs_optimize.
  fold param. rewrite Hchk.
  pose proof (check_parameters_sizes _ _ Hchk) as [_ Hm].
  pose proof (check_parameters_max_linesearch _ _ Hchk) as Hls.
  unfold lbfgs_main.
  set (cd := make_callback_data n ev sb pp).
  pose proof (lbfgs_start_calls n (mem_size param) param cd x inst)
    as (He0 & Hp0 & Hb0 & Hk0).
  assert (Hsized : state_sized n (mem_size param) param
                     (lbfgs_start n (mem_size param) param cd x
                        (world_at_call inst)))
    by (apply lbfgs_start_sized; assumption).
  set (st0 := lbfgs_start n (mem_size param) param cd x (world_at_call inst))
    in *.
  destruct (gradient_test _ _ _).
  { eexists; split; [reflexivity|]; simpl. nia. }
  destruct (lbfgs_loop_terminates n (mem_size param) param cd Hm Hls fuel st0
              Hsized) as (r & st' & Hloop & He & Hp & Hb); [lia|lia|].
  rewrite Hloop. eexists; split; [reflexivity|]; simpl.
  rewrite Hk0 in *. repeat split; nia.
Qed.

Lemma lbfgs_terminates_under_cap_witness :
  exists res,
    lbfgs_optimize 1 1 [3%float] None eval_sum_squares None (Some keep_going)
      tt (Some (with_max_iterations _default_param 1)) = Some res
    /\ evaluations (calls (w_out res)) <= 1 + 1 * 40
    /\ progress_reports (calls (w_out res)) <= 1
    /\ stepbound_calls (calls (w_out res)) <= 1.
Proof.
  apply (lbfgs_terminates_under_cap 1 1 [3%float] None eval_sum_squares None
           (Some keep_going) tt (Some (with_max_iterations _default_param 1)));
    [reflexivity|reflexivity|reflexivity|simpl; lia].
Defined.

(** ** The window of past objective values *)

Lemma lbfgs_passes_snoc {I : Type} n m param (cd : callback_data_t I) j :
  forall st0 st',
    lbfgs_passes (S j) n m param cd st0 = Some st' <->
    exists st,
      lbfgs_passes j n m param cd st0 = Some st
      /\ lbfgs_iteration n m param cd st = Some (Continue st').
Proof.
  induction j as [|j IH]; intros st0 st'.
  - simpl. split.
    + destruct (lbfgs_iteration n m param cd st0) as [[st1|]|] eqn:Hit;
        try discriminate.
      intros H; injection H as <-. exists st0; auto.
    + intros (st & H & Hit); injection H as <-. rewrite Hit; reflexivity.
  - change (lbfgs_passes (S (S j)) n m param cd st0)
      with (match lbfgs_iteration n m param cd st0 with
            | Some (Continue st1) => lbfgs_passes (S j) n m param cd st1
            | _ => None
            end).
    change (lbfgs_passes (S j) n m param cd st0)
      with (match lbfgs_iteration n m param cd st0 with
            | Some (Continue st1) => lbfgs_passes j n m param cd st1
            | _ => None
            end).
    destruct (lbfgs_iteration n m param cd st0) as [[st1|]|].
    + apply IH.
    + split; [discriminate|intros (? & ? & _); discriminate].
    + split; [discriminate|intros (? & ? & _); discriminate].
Qed.

Lemma mod_window_distinct p i j :
  0 <= i -> i < j -> j < i + p -> i mod p <> j mod p.
Proof.
  intros Hi Hij Hjp E.
  assert (H : (j - i) mod p = 0)
    by (rewrite Zminus_mod, E, Z.sub_diag; apply Z.mod_0_l; lia).
  rewrite Z.mod_small in H; lia.
Qed.

(** After [j] passes the cell [i mod past] of the past values holds the
    objective value reached after [i] passes, for each of the last [past]
    values of [i]. *)
Lemma past_values_window {I : Type} n m param (cd : callback_data_t I) st0 :
  0 < m -> 0 < past param ->
  state_sized n m param st0 -> st_k st0 = 1 ->
  (exists pf0, st_pf st0 = Some pf0 /\ pf0 !! 0%nat = Some (st_fx st0)) ->
  forall j stj,
    lbfgs_passes j n m param cd st0 = Some stj ->
    exists pf,
      st_pf stj = Some pf
      /\ forall i sti,
           (i <= j)%nat -> Z.of_nat j < Z.of_nat i + past param ->
           lbfgs_passes i n m param cd st0 = Some sti ->
           pf !! Z.to_nat (Z.of_nat i mod past param) = Some (st_fx sti).
Proof.
  intros Hm Hpast Hsized Hk0 (pf0 & Hpf0 & Hcell0).
  induction j as [|j IH]; intros stj Hj.
  - injection Hj as <-. exists pf0; split; [exact Hpf0|].
    intros i sti Hi _ Hpi. replace i with 0%nat in * by lia.
    injection Hpi as <-. rewrite Z.mod_0_l by lia. exact Hcell0.
  - apply lbfgs_passes_snoc in Hj as (st & Hp & Hit).
    destruct (IH st Hp) as (pf & Hpf & Hcells).
    pose proof (lbfgs_passes_sized n m param cd Hm j st0 st Hsized Hp)
      as Hst.
    pose proof (lbfgs_passes_k n m param cd j st0 st Hp) as Hk.
    pose proof Hit as Hit'.
    apply lbfgs_iteration_continue in Hit'
      as (r & w2 & _ & _ & _ & _ & _ & _ & ->).
    destruct (update_direction_fields n m st (ls_x r)
                (veccpy (st_xp st) (st_x st) n) (ls_g r)
                (veccpy (st_gp st) (st_g st) n)
                (store_past param (st_pf st) (st_k st) (ls_f r)) (ls_f r) w2)
      as (_ & _ & _ & _ & Fpf & Ffx & _).
    rewrite Fpf, Hpf. simpl. eexists; split; [reflexivity|].
    destruct Hst as (_ & _ & _ & _ & _ & _ & _ & _ & _ & Hbuf).
    rewrite Hpf in Hbuf. destruct Hbuf as [_ Hlen].
    rewrite Hk, Hk0, Z.rem_mod_nonneg by lia.
    assert (Hslot : 0 <= (1 + Z.of_nat j) mod past param < past param)
      by (apply Z.mod_pos_bound; lia).
    intros i sti Hi Hwin Hpi.
    destruct (Nat.eq_dec i (S j)) as [->|Hne].
    + apply lbfgs_passes_snoc in Hpi as (st2 & Hp2 & Hit2).
      rewrite Hp in Hp2; injection Hp2 as <-.
      rewrite Hit in Hit2; injection Hit2 as <-.
      rewrite Ffx.
      replace (Z.of_nat (S j)) with (1 + Z.of_nat j) by lia.
      apply list_lookup_insert_eq. lia.
    + rewrite list_lookup_insert_ne.
      * apply Hcells; [lia|lia|exact Hpi].
      * intros E. apply Z2Nat.inj in E; try lia;
          [|apply Z.mod_pos_bound; lia].
        apply (mod_window_distinct (past param) (Z.of_nat i)
                 (1 + Z.of_nat j)); lia.
Qed.

Lemma lbfgs_start_past {I : Type} n m param (cd : callback_data_t I) x w :
  0 < past param ->
  let st0 := lbfgs_start n m param cd x w in
  st_k st0 = 1
  /\ exists pf0, st_pf st0 = Some pf0 /\ pf0 !! 0%nat = Some (st_fx st0).
Proof.
  intros Hpast. unfold lbfgs_start.
  destruct (call_evaluate cd w x (vecalloc n)) as [[w1 fx] g]. simpl.
  split; [reflexivity|].
  apply Z.ltb_lt in Hpast as Hp; rewrite Hp.
  eexists; split; [reflexivity|].
  apply list_lookup_insert_eq. rewrite vecalloc_length. lia.
Qed.

(** X12: in a run with [0 < past], the stopping test of pass [k >= past]
    compares the objective value [fx] of that pass with the one the run had
    reached [past] passes earlier (the initial value when [k = past]): it
    holds exactly when [|(f_(k - past) - fx) / fx| < delta].  Here [sti] and
    [stj] are the states in which passes [i + 1] and [j + 1 = k] start, with
    [k = i + past], so that [st_fx sti] is the value after [i = k - past]
    passes. *)
Theorem stopping_test_compares_past {I : Type} i j n x ev sb pp (inst : I)
    _param sti stj :
  let param := param_or_default _param in
  let cd := make_callback_data n ev sb pp in
  length x = Z.to_nat n ->
  0 < past param ->
  lbfgs_reaches i n param cd x (world_at_call inst) sti ->
  lbfgs_reaches j n param cd x (world_at_call inst) stj ->
  Z.of_nat j + 1 = Z.of_nat i + past param ->
  st_k stj = Z.of_nat i + past param
  /\ forall fx,
       stopping_test param (st_pf stj) (st_k stj) fx
       = (PrimFloat.abs ((st_fx sti - fx) / fx) <? delta param)%float.
Proof.
  intros param cd Hx Hpast Hi Hj Hk.
  destruct (lbfgs_reaches_sized j n param cd x (world_at_call inst) stj Hx Hj)
    as [_ Hkj].
  destruct Hi as (Hchk & _ & Hpi). destruct Hj as (_ & _ & Hpj).
  cbv zeta in Hpi, Hpj.
  pose proof (check_parameters_sizes _ _ Hchk) as [_ Hm].
  destruct (lbfgs_start_past n (mem_size param) param cd x
              (world_at_call inst) Hpast) as [Hk0 Hpf0].
  destruct (past_values_window n (mem_size param) param cd _ Hm Hpast
              (lbfgs_start_sized n (mem_size param) param cd Hm x
                 (world_at_call inst) Hx) Hk0 Hpf0 j stj Hpj)
    as (pf & Hpf & Hcells).
  split; [lia|]. intros fx. rewrite Hpf. unfold stopping_test, decrease_rate.
  replace (past param <=? st_k stj) with true
    by (symmetry; apply Z.leb_le; lia).
  simpl andb.
  rewrite Z.rem_mod_nonneg by lia.
  replace (st_k stj mod past param) with (Z.of_nat i mod past param).
  - assert (Hcell : pf !! Z.to_nat (Z.of_nat i mod past param)
                    = Some (st_fx sti)) by (apply Hcells; [lia|lia|exact Hpi]).
    apply list_lookup_total_correct in Hcell. rewrite Hcell. reflexivity.
  - rewrite Hkj, Hk.
    replace (Z.of_nat i + past param)
      with (Z.of_nat i + 1 * past param) by lia.
    rewrite Z.mod_add by lia. reflexivity.
Qed.

Lemma stopping_test_compares_past_witness :
  let param := with_past _default_param 1 0 in
  let st0 := lbfgs_start 1 (mem_size param) param
               (make_callback_data 1 eval_sum_squares None None) [3%float]
               (world_at_call tt) in
  st_k st0 = 0 + 1
  /\ forall fx,
       stopping_test param (st_pf st0) (st_k st0) fx
       = (PrimFloat.abs ((st_fx st0 - fx) / fx) <? delta param)%float.
Proof.
  intros param st0.
  apply (stopping_test_compares_past 0 0 1 [3%float] eval_sum_squares None
           None tt (Some param) st0 st0).
  - reflexivity.
  - reflexivity.
  - split; [reflexivity|]. split; reflexivity.
  - split; [reflexivity|]. split; reflexivity.
  - reflexivity.
Defined.

(** ** Comparisons of [double]s and NaN *)

Lemma SFcompare_refl a : a <> S754_nan -> SFcompare a a = Some Eq.
Proof.
  destruct a as [s| s| |s m e]; simpl; intros H; try congruence.
  - destruct s; reflexivity.
  - rewrite Z.compare_refl.
    change (Pos.compare_cont Eq m m) with (Pos.compare m m).
    rewrite Pos.compare_refl. destruct s; reflexivity.
Qed.

Lemma SFcompare_antisym a b :
  SFcompare b a = match SFcompare a b with
                  | Some c => Some (CompOpp c)
                  | None => None
                  end.
Proof.
  destruct a as [sa|sa| |sa ma ea], b as [sb|sb| |sb mb eb]; simpl;
    try reflexivity;
    try (destruct sa; reflexivity); try (destruct sb; reflexivity);
    try (destruct sa, sb; reflexivity).
  change (Pos.compare_cont Eq mb ma) with (Pos.compare mb ma).
  change (Pos.compare_cont Eq ma mb) with (Pos.compare ma mb).
  rewrite (Z.compare_antisym ea eb), (Pos.compare_antisym ma mb).
  destruct sa, sb; try reflexivity;
    destruct (ea ?= eb); simpl; try reflexivity;
    destruct (ma ?= mb)%positive; reflexivity.
Qed.

Lemma is_nan_spec (a : float) :
  PrimFloat.is_nan a = true -> Prim2SF a = S754_nan.
Proof.
  unfold PrimFloat.is_nan. rewrite FloatAxioms.eqb_spec. unfold SFeqb.
  destruct (Prim2SF a) as [s|s| |s m e] eqn:E; try reflexivity;
    rewrite SFcompare_refl; discriminate.
Qed.

(** A comparison with a NaN is false. *)
Lemma float_ltb_nan (a b : float) :
  PrimFloat.is_nan a || PrimFloat.is_nan b = true -> (a <? b)%float = false.
Proof.
  intros H. rewrite FloatAxioms.ltb_spec. unfold SFltb.
  apply orb_true_iff in H as [H|H]; apply is_nan_spec in H; rewrite H.
  - reflexivity.
  - destruct (Prim2SF a); reflexivity.
Qed.

Lemma float_leb_nan (a b : float) :
  PrimFloat.is_nan a || PrimFloat.is_nan b = true -> (a <=? b)%float = false.
Proof.
  intros H. rewrite FloatAxioms.leb_spec. unfold SFleb.
  apply orb_true_iff in H as [H|H]; apply is_nan_spec in H; rewrite H.
  - reflexivity.
  - destruct (Prim2SF a); reflexivity.
Qed.

Lemma Prim2SF_nan_is_nan (a : float) :
  Prim2SF a = S754_nan -> PrimFloat.is_nan a = true.
Proof.
  intros H. unfold PrimFloat.is_nan. rewrite FloatAxioms.eqb_spec, H. reflexivity.
Qed.

(** Sums and products with a NaN are NaN. *)
Lemma float_add_nan (a b : float) :
  PrimFloat.is_nan a || PrimFloat.is_nan b = true ->
  PrimFloat.is_nan (a + b) = true.
Proof.
  intros H. apply Prim2SF_nan_is_nan. rewrite add_spec.
  apply orb_true_iff in H as [H|H]; apply is_nan_spec in H; rewrite H.
  - reflexivity.
  - destruct (Prim2SF a); reflexivity.
Qed.

Lemma float_mul_nan (a b : float) :
  PrimFloat.is_nan a || PrimFloat.is_nan b = true ->
  PrimFloat.is_nan (a * b) = true.
Proof.
  intros H. apply Prim2SF_nan_is_nan. rewrite mul_spec.
  apply orb_true_iff in H as [H|H]; apply is_nan_spec in H; rewrite H.
  - reflexivity.
  - destruct (Prim2SF a); reflexivity.
Qed.

Lemma float_ltb_asym (a b : float) :
  (a <? b)%float = true -> (b <? a)%float = false.
Proof.
  rewrite !FloatAxioms.ltb_spec. unfold SFltb.
  rewrite (SFcompare_antisym (Prim2SF a) (Prim2SF b)).
  destruct (SFcompare (Prim2SF a) (Prim2SF b)) as [[]|]; simpl;
    congruence.
Qed.

Lemma float_ltb_irrefl (a : float) : (a <? a)%float = false.
Proof.
  destruct (a <? a)%float eqn:E; [|reflexivity].
  rewrite (float_ltb_asym a a E) in E. discriminate.
Qed.

(** X13: the backtracking search does not detect a NaN.  When the search
    gets past its two entry checks and any of the initial value [f], the
    step, the sufficient-decrease coefficient, the initial directional
    derivative or the value at the first trial point is a NaN, the
    sufficient-decrease comparison of the first trial is false, so the first
    trial point is accepted: the search returns 1 after one evaluation,
    with whatever the evaluator returned there. *)
Theorem line_search_accepts_nan {I : Type} n x f g stp s xp gp stpmin stpmax
    (cd : callback_data_t I) param (w w1 : world I) f1 g1 :
  (stp <=? 0)%float = false ->
  (0 <? vecdot gp s n)%float = false ->
  call_evaluate cd w (vecadd (veccpy x xp n) s stp n) g = (w1, f1, g1) ->
  PrimFloat.is_nan f || PrimFloat.is_nan stp
  || PrimFloat.is_nan (f_dec_coeff param)
  || PrimFloat.is_nan (vecdot gp s n) || PrimFloat.is_nan f1 = true ->
  line_search_backtracking n x f g stp s xp gp stpmin stpmax cd param w
  = Some {| ls_ret := 1; ls_x := vecadd (veccpy x xp n) s stp n;
            ls_f := f1; ls_g := g1; ls_stp := stp; ls_w := w1 |}.
Proof.
  intros Hstp Hdg Hcall Hnan. unfold line_search_backtracking.
  rewrite Hstp, Hdg.
  destruct (Z.to_nat (Z.max 1 (max_linesearch param))) as [|fuel] eqn:E;
    [lia|].
  simpl. rewrite Hcall.
  rewrite float_ltb_nan; [reflexivity|].
  apply orb_true_iff in Hnan as [Hnan|Hnan];
    [|rewrite Hnan; apply orb_true_r].
  apply orb_true_iff. left. apply float_add_nan.
  apply orb_true_iff in Hnan as [Hnan|Hnan].
  - apply orb_true_iff in Hnan as [Hnan|Hnan].
    + apply orb_true_iff in Hnan as [Hnan|Hnan].
      * rewrite Hnan; reflexivity.
      * apply orb_true_iff; right. apply float_mul_nan.
        rewrite Hnan; reflexivity.
    + apply orb_true_iff; right. apply float_mul_nan.
      apply orb_true_iff; right. apply float_mul_nan.
      rewrite Hnan; reflexivity.
  - apply orb_true_iff; right. apply float_mul_nan.
    apply orb_true_iff; right. apply float_mul_nan.
    rewrite Hnan; apply orb_true_r.
Qed.

Lemma line_search_accepts_nan_witness :
  line_search_backtracking 1 [nan] 0 [1%float] 1 [1%float] [nan]
    [(-1)%float] 0 1 (sample_cd eval_linear) _default_param sample_world
  = Some {| ls_ret := 1; ls_x := [nan]; ls_f := nan; ls_g := [1%float];
            ls_stp := 1;
            ls_w := {| instance := tt;
                       calls := [EvEvaluate [nan] nan [1%float]] |} |}.
Proof.
  apply (line_search_accepts_nan 1 [nan] 0%float [1%float] 1%float
           [1%float] [nan] [(-1)%float] 0%float 1%float
           (sample_cd eval_linear) _default_param sample_world
           {| instance := tt; calls := [EvEvaluate [nan] nan [1%float]] |}
           nan [1%float]); reflexivity.
Defined.

(** X14: the step bound handed to the line search is never above
    [max_step]; when the provider answers a NaN, or there is no provider, it
    is [max_step] itself; and the step handed to the search is the current
    estimate or exactly half of that bound. *)
Theorem step_bound_clipped {I : Type} param (cd : callback_data_t I) st
    w1 smax s1 :
  step_bounds param cd st = (w1, smax, s1) ->
  (max_step param <? smax)%float = false
  /\ (s1 = st_step st \/ s1 = (smax / 2)%float)
  /\ (match proc_stepbound cd with
      | Some sb =>
          PrimFloat.is_nan
            (snd (sb (instance (st_w st)) (st_xp st) (st_d st) (cd_n cd)))
          = true
      | None => True
      end -> smax = max_step param).
Proof.
  unfold step_bounds, call_stepbound.
  destruct (proc_stepbound cd) as [sb|].
  - destruct (sb _ _ _ _) as [i1 b]. simpl snd.
    intros H; injection H as _ <- <-.
    split; [|split].
    + destruct (b <? max_step param)%float eqn:E.
      * apply float_ltb_asym; exact E.
      * apply float_ltb_irrefl.
    + destruct (_ <=? st_step st)%float; auto.
    + intros Hnan. rewrite float_ltb_nan; [reflexivity|].
      rewrite Hnan; reflexivity.
  - intros H; injection H as _ <- <-.
    split; [apply float_ltb_irrefl|]. split; auto.
Qed.

Lemma step_bound_clipped_witness :
  exists w1 s1,
    step_bounds _default_param
      (make_callback_data 1 eval_sum_squares (Some bound_eighth) None)
      (lbfgs_start 1 8 _default_param
         (make_callback_data 1 eval_sum_squares (Some bound_eighth) None)
         [3%float] (world_at_call tt))
    = (w1, 0.125%float, s1)
    /\ (max_step _default_param <? 0.125)%float = false.
Proof.
  eexists; eexists. split; [vm_compute; reflexivity|].
  refine (proj1 (step_bound_clipped _default_param
                   (make_callback_data 1 eval_sum_squares (Some bound_eighth)
                      None)
                   (lbfgs_start 1 8 _default_param
                      (make_callback_data 1 eval_sum_squares
                         (Some bound_eighth) None)
                      [3%float] (world_at_call tt)) _ 0.125%float _ _)).
  vm_compute; reflexivity.
Defined.

(** ** The limited memory as a window over the passes *)

Lemma recent_pairs_window m lm1 lm2 bound : forall end_,
  (forall t, (t < bound)%nat ->
     pair_in_slot (lm1 !!! Z.to_nat ((end_ - 1 - Z.of_nat t) mod m))
     = pair_in_slot (lm2 !!! Z.to_nat ((end_ - 1 - Z.of_nat t) mod m))) ->
  recent_pairs lm1 m end_ bound = recent_pairs lm2 m end_ bound.
Proof.
  induction bound as [|b IH]; intros end_ H; simpl; [reflexivity|].
  f_equal.
  - specialize (H 0%nat ltac:(lia)). rewrite Z.sub_0_r in H. exact H.
  - apply IH. intros t Ht. specialize (H (S t) ltac:(lia)).
    replace ((end_ - 1) mod m - 1 - Z.of_nat t)
      with ((end_ - 1) mod m - (1 + Z.of_nat t)) by lia.
    rewrite Zminus_mod_idemp_l.
    replace (end_ - 1 - (1 + Z.of_nat t))
      with (end_ - 1 - Z.of_nat (S t)) by lia.
    exact H.
Qed.

Lemma recent_pairs_take m lm b : forall b' end_,
  (b <= b')%nat ->
  recent_pairs lm m end_ b = take b (recent_pairs lm m end_ b').
Proof.
  induction b as [|b IH]; intros [|b'] end_ Hb; try lia; simpl;
    [reflexivity|reflexivity|].
  f_equal. apply IH; lia.
Qed.

Lemma recent_pairs_length m lm b : forall end_,
  length (recent_pairs lm m end_ b) = b.
Proof. induction b as [|b IH]; intros end_; simpl; auto. Qed.

Lemma pass_pairs_length {I : Type} n m param (cd : callback_data_t I) st0 j :
  forall st, lbfgs_passes j n m param cd st0 = Some st ->
  length (pass_pairs j n m param cd st0) = j.
Proof.
  induction j as [|j IH]; intros st Hp; [reflexivity|].
  pose proof Hp as Hp'.
  apply lbfgs_passes_snoc in Hp' as (st1 & Hp1 & _).
  cbn [pass_pairs]. rewrite Hp1, Hp. simpl. f_equal. eapply IH; eauto.
Qed.

(** One pass puts its pair in front of the window and leaves the pairs
    behind it as they were. *)
Lemma memory_window_slides {I : Type} n m param (cd : callback_data_t I)
    st st' b :
  0 < m -> state_sized n m param st ->
  lbfgs_iteration n m param cd st = Some (Continue st') ->
  Z.of_nat b < m ->
  recent_pairs (st_lm st') m (st_end st') (S b)
  = step_pair st st' :: recent_pairs (st_lm st) m (st_end st) b.
Proof.
  intros Hm Hsized Hit Hb.
  destruct Hsized as (Hsx & Hsxp & Hsg & Hsgp & Hsd & Hslm & Hslots
                      & Hend & Hk1 & _).
  apply lbfgs_iteration_continue in Hit
    as (r & w2 & Hs & _ & _ & _ & _ & _ & ->).
  apply lbfgs_search_lengths in Hs as [Hrx Hrg].
  rewrite (veccpy_whole (st_xp st) (st_x st) n Hsxp Hsx).
  rewrite (veccpy_whole (st_gp st) (st_g st) n Hsgp Hsg).
  pose proof (update_direction_fields n m st (ls_x r) (st_x st)
                (ls_g r) (st_g st)
                (store_past param (st_pf st) (st_k st) (ls_f r)) (ls_f r) w2)
    as (Fx & _ & Fg & _).
  pose proof (update_direction_spec n m st (ls_x r) (st_x st)
                (ls_g r) (st_g st)
                (store_past param (st_pf st) (st_k st) (ls_f r)) (ls_f r) w2
                Hm) as Hspec.
  cbv zeta in *.
  destruct Hspec as ((alpha & Hslot) & Hothers & Hend' & _); auto;
    try congruence.
  unfold step_pair. rewrite Fx, Fg.
  cbn [recent_pairs]. rewrite Hend'.
  assert (Hback : ((st_end st + 1) mod m - 1) mod m = st_end st).
  { rewrite Zminus_mod_idemp_l.
    replace (st_end st + 1 - 1) with (st_end st) by lia.
    apply Z.mod_small; exact Hend. }
  rewrite Hback. f_equal.
  - apply list_lookup_total_correct in Hslot. rewrite Hslot. reflexivity.
  - apply recent_pairs_window. intros t Ht. apply Hothers.
    intros E. apply Z2Nat.inj in E; [|apply Z.mod_pos_bound; lia|lia].
    apply (slot_distinct m Hm (st_end st) (1 + Z.of_nat t)); [lia|lia|].
    rewrite <- E at 2. f_equal; lia.
Qed.

Lemma memory_window_passes {I : Type} n m param (cd : callback_data_t I)
    st0 :
  0 < m -> state_sized n m param st0 ->
  forall j st,
    lbfgs_passes j n m param cd st0 = Some st ->
    recent_pairs (st_lm st) m (st_end st) (Nat.min j (Z.to_nat m))
    = take (Z.to_nat m) (pass_pairs j n m param cd st0).
Proof.
  intros Hm Hsized0. induction j as [|j IH]; intros st' Hp'.
  { cbn [pass_pairs Nat.min recent_pairs]. rewrite take_nil. reflexivity. }
  pose proof Hp' as Hsn.
  apply lbfgs_passes_snoc in Hsn as (st & Hp & Hit).
  pose proof (lbfgs_passes_sized n m param cd Hm j st0 st Hsized0 Hp)
    as Hsized.
  pose proof (pass_pairs_length n m param cd st0 j st Hp) as Hlen.
  specialize (IH st Hp).
  cbn [pass_pairs]. rewrite Hp, Hp'.
  destruct (Z.to_nat m) as [|M] eqn:EM; [lia|].
  replace (Nat.min (S j) (S M)) with (S (Nat.min j M)) by lia.
  rewrite (memory_window_slides n m param cd st st' (Nat.min j M) Hm Hsized
             Hit) by lia.
  cbn [take]. f_equal.
  rewrite (recent_pairs_take m (st_lm st) (Nat.min j M) (Nat.min j (S M)))
    by lia.
  rewrite IH, take_take.
  destruct (Nat.le_gt_cases j M) as [Hle|Hgt].
  - rewrite !take_ge by (rewrite Hlen; lia). reflexivity.
  - f_equal; lia.
Qed.

(** X15: the limited memory is a window over the run.  After [j] passes
    the [min(j, m)] pairs that the two-loop recursion reads from the ring
    buffer are the correction pairs [(x' - x, g' - g)] of the last
    [min(j, m)] passes, most recent first: every pass puts its pair in
    front, and the pair of the pass [m] passes back is the one that is
    overwritten. *)
Theorem memory_holds_last_pairs {I : Type} j n x ev sb pp (inst : I) _param
    st :
  let param := param_or_default _param in
  let m := mem_size param in
  let cd := make_callback_data n ev sb pp in
  length x = Z.to_nat n ->
  lbfgs_reaches j n param cd x (world_at_call inst) st ->
  recent_pairs (st_lm st) m (st_end st) (Nat.min j (Z.to_nat m))
  = take (Z.to_nat m)
      (pass_pairs j n m param cd
         (lbfgs_start n m param cd x (world_at_call inst))).
Proof.
  intros param m cd Hx (Hchk & _ & Hp).
  pose proof (check_parameters_sizes _ _ Hchk) as [_ Hm].
  apply memory_window_passes; auto.
  apply lbfgs_start_sized; auto.
Qed.

Lemma memory_holds_last_pairs_witness :
  let param := with_mem_size _default_param 2 in
  let cd := make_callback_data 1 eval_quartic None None in
  exists st,
    lbfgs_reaches 3 1 param cd [3%float] (world_at_call tt) st
    /\ recent_pairs (st_lm st) 2 (st_end st) 2
       = take 2 (pass_pairs 3 1 2 param cd
                   (lbfgs_start 1 2 param cd [3%float] (world_at_call tt))).
Proof.
  intros param cd. eexists. split.
  - split; [reflexivity|]. split; vm_compute; reflexivity.
  - apply (memory_holds_last_pairs 3 1 [3%float] eval_quartic None None tt
             (Some param)); [reflexivity|].
    split; [reflexivity|]. split; vm_compute; reflexivity.
Defined.

(** ** What the progress reports account for *)

Lemma reported_trials_app l1 l2 :
  reported_trials (l1 ++ l2) = reported_trials l1 + reported_trials l2.
Proof.
  unfold reported_trials. induction l1 as [|e l1 IH]; simpl; [lia|].
  destruct e; lia.
Qed.

Lemma reported_trials_none l :
  progress_reports l = 0 -> reported_trials l = 0.
Proof.
  unfold progress_reports, reported_trials.
  induction l as [|e l IH]; simpl; [reflexivity|].
  destruct e; simpl; auto. intros H; lia.
Qed.

Section Accounting.

Context {I : Type}.
Variables (n m : Z) (param : lbfgs_parameter_t) (cd : callback_data_t I).
Variable pr : @lbfgs_progress_t I.
Hypothesis m_pos : 0 < m.
Hypothesis ls_pos : 0 < max_linesearch param.
Hypothesis with_progress : proc_progress cd = Some pr.

Lemma lbfgs_iteration_accounted (st : lbfgs_state I) o :
  state_sized n m param st -> accounted (st_w st) ->
  lbfgs_iteration n m param cd st = Some o ->
  match o with
  | Continue st' => accounted (st_w st')
  | Break r st' =>
      1 + reported_trials (calls (st_w st')) <= evaluations (calls (st_w st'))
      /\ evaluations (calls (st_w st'))
         <= 1 + reported_trials (calls (st_w st')) + max_linesearch param
      /\ (failed_trial_status r = false -> accounted (st_w st'))
  end.
Proof.
  unfold accounted. intros Hsized Hacc Hit.
  destruct (lbfgs_search_total n m param cd st Hsized) as [r Hs].
  destruct (lbfgs_search_spec n m param cd st r Hsized Hs)
    as (w1 & smax & s1 & Hsb & Hcases).
  apply step_bounds_log in Hsb as (sbev & Hw1 & Hsbev & Hsbpr).
  apply reported_trials_none in Hsbpr.
  destruct (lbfgs_search_calls n m param cd ls_pos st r Hsized Hs)
    as (Hbud & _ & _).
  destruct (Z.ltb_spec (ls_ret r) 0) as [Hneg|Hpos].
  - destruct (lbfgs_iteration_failure n m param cd st r Hsized Hs Hneg)
      as (st' & Hit' & _ & _ & _ & _ & _ & Hw).
    rewrite Hit' in Hit; injection Hit as <-. rewrite Hw.
    destruct Hcases as [(_ & _ & _ & _ & _ & Hlw)
                       |(evs & Hcalls & _ & Hall & _ & _ & Hend)].
    + rewrite Hlw, Hw1, evaluations_app, reported_trials_app, Hsbev, Hsbpr.
      repeat split; intros; lia.
    + rewrite Hcalls, Hw1 in Hbud |- *.
      rewrite !evaluations_app, Hsbev, (evaluations_all evs Hall) in Hbud.
      rewrite !evaluations_app, !reported_trials_app, Hsbev, Hsbpr,
        (evaluations_all evs Hall),
        (reported_trials_none evs (progress_reports_evaluate evs Hall)).
      split; [lia|]. split; [lia|].
      destruct Hend as [[Hret _]|[Hret _]]; [lia|].
      intros Hst. exfalso. unfold failed_trial_status in Hst.
      destruct Hret as [Hr|[Hr|Hr]]; rewrite Hr in Hst; discriminate.
  - destruct (report_progress n cd st r) as [w2 answer] eqn:Hrp.
    rewrite (lbfgs_iteration_searched n m param cd st r w2 answer Hs Hpos Hrp)
      in Hit.
    apply report_progress_log in Hrp. rewrite with_progress in Hrp.
    assert (Hw2 : evaluations (calls w2) = 1 + reported_trials (calls w2)).
    { destruct Hcases as [([Hr|Hr] & _)
                         |(evs & Hcalls & _ & Hall & _ & _ & Hend)].
      - rewrite Hr in Hpos. unfold LBFGSERR_INVALIDPARAMETERS in Hpos. lia.
      - rewrite Hr in Hpos. unfold LBFGSERR_INCREASEGRADIENT in Hpos. lia.
      - destruct Hend as [[Hret _]|[[Hr|[Hr|Hr]] _]];
          [|rewrite Hr in Hpos; unfold LBFGSERR_MINIMUMSTEP,
              LBFGSERR_MAXIMUMSTEP, LBFGSERR_MAXIMUMLINESEARCH in Hpos;
            lia..].
        rewrite Hrp, Hcalls, Hw1.
        rewrite !evaluations_app, !reported_trials_app, Hsbev, Hsbpr,
          (evaluations_all evs Hall),
          (reported_trials_none evs (progress_reports_evaluate evs Hall)).
        unfold evaluations at 2. unfold reported_trials at 2. simpl. lia. }
    destruct (negb (answer =? 0));
      [injection Hit as <-; simpl; repeat split; intros; lia|].
    destruct (gradient_test _ _ _);
      [injection Hit as <-; simpl; repeat split; intros; lia|].
    destruct (stopping_test _ _ _ _);
      [injection Hit as <-; simpl; repeat split; intros; lia|].
    destruct (iteration_cap _ _);
      [injection Hit as <-; simpl; repeat split; intros; lia|].
    injection Hit as <-.
    destruct (update_direction_fields n m st (ls_x r)
                (veccpy (st_xp st) (st_x st) n) (ls_g r)
                (veccpy (st_gp st) (st_g st) n)
                (store_past param (st_pf st) (st_k st) (ls_f r)) (ls_f r) w2)
      as (_ & _ & _ & _ & _ & _ & Hw & _).
    rewrite Hw. exact Hw2.
Qed.

Lemma lbfgs_loop_accounted fuel : forall (st st' : lbfgs_state I) r,
  state_sized n m param st -> accounted (st_w st) ->
  lbfgs_loop fuel n m param cd st = Some (r, st') ->
  1 + reported_trials (calls (st_w st')) <= evaluations (calls (st_w st'))
  /\ evaluations (calls (st_w st'))
     <= 1 + reported_trials (calls (st_w st')) + max_linesearch param
  /\ (failed_trial_status r = false -> accounted (st_w st')).
Proof.
  induction fuel as [|fuel IH]; intros st st' r Hsized Hacc; simpl;
    [discriminate|].
  destruct (lbfgs_iteration n m param cd st) as [[st1|r1 st1]|] eqn:Hit;
    try discriminate.
  - apply IH.
    + eapply lbfgs_iteration_sized; eauto.
    + exact (lbfgs_iteration_accounted st _ Hsized Hacc Hit).
  - intros H; injection H as <- <-.
    exact (lbfgs_iteration_accounted st _ Hsized Hacc Hit).
Qed.

End Accounting.

(** X16: in a run with a progress callback, the [ls] arguments of the
    progress reports account for the calls of the evaluator: their sum plus
    one (the initial evaluation) is the number of evaluations made, unless
    the run ended in a search that failed after evaluating trial points
    ([LBFGSERR_MINIMUMSTEP], [LBFGSERR_MAXIMUMSTEP],
    [LBFGSERR_MAXIMUMLINESEARCH]), whose at most [max_linesearch] trials are
    reported to nobody. *)
Theorem evaluations_accounted {I : Type} fuel n x ptr_fx ev sb pr (inst : I)
    _param res :
  let param := param_or_default _param in
  check_parameters n param = None ->
  length x = Z.to_nat n ->
  lbfgs_optimize fuel n x ptr_fx ev sb (Some pr) inst _param = Some res ->
  1 + reported_trials (calls (w_out res)) <= evaluations (calls (w_out res))
  /\ evaluations (calls (w_out res))
     <= 1 + reported_trials (calls (w_out res)) + max_linesearch param
  /\ (failed_trial_status (ret res) = false ->
      evaluations (calls (w_out res))
      = 1 + reported_trials (calls (w_out res))).
Proof.
  intros param Hchk Hx. unfold lbfgs_optimize. fold param. rewrite Hchk.
  pose proof (check_parameters_sizes _ _ Hchk) as [_ Hm].
  pose proof (check_parameters_max_linesearch _ _ Hchk) as Hls.
  unfold lbfgs_main.
  set (cd := make_callback_data n ev sb (Some pr)).
  assert (Hsized : state_sized n (mem_size param) param
                     (lbfgs_start n (mem_size param) param cd x
                        (world_at_call inst)))
    by (apply lbfgs_start_sized; assumption).
  assert (Hacc : accounted
                   (st_w (lbfgs_start n (mem_size param) param cd x
                            (world_at_call inst)))).
  { unfold accounted, lbfgs_start.
    destruct (call_evaluate cd (world_at_call inst) x (vecalloc n))
      as [[w1 fx] g] eqn:E.
    apply call_evaluate_log in E as [E _]. simpl. rewrite E. reflexivity. }
  set (st0 := lbfgs_start n (mem_size param) param cd x (world_at_call inst))
    in *.
  destruct (gradient_test _ _ _).
  { intros H; injection H as <-; simpl. unfold accounted in Hacc.
    repeat split; intros; lia. }
  destruct (lbfgs_loop _ _ _ _ _ _) as [[r st']|] eqn:Hloop; [|discriminate].
  intros H; injection H as <-; simpl.
  exact (lbfgs_loop_accounted n (mem_size param) param cd pr Hm Hls eq_refl
           fuel st0 st' r Hsized Hacc Hloop).
Qed.

Lemma evaluations_accounted_witness :
  exists res,
    lbfgs_optimize 30 1 [3%float] None eval_quartic None (Some keep_going) tt
      None = Some res
    /\ evaluations (calls (w_out res))
       = 1 + reported_trials (calls (w_out res)).
Proof.
  eexists. split; [vm_compute; reflexivity|].
  refine (proj2 (proj2 (evaluations_accounted 30 1 [3%float] None eval_quartic
                          None keep_going tt None _ _ _ _)) _);
    reflexivity.
Defined.

(** ** The default parameters *)

(** X17: [lbfgs_load_default_parameters] overwrites whatever the structure
    held with the parameters that a null [_param] selects, and these pass
    every check of [lbfgs_optimize]: with them the only entry error left is
    [LBFGSERR_INVALID_N], and a call with the loaded structure runs as a
    call with a null [_param]. *)
Theorem default_parameters_accepted {I : Type} fuel n x ptr_fx ev sb pp
    (inst : I) p :
  lbfgs_load_default_parameters p = param_or_default None
  /\ check_parameters n (lbfgs_load_default_parameters p)
     = (if 0 <? n then None else Some LBFGSERR_INVALID_N)
  /\ lbfgs_optimize fuel n x ptr_fx ev sb pp inst
       (Some (lbfgs_load_default_parameters p))
     = lbfgs_optimize fuel n x ptr_fx ev sb pp inst None.
Proof.
  split; [reflexivity|]. split; [|reflexivity].
  unfold check_parameters, lbfgs_load_default_parameters.
  destruct (Z.ltb_spec 0 n) as [H|H].
  - replace (n <=? 0) with false by (symmetry; apply Z.leb_gt; lia).
    reflexivity.
  - replace (n <=? 0) with true by (symmetry; apply Z.leb_le; lia).
    reflexivity.
Qed.

(** ** What the step-bound provider is shown *)

(** X18: the step-bound provider is called before the snapshot of the
    pass is taken, so the vector it receives as [xp] is not the point the
    coming search starts from: in the first pass it is the zeroed buffer,
    and in every later pass it is the point from which the previous pass
    started.  The direction it receives is the current one. *)
Theorem stepbound_sees_previous_point {I : Type} j n x ev sb pp (inst : I)
    _param st :
  let param := param_or_default _param in
  let m := mem_size param in
  let cd := make_callback_data n ev (Some sb) pp in
  length x = Z.to_nat n ->
  lbfgs_reaches j n param cd x (world_at_call inst) st ->
  (exists w1 smax s1 b,
     step_bounds param cd st = (w1, smax, s1)
     /\ calls w1 = calls (st_w st) ++ [EvStepbound (st_xp st) (st_d st) b])
  /\ (j = 0%nat -> st_xp st = vecalloc n)
  /\ (forall j' stp,
        j = S j' ->
        lbfgs_passes j' n m param cd
          (lbfgs_start n m param cd x (world_at_call inst)) = Some stp ->
        st_xp st = st_x stp).
Proof.
  intros param m cd Hx (Hchk & _ & Hp). cbv zeta in Hp. fold m in Hp.
  pose proof (check_parameters_sizes _ _ Hchk) as [_ Hm]. fold m in Hm.
  split; [|split].
  - unfold step_bounds, call_stepbound, cd. simpl.
    destruct (sb (instance (st_w st)) (st_xp st) (st_d st) n) as [i1 b].
    eexists; eexists; eexists; exists b. split; reflexivity.
  - intros ->. injection Hp as <-. unfold lbfgs_start.
    destruct (call_evaluate _ _ _ _) as [[w1 fx] g]. reflexivity.
  - intros j' stp -> Hstp.
    apply lbfgs_passes_snoc in Hp as (st1 & Hp1 & Hit).
    rewrite Hstp in Hp1; injection Hp1 as <-.
    pose proof (lbfgs_passes_sized n m param cd Hm j' _ stp
                  (lbfgs_start_sized n m param cd Hm x (world_at_call inst)
                     Hx) Hstp) as (Hsx & Hsxp & _).
    apply lbfgs_iteration_continue in Hit
      as (r & w2 & _ & _ & _ & _ & _ & _ & ->).
    destruct (update_direction_fields n m stp (ls_x r)
                (veccpy (st_xp stp) (st_x stp) n) (ls_g r)
                (veccpy (st_gp stp) (st_g stp) n)
                (store_past param (st_pf stp) (st_k stp) (ls_f r)) (ls_f r)
                w2) as (_ & Fxp & _).
    rewrite Fxp. apply veccpy_whole; assumption.
Qed.

Lemma stepbound_sees_previous_point_witness :
  let param := _default_param in
  let cd := make_callback_data 1 eval_quartic (Some bound_eighth) None in
  exists st,
    lbfgs_reaches 1 1 param cd [3%float] (world_at_call tt) st
    /\ st_xp st = [3%float] /\ st_x st = [2%float].
Proof.
  intros param cd. eexists. split; [|split].
  - split; [reflexivity|]. split; vm_compute; reflexivity.
  - refine (proj2 (proj2 (stepbound_sees_previous_point 1 1 [3%float]
                            eval_quartic bound_eighth None tt None _ _ _))
              0%nat (lbfgs_start 1 (mem_size param) param cd [3%float]
                       (world_at_call tt)) eq_refl _).
    + reflexivity.
    + split; [reflexivity|]. split; vm_compute; reflexivity.
    + reflexivity.
  - reflexivity.
Defined.

(** ** Parameters the backtracking search does not use *)

Lemma ls_trials_curvature {I : Type} n s xp stpmin stpmax finit dgtest
    (cd : callback_data_t I) p c t fuel :
  forall count x g stp w,
    ls_trials fuel n s xp stpmin stpmax finit dgtest cd
      (with_curvature p c t) count x g stp w
    = ls_trials fuel n s xp stpmin stpmax finit dgtest cd p count x g stp w.
Proof.
  induction fuel as [|fuel IH]; intros count x g stp w; simpl;
    [reflexivity|].
  destruct (call_evaluate cd w _ g) as [[w1 f1] g1].
  rewrite IH. reflexivity.
Qed.

Lemma lbfgs_iteration_curvature {I : Type} n m (cd : callback_data_t I)
    p c t st :
  lbfgs_iteration n m (with_curvature p c t) cd st
  = lbfgs_iteration n m p cd st.
Proof.
  unfold lbfgs_iteration, lbfgs_search, line_search_backtracking.
  change (step_bounds (with_curvature p c t) cd st)
    with (step_bounds p cd st).
  destruct (step_bounds p cd st) as [[w1 smax] s1].
  cbn [f_dec_coeff max_linesearch min_step with_curvature].
  rewrite ls_trials_curvature. reflexivity.
Qed.

Lemma lbfgs_loop_curvature {I : Type} n m (cd : callback_data_t I) p c t
    fuel :
  forall st,
    lbfgs_loop fuel n m (with_curvature p c t) cd st
    = lbfgs_loop fuel n m p cd st.
Proof.
  induction fuel as [|fuel IH]; intros st; simpl; [reflexivity|].
  rewrite lbfgs_iteration_curvature.
  destruct (lbfgs_iteration n m p cd st) as [[st1|r1 st1]|]; auto.
Qed.

(** X19: the curvature coefficient [s_curv_coeff] and [xtol] are checked
    at entry and never read again: two parameter sets that differ only in
    these fields and both pass the checks give the same run (same status,
    same [x], same value, same calls). *)
Theorem curvature_parameters_unused {I : Type} fuel n x ptr_fx ev sb pp
    (inst : I) p c t :
  check_parameters n p = None ->
  check_parameters n (with_curvature p c t) = None ->
  lbfgs_optimize fuel n x ptr_fx ev sb pp inst (Some (with_curvature p c t))
  = lbfgs_optimize fuel n x ptr_fx ev sb pp inst (Some p).
Proof.
  intros Hp Hc. unfold lbfgs_optimize, param_or_default.
  rewrite Hp, Hc. unfold lbfgs_main.
  change (mem_size (with_curvature p c t)) with (mem_size p).
  set (cd := make_callback_data n ev sb pp). set (w := world_at_call inst).
  change (lbfgs_start n (mem_size p) (with_curvature p c t) cd x w)
    with (lbfgs_start n (mem_size p) p cd x w).
  rewrite lbfgs_loop_curvature. reflexivity.
Qed.

Lemma curvature_parameters_unused_witness :
  lbfgs_optimize 30 1 [3%float] (Some 0%float) eval_quartic None None tt
    (Some (with_curvature _default_param 0.5 7))
  = lbfgs_optimize 30 1 [3%float] (Some 0%float) eval_quartic None None tt
      (Some _default_param).
Proof.
  apply (curvature_parameters_unused 30 1 [3%float] (Some 0%float)
           eval_quartic None None tt _default_param 0.5%float 7%float);
    reflexivity.
Defined.

(** ** Describing the status of a run *)

Lemma lbfgs_strerror_known err :
  known_status err = true -> lbfgs_strerror err <> "(unknown)"%string.
Proof.
  intros Hk Heq. apply known_status_cases in Hk. simpl in Hk.
  repeat (destruct Hk as [<-|Hk]; [vm_compute in Heq; discriminate|]).
  exact Hk.
Qed.

Lemma own_status_known r : own_status r = true -> known_status r = true.
Proof.
  unfold own_status, is_invalid_status, known_status. unfold_statuses.
  intros H. lia.
Qed.

(** X20: without a progress callback, every status [lbfgs_optimize]
    returns is a value of the enum, so [lbfgs_strerror] has a description
    for it other than ["(unknown)"]. *)
Theorem lbfgs_status_described {I : Type} fuel n x ptr_fx ev sb (inst : I)
    _param res :
  lbfgs_optimize fuel n x ptr_fx ev sb None inst _param = Some res ->
  known_status (ret res) = true
  /\ lbfgs_strerror (ret res) <> "(unknown)"%string.
Proof.
  intros Hrun.
  assert (Hk : known_status (ret res) = true).
  { apply own_status_known. revert Hrun. unfold lbfgs_optimize.
    destruct (check_parameters n (param_or_default _param)) as [err|]
      eqn:Hchk.
    { intros H; injection H as <-; simpl.
      apply check_parameters_invalid in Hchk.
      unfold own_status. rewrite Hchk. reflexivity. }
    unfold lbfgs_main.
    destruct (gradient_test _ _ _);
      [intros H; injection H as <-; reflexivity|].
    destruct (lbfgs_loop _ _ _ _ _ _) as [[r st']|] eqn:Hloop;
      [|discriminate].
    intros H; injection H as <-; simpl.
    destruct (lbfgs_loop_own_status _ _ _ _ _ _ _ _ Hloop)
      as [Hown|(_ & Hpp & _)]; [exact Hown|].
    exfalso. apply Hpp. reflexivity. }
  split; [exact Hk|]. apply lbfgs_strerror_known; exact Hk.
Qed.

Lemma lbfgs_status_described_witness :
  exists res,
    lbfgs_optimize 30 1 [3%float] None eval_quartic None None tt None
    = Some res
    /\ lbfgs_strerror (ret res) <> "(unknown)"%string.
Proof.
  eexists. split; [vm_compute; reflexivity|].
  refine (proj2 (lbfgs_status_described 30 1 [3%float] None eval_quartic None
                   tt None _ _)).
  vm_compute; reflexivity.
Defined.
